(** * The function-deploy plugin and the YAML loader, embedded in Rocq

    Shallow embedding of

    - [YamlParser.parse]                      (lib/classes/YamlParser.js),
    - [AwsDeployFunction] with its methods [getLastDeploymentDirectory],
      [setLastDeploymentDirectory], [downloadTemplateFromS3],
      [setServersideS3EncryptionOptions], [normalizeArnRole],
      [callUpdateFunctionConfiguration], [updateFunctionConfiguration] and
      [deployFunction], and its hook [aws:deploy:function:downloadTemplate].

    Configuration data (function, service and provider objects) is untyped
    in the source and is kept untyped here, as a small universe of
    JavaScript values.  Replies of the AWS SDK are records.  Everything the
    source reaches through an injected collaborator (the provider's
    [request], the file system, lodash's [toInteger], [JSON.parse], the
    digest of [crypto], json-refs) is a field of the class [Host] or
    [Loader], over which every definition and every theorem is generic;
    [Scenario] gives instances of both, on which the definitions run. *)

From Stdlib Require Import ZArith Ascii String List Lia.
From stdpp Require Import base option list gmap strings pretty.

Set Warnings "-register-all".
Open Scope string_scope.
Open Scope list_scope.
Open Scope Z_scope.

(** ** JavaScript values *)

Module JS.

(** A string is a sequence of code units below 256.  Integers stand for the
    integral numbers of the source; objects are finite maps from property
    names to values, arrays are lists, a [Buffer] is its byte string. *)
Inductive value : Type :=
  | VUndef
  | VNull
  | VBool (b : bool)
  | VNum (z : Z)
  | VStr (s : string)
  | VBuf (bytes : string)
  | VArr (l : list value)
  | VObj (m : gmap string value).

Abbreviation obj := (gmap string value).

(** [if (v)], [!v], [a || b], [a && b]. *)
Definition truthy (v : value) : bool :=
  match v with
  | VUndef | VNull => false
  | VBool b => b
  | VNum z => negb (Z.eqb z 0)
  | VStr s => negb (String.eqb s "")
  | VBuf _ | VArr _ | VObj _ => true
  end.

Definition or_ (a b : value) : value := if truthy a then a else b.

(** [_.isObject], [_.isArray], [typeof v === 'string']. *)
Definition isObject (v : value) : bool :=
  match v with
  | VBuf _ | VArr _ | VObj _ => true
  | _ => false
  end.

Definition isArray (v : value) : bool :=
  match v with VArr _ => true | _ => false end.

(** [a === s] for a string [s]. *)
Definition strictEqStr (a : value) (s : string) : bool :=
  match a with VStr t => String.eqb t s | _ => false end.

(** ToString, as applied by template literals and by [RegExp.prototype.exec].
    The decimal rendering of a number is the one of the source for
    magnitudes below 10^21. *)
Fixpoint toStr (v : value) : string :=
  match v with
  | VUndef => "undefined"
  | VNull => "null"
  | VBool true => "true"
  | VBool false => "false"
  | VNum z => pretty z
  | VStr s => s
  | VBuf b => b
  | VArr l =>
      (fix join (l : list value) : string :=
         match l with
         | [] => ""
         | x :: l' =>
             let sx := match x with VUndef | VNull => "" | _ => toStr x end in
             match l' with
             | [] => sx
             | _ => sx +:+ "," +:+ join l'
             end
         end) l
  | VObj _ => "[object Object]"
  end.

(** The own enumerable properties of a value, as [Object.assign],
    [Object.keys] and property reads see them: the entries of an object, the
    indices of an array, the indices of a string. *)
Definition indexed (l : list value) : obj :=
  list_to_map (imap (λ i x, (pretty i, x)) l).

Definition chars (s : string) : list value :=
  (λ c, VStr (String c EmptyString)) <$> list_ascii_of_string s.

Definition ownProps (v : value) : obj :=
  match v with
  | VObj m => m
  | VArr l => indexed l
  | VStr s => indexed (chars s)
  | _ => ∅
  end.

(** [v.k] and [v[k]]: [None] is the TypeError of a read on [undefined] or
    [null]; a missing property reads as [undefined]. *)
Definition prop (v : value) (k : string) : option value :=
  match v with
  | VUndef | VNull => None
  | _ => Some (default VUndef (ownProps v !! k))
  end.

(** [o.k] on an object known to be one. *)
Definition field (o : obj) (k : string) : value := default VUndef (o !! k).

(** ['k' in o]. *)
Definition has (o : obj) (k : string) : bool := bool_decide (is_Some (o !! k)).

(** The names every plain object inherits from [Object.prototype]. *)
Definition objectPrototype : list string :=
  [ "constructor"; "__defineGetter__"; "__defineSetter__"; "hasOwnProperty";
    "__lookupGetter__"; "__lookupSetter__"; "isPrototypeOf";
    "propertyIsEnumerable"; "toString"; "valueOf"; "__proto__";
    "toLocaleString" ].

(** [o[k]] on a plain object, for a key [k] that is computed at run time:
    the own property, else a member of [Object.prototype] (a function, or
    the prototype itself under ['__proto__']; none of them has a property
    the source goes on to read), else [undefined]. *)
Inductive found : Type :=
  | Own (v : value)
  | Inherited
  | Missing.

Definition lookupChain (o : obj) (k : string) : found :=
  match o !! k with
  | Some v => Own v
  | None => if bool_decide (k ∈ objectPrototype) then Inherited else Missing
  end.

(** lodash's [isLength]: a number that can be the length of an array; the
    length itself. *)
Definition isLength (v : value) : option nat :=
  match v with
  | VNum n =>
      if (0 <=? n) && (n <=? 9007199254740991) then Some (Z.to_nat n) else None
  | _ => None
  end.

(** The values lodash's collection functions ([_.some], [_.reduce]) visit.
    A collection that is array-like, which an object with a [length] that
    [isLength] accepts is, is walked by the indices below its length and not
    by its keys. *)
Definition valuesOf (v : value) : list value :=
  match v with
  | VArr l => l
  | VObj m =>
      match isLength (field m "length") with
      | Some n => (λ i : nat, field m (pretty i)) <$> seq 0 n
      | None => (map_to_list m).*2
      end
  | VStr s => chars s
  | VBuf b => (λ c, VNum (Z.of_nat (nat_of_ascii c))) <$> list_ascii_of_string b
  | _ => []
  end.

(** [_.some(collection, predicate)]. *)
Definition some (v : value) (p : value → bool) : bool := existsb p (valuesOf v).

(** [Object.assign({}, a, b)]: later sources overwrite earlier ones. *)
Definition assign2 (a b : value) : obj := ownProps b ∪ ownProps a.

(** [_.isEmpty] of an object and [_.omit(o, k)]. *)
Definition isEmpty (o : obj) : bool := bool_decide (o = ∅).
Definition omit (o : obj) (k : string) : obj := delete k o.

(** [s.indexOf(c) === -1] for a one-character needle. *)
Definition lacks (c : ascii) (s : string) : bool :=
  forallb (λ d, negb (Ascii.eqb d c)) (list_ascii_of_string s).

End JS.
Import JS.

(** ** Regular expressions

    The backtracking matcher of the two patterns of the source.  Both start
    with [^] and carry no flag, so a match is attempted at index 0 only and
    [$] is the end of the input. *)

Module Regex.

Inductive regex : Type :=
  | Chr (c : ascii)
  | Class (p : ascii → bool)
  | Star (p : ascii → bool)
  | StarLazy (p : ascii → bool)
  | Plus (p : ascii → bool)
  | Group (r : regex)
  | Cat (r1 r2 : regex)
  | Eol.

Section Matcher.
Context {R : Type}.

(** [k] is the rest of the pattern; it receives the rest of the input and
    the text of group 1. *)
Definition cont : Type := list ascii → option (list ascii) → option R.

Fixpoint star (p : ascii → bool) (cap : option (list ascii)) (k : cont)
    (s : list ascii) : option R :=
  match s with
  | c :: s' =>
      if p c then
        match star p cap k s' with
        | Some r => Some r
        | None => k s cap
        end
      else k s cap
  | [] => k [] cap
  end.

Fixpoint starLazy (p : ascii → bool) (cap : option (list ascii)) (k : cont)
    (s : list ascii) : option R :=
  match k s cap with
  | Some r => Some r
  | None =>
      match s with
      | c :: s' => if p c then starLazy p cap k s' else None
      | [] => None
      end
  end.

Fixpoint run (r : regex) (s : list ascii) (cap : option (list ascii))
    (k : cont) : option R :=
  match r with
  | Chr c =>
      match s with
      | d :: s' => if Ascii.eqb c d then k s' cap else None
      | [] => None
      end
  | Class p =>
      match s with
      | d :: s' => if p d then k s' cap else None
      | [] => None
      end
  | Star p => star p cap k s
  | StarLazy p => starLazy p cap k s
  | Plus p =>
      match s with
      | d :: s' => if p d then star p cap k s' else None
      | [] => None
      end
  | Group r' =>
      run r' s cap (λ s' _, k s' (Some (take (length s - length s') s)))
  | Cat r1 r2 => run r1 s cap (λ s' cap', run r2 s' cap' k)
  | Eol =>
      match s with
      | [] => k [] cap
      | _ => None
      end
  end.
End Matcher.

(** [re.exec(s)]: [None] is [null], otherwise the text of group 1. *)
Definition exec (r : regex) (s : string) : option (option string) :=
  run r (list_ascii_of_string s) None
      (λ _ cap, Some (string_of_list_ascii <$> cap)).

(** [s.match(re)] used as a condition. *)
Definition test (r : regex) (s : string) : bool :=
  bool_decide (is_Some (exec r s)).

Definition inRange (lo hi c : ascii) : bool :=
  (nat_of_ascii lo <=? nat_of_ascii c)%nat && (nat_of_ascii c <=? nat_of_ascii hi)%nat.

(** [.]: any code unit but a line terminator. *)
Definition dot (c : ascii) : bool :=
  negb (Ascii.eqb c "010"%char) && negb (Ascii.eqb c "013"%char).

(** [[^/-]]. *)
Definition notSlashDash (c : ascii) : bool :=
  negb (Ascii.eqb c "/"%char) && negb (Ascii.eqb c "-"%char).

(** [[A-Za-z_]] and [[a-zA-Z0-9_]]. *)
Definition identStart (c : ascii) : bool :=
  inRange "A" "Z" c || inRange "a" "z" c || Ascii.eqb c "_"%char.

Definition identChar (c : ascii) : bool :=
  inRange "a" "z" c || inRange "A" "Z" c || inRange "0" "9" c
  || Ascii.eqb c "_"%char.

(** [/^.*\/([^/-]+).*\/.*?$/] *)
Definition deploymentKey : regex :=
  Cat (Star dot)
    (Cat (Chr "/")
       (Cat (Group (Plus notSlashDash))
          (Cat (Star dot) (Cat (Chr "/") (Cat (StarLazy dot) Eol))))).

(** [/^[A-Za-z_][a-zA-Z0-9_]*$/] *)
Definition envKey : regex :=
  Cat (Class identStart) (Cat (Star identChar) Eol).

End Regex.

(** ** Dates

    [(new Date(t)).toISOString()] for a time value [t] in milliseconds:
    [None] is the RangeError of a time value beyond 8.64e15. *)

Module Date.

Definition maxTime : Z := 8640000000000000.

Definition pad (n : nat) (z : Z) : string :=
  let s := pretty z in
  string_of_list_ascii (replicate (n - String.length s) "0"%char) +:+ s.

(** Day number since 1970-01-01 to (year, month, day), proleptic Gregorian. *)
Definition civil (days : Z) : Z * Z * Z :=
  let z := days + 719468 in
  let era := z / 146097 in
  let doe := z - era * 146097 in
  let yoe := (doe - doe / 1460 + doe / 36524 - doe / 146096) / 365 in
  let doy := doe - (365 * yoe + yoe / 4 - yoe / 100) in
  let mp := (5 * doy + 2) / 153 in
  let d := doy - (153 * mp + 2) / 5 + 1 in
  let m := if mp <? 10 then mp + 3 else mp - 9 in
  (yoe + era * 400 + (if m <=? 2 then 1 else 0), m, d).

Definition year (y : Z) : string :=
  if (0 <=? y) && (y <=? 9999) then pad 4 y
  else (if y <? 0 then "-" else "+") +:+ pad 6 (Z.abs y).

Definition toISOString (t : Z) : option string :=
  if Z.abs t <=? maxTime then
    let day := t / 86400000 in
    let ms := t mod 86400000 in
    let '(y, m, d) := civil day in
    Some (year y +:+ "-" +:+ pad 2 m +:+ "-" +:+ pad 2 d +:+ "T"
          +:+ pad 2 (ms / 3600000) +:+ ":" +:+ pad 2 (ms / 60000 mod 60)
          +:+ ":" +:+ pad 2 (ms / 1000 mod 60) +:+ "."
          +:+ pad 3 (ms mod 1000) +:+ "Z")
  else None.

End Date.

(** ** Errors, replies of the SDK, observable events *)

Inductive error : Type :=
  | ServerlessError (msg : string)   (* new this.serverless.Error(msg) *)
  | PlainError (msg : string)        (* new Error(msg) *)
  | TypeError
  | RangeError
  | SyntaxError
  | Failure (reason : value).        (* raised by an injected collaborator *)

(** [listObjectsV2]: one page of a listing.  [Contents] (with [Key] of an
    entry), [IsTruncated] and [NextContinuationToken] are the fields of the
    reply of S3.  [Truncated] is the property the source reads to decide
    whether to go on: whether the reply has a property of that name with a
    true value.  A reply of S3 has none, so that [Truncated] is [false] on
    it whatever [IsTruncated] says; a stub of the provider may set it. *)
Record S3Entry : Type := { Key : value }.

Record ListPage : Type := {
  Contents : option (list S3Entry);
  IsTruncated : bool;
  Truncated : bool;
  NextContinuationToken : value }.

(** [getObject]. *)
Inductive body : Type :=
  | BodyBuffer (bytes : string)
  | BodyText (s : string).

Record GetObjectOutput : Type := {
  ContentType : option string;
  ContentLength : option Z;
  Body : option body;
  Metadata_filesha256 : option string }.

Inductive response : Type :=
  | RespUndefined
  | RespList (page : ListPage)
  | RespObject (o : GetObjectOutput)
  | RespRole (Arn : value).

(** [_.get(result, 'Contents', [])], [_.get(result, 'Truncated')],
    [result.NextContinuationToken]. *)
Definition contentsOf (r : response) : list S3Entry :=
  match r with
  | RespList p => default [] (Contents p)
  | _ => []
  end.

Definition truncatedOf (r : response) : bool :=
  match r with
  | RespList p => Truncated p
  | _ => false
  end.

Definition nextTokenOf (r : response) : value :=
  match r with
  | RespList p => NextContinuationToken p
  | _ => VUndef
  end.

(** The fields of a [getObject] reply; any other reply has none of them. *)
Definition objectOf (r : response) : GetObjectOutput :=
  match r with
  | RespObject o => o
  | _ => {| ContentType := None; ContentLength := None; Body := None;
            Metadata_filesha256 := None |}
  end.

(** [!body] and [body.toString('utf8')]. *)
Definition bodyPresent (b : option body) : bool :=
  match b with
  | None => false
  | Some (BodyBuffer _) => true
  | Some (BodyText s) => negb (String.eqb s "")
  end.

Definition bodyToString (b : body) : string :=
  match b with
  | BodyBuffer bytes => bytes
  | BodyText s => s
  end.

(** [data.Arn]: [None] is the TypeError of a read on [undefined]. *)
Definition arnOf (r : response) : option value :=
  match r with
  | RespUndefined => None
  | RespRole a => Some a
  | _ => Some VUndef
  end.

Inductive event : Type :=
  | Log (msg : string)
  | Request (service operation : string) (params : obj) (stage region : value)
  | GetAccountId.

(** How a call ends: a promise that is fulfilled or rejected, or an exception
    thrown before any promise is returned. *)
Inductive outcome (A : Type) : Type :=
  | Resolved (a : A)
  | Rejected (e : error)
  | Thrown (e : error).
Arguments Resolved {A} a.
Arguments Rejected {A} e.
Arguments Thrown {A} e.

(** ** The plugin object *)

Record Options : Type := {
  stage : value;
  region : value;
  function : value;
  functionObj : obj;
  force : value }.

Record Plugin : Type := {
  service : value;               (* this.serverless.service.service *)
  serviceObject : option obj;    (* this.serverless.service.serviceObject *)
  providerObj : obj;             (* this.serverless.service.provider *)
  resources : option obj;        (* this.serverless.service.resources.Resources,
                                    a plain object, if there is one *)
  packageArtifact : value;       (* this.serverless.service.package.artifact *)
  packagePath : string;
  options : Options;
  bucketName : value;
  directory : value;
  templateHash : value;
  template : value }.

Definition set_directory (d : value) (p : Plugin) : Plugin :=
  {| service := service p; serviceObject := serviceObject p;
     providerObj := providerObj p; resources := resources p;
     packageArtifact := packageArtifact p; packagePath := packagePath p;
     options := options p; bucketName := bucketName p;
     directory := d; templateHash := templateHash p; template := template p |}.

Definition set_providerObj (o : obj) (p : Plugin) : Plugin :=
  {| service := service p; serviceObject := serviceObject p;
     providerObj := o; resources := resources p;
     packageArtifact := packageArtifact p; packagePath := packagePath p;
     options := options p; bucketName := bucketName p;
     directory := directory p; templateHash := templateHash p;
     template := template p |}.

Definition set_templateHash (h : value) (p : Plugin) : Plugin :=
  {| service := service p; serviceObject := serviceObject p;
     providerObj := providerObj p; resources := resources p;
     packageArtifact := packageArtifact p; packagePath := packagePath p;
     options := options p; bucketName := bucketName p;
     directory := directory p; templateHash := h; template := template p |}.

Definition set_template (t : value) (p : Plugin) : Plugin :=
  {| service := service p; serviceObject := serviceObject p;
     providerObj := providerObj p; resources := resources p;
     packageArtifact := packageArtifact p; packagePath := packagePath p;
     options := options p; bucketName := bucketName p;
     directory := directory p; templateHash := templateHash p;
     template := t |}.

(** ** AwsDeployFunction *)

(** What the plugin is given by its host: the provider, the file system and
    the libraries it calls. *)
Class Host : Type := {
  (** the remote platform and the local file system *)
  World : Type;
  (** [this.provider.request(service, operation, params, stage, region)] *)
  provider_request :
    World → string → string → obj → value → value → (response + error) * World;
  (** [this.provider.getAccountId()] *)
  provider_getAccountId : World → (value + error) * World;
  (** [fs.readFileSync(path)] and [fs.statSync(path).size] *)
  fs_readFileSync : World → value → error + string;
  fs_statSync_size : World → value → error + Z;
  (** [_.toInteger] *)
  toInteger : value → Z;
  (** [JSON.parse]: [None] is its SyntaxError *)
  JSON_parse : string → option value;
  (** [crypto.createHash('sha256').update(data).digest('base64')] *)
  sha256_base64 : string → string;
  (** [filesize], [path.join], [this.provider.naming.getFunctionArtifactName],
      [this.serverless.service.getFunction] *)
  filesize : Z → string;
  path_join : string → string → string;
  getFunctionArtifactName : value → string;
  getFunction : value → error + value }.

Section AwsDeployFunction.

Context `{Host}.

(** *** Calls: the plugin, the world and the events so far *)

Record Sigma : Type := { this : Plugin; world : World; trace : list event }.

Definition M (A : Type) : Type := Sigma → outcome A * Sigma.

Definition ret {A} (a : A) : M A := λ σ, (Resolved a, σ).
Definition reject {A} (e : error) : M A := λ σ, (Rejected e, σ).
Definition throw {A} (e : error) : M A := λ σ, (Thrown e, σ).

(** [p.then(f)]: an exception thrown by [f] rejects the promise. *)
Definition then_ {A B} (p : M A) (f : A → M B) : M B := λ σ,
  match p σ with
  | (Resolved a, σ1) =>
      match f a σ1 with
      | (Thrown e, σ2) => (Rejected e, σ2)
      | r => r
      end
  | (Rejected e, σ1) => (Rejected e, σ1)
  | (Thrown e, σ1) => (Thrown e, σ1)
  end.

Definition emit (ev : event) (σ : Sigma) : Sigma :=
  {| this := this σ; world := world σ; trace := trace σ ++ [ev] |}.

Definition modify (f : Plugin → Plugin) (σ : Sigma) : Sigma :=
  {| this := f (this σ); world := world σ; trace := trace σ |}.

(** [this.serverless.cli.log(msg)] *)
Definition log (msg : string) : M unit := λ σ, (Resolved tt, emit (Log msg) σ).

Definition request (svc op : string) (params : obj) : M response := λ σ,
  let st := stage (options (this σ)) in
  let rg := region (options (this σ)) in
  let '(r, w) := provider_request (world σ) svc op params st rg in
  (match r with inl x => Resolved x | inr e => Rejected e end,
   {| this := this σ; world := w;
      trace := trace σ ++ [Request svc op params st rg] |}).

Definition getAccountId : M value := λ σ,
  let '(r, w) := provider_getAccountId (world σ) in
  (match r with inl x => Resolved x | inr e => Rejected e end,
   {| this := this σ; world := w; trace := trace σ ++ [GetAccountId] |}).

(** *** getLastDeploymentDirectory / setLastDeploymentDirectory *)

(** [`serverless/${service}/${this.options.stage}`] *)
Definition prefixOf (p : Plugin) : string :=
  "serverless/" +:+ toStr (service p) +:+ "/" +:+ toStr (stage (options p)).

Definition listParams (p : Plugin) (token : value) : obj :=
  <["Bucket" := bucketName p]>
    (<["Prefix" := VStr (prefixOf p)]> (<["ContinuationToken" := token]> ∅)).

(** The callback of [_.reduce]. *)
Definition newer (acc : Z) (item : S3Entry) : Z :=
  match Regex.exec Regex.deploymentKey (toStr (Key item)) with
  | None => acc
  | Some parsedTime =>
      let time := toInteger (from_option VStr VUndef parsedTime) in
      if time >? acc then time else acc
  end.

(** [searchLatest(current, token)].  The source recurses for as long as the
    store answers with truncated pages; [fuel] bounds the number of pages
    read and [None] says that it did not suffice. *)
Fixpoint searchLatest (fuel : nat) (current : Z) (token : value) (σ : Sigma)
    : option (outcome Z * Sigma) :=
  match fuel with
  | O => None
  | S fuel' =>
      match request "S3" "listObjectsV2" (listParams (this σ) token) σ with
      | (Resolved result, σ1) =>
          let content := contentsOf result in
          let latest := fold_left newer content current in
          if truncatedOf result
          then searchLatest fuel' latest (nextTokenOf result) σ1
          else Some (Resolved latest, σ1)
      | (Rejected e, σ1) => Some (Rejected e, σ1)
      | (Thrown e, σ1) => Some (Thrown e, σ1)
      end
  end.

(** [`serverless/${service}/${stage}/${time}-${(new Date(time)).toISOString()}`] *)
Definition deploymentDirectory (p : Plugin) (time : Z) : option string :=
  (λ iso, prefixOf p +:+ "/" +:+ pretty time +:+ "-" +:+ iso)
    <$> Date.toISOString time.

Definition noPriorDeployment : error :=
  ServerlessError "Could not find a previous service deployment".

(** The [.then(time => ...)] of both variants; [store] is what each does
    with the directory. *)
Definition located (store : value → Plugin → Plugin) (time : Z) : M unit :=
  λ σ,
  if Z.eqb time 0 then (Rejected noPriorDeployment, σ)
  else
    match deploymentDirectory (this σ) time with
    | None => (Rejected RangeError, σ)
    | Some d => (Resolved tt, modify (store (VStr d)) σ)
    end.

Definition locate (store : value → Plugin → Plugin) (fuel : nat) (σ : Sigma)
    : option (outcome unit * Sigma) :=
  match searchLatest fuel 0 VUndef (emit (Log "Determine last deployment ...") σ) with
  | None => None
  | Some (Resolved time, σ1) => Some (located store time σ1)
  | Some (Rejected e, σ1) => Some (Rejected e, σ1)
  | Some (Thrown e, σ1) => Some (Thrown e, σ1)
  end.

(** [this.directory = ...] *)
Definition getLastDeploymentDirectory := locate set_directory.

(** [_.set(this, 'serverless.service.provider.lastDeploymentDirectory', ...)] *)
Definition setLastDeploymentDirectory :=
  locate (λ d p, set_providerObj (<["lastDeploymentDirectory" := d]> (providerObj p)) p).

(** *** setServersideS3EncryptionOptions *)

Definition encryptionFields : list (string * string) :=
  [ ("serverSideEncryption", "ServerSideEncryption");
    ("sseCustomerAlgorithim", "SSECustomerAlgorithm");
    ("sseCustomerKey", "SSECustomerKey");
    ("sseCustomerKeyMD5", "SSECustomerKeyMD5");
    ("sseKMSKeyId", "SSEKMSKeyId") ].

Definition setServersideS3EncryptionOptions (p : Plugin) (params : obj) : obj :=
  let deploymentBucketObject := field (providerObj p) "deploymentBucketObject" in
  if truthy deploymentBucketObject then
    fold_left
      (λ clonedParams element,
         let v := field (ownProps deploymentBucketObject) element.1 in
         if truthy v then <[element.2 := v]> clonedParams else clonedParams)
      encryptionFields params
  else params.

(** *** downloadTemplateFromS3 *)

Definition integrityError : error :=
  ServerlessError "Could not retrieve CF template from S3".

(** The condition under which the reply is accepted: the negation of the
    source's three-way disjunction. *)
Definition accepted (o : GetObjectOutput) : bool :=
  negb (negb (bool_decide (ContentType o = Some "application/json"))
        || (default 0 (ContentLength o) <=? 0)
        || negb (bodyPresent (Body o))).

Definition checkResponse (r : response) : M string := λ σ,
  let o := objectOf r in
  if accepted o then
    (Resolved (bodyToString (default (BodyBuffer "{}") (Body o))),
     modify (set_templateHash (VStr (default "" (Metadata_filesha256 o)))) σ)
  else (Rejected integrityError, σ).

(** [BbPromise.try(() => JSON.parse(template))] *)
Definition parseTemplate (text : string) : M value :=
  match JSON_parse text with
  | Some t => ret t
  | None => reject SyntaxError
  end.

(** The parameters of the [getObject] request. *)
Definition templateParams (p : Plugin) (directory : value) : obj :=
  let compiledTemplateFileName := "compiled-cloudformation-template.json" in
  setServersideS3EncryptionOptions p
    (<["Bucket" := bucketName p]>
       (<["Key" := VStr (toStr directory +:+ "/" +:+ compiledTemplateFileName)]> ∅)).

Definition downloadTemplate (directory : value) : M value := λ σ,
  let σ0 := emit (Log "Downloading CloudFormation file from S3 ...") σ in
  then_ (then_ (then_ (request "S3" "getObject" (templateParams (this σ) directory))
                  checkResponse)
           parseTemplate)
    (λ t σ', (Resolved VNull, modify (set_template t) σ')) σ0.

(** The variant reading [this.directory], and the one reading
    [serverless.service.provider.lastDeploymentDirectory]. *)
Definition downloadTemplateFromS3 : M value := λ σ,
  downloadTemplate (directory (this σ)) σ.


(** *** normalizeArnRole *)

(** The synchronous part of the branch for a logical resource name: the
    lookup [this.serverless.service.resources.Resources[role]], the check of
    its type, and [`${roleProperties.Path || '/'}${roleProperties.RoleName}`].
    Without resources the lookup is a read on [undefined]; a name that is
    not among them reads as [undefined], or as a member of
    [Object.prototype], which has no [Type]. *)
Definition compiledFullRoleName (p : Plugin) (role : string) : error + string :=
  match resources p with
  | None => inl TypeError
  | Some declared =>
      match lookupChain declared role with
      | Missing => inl TypeError
      | Inherited => inl (PlainError "Provided resource is not IAM Role.")
      | Own roleResource =>
          match prop roleResource "Type" with
          | None => inl TypeError
          | Some ty =>
              if negb (strictEqStr ty "AWS::IAM::Role")
              then inl (PlainError "Provided resource is not IAM Role.")
              else
                match prop roleResource "Properties" with
                | None => inl TypeError
                | Some roleProperties =>
                    match prop roleProperties "Path", prop roleProperties "RoleName" with
                    | Some path, Some roleName =>
                        inr (toStr (or_ path (VStr "/")) +:+ toStr roleName)
                    | _, _ => inl TypeError
                    end
                end
          end
      end
  end.

Definition normalizeArnRole (role : value) : M value := λ σ,
  match role with
  | VStr s =>
      if lacks ":" s then
        match compiledFullRoleName (this σ) s with
        | inl e => (Thrown e, σ)
        | inr name =>
            then_ getAccountId
              (λ accountId,
                 ret (VStr ("arn:aws:iam::" +:+ toStr accountId +:+ ":role" +:+ name)))
              σ
        end
      else ret role σ
  | _ =>
      match prop role "Fn::GetAtt" ≫= (λ att, prop att "0") with
      | None => (Thrown TypeError, σ)
      | Some roleName =>
          then_ (request "IAM" "getRole" (<["RoleName" := roleName]> ∅))
            (λ data,
               match arnOf data with
               | Some arn => ret arn
               | None => throw TypeError
               end)
            σ
      end
  end.

(** *** callUpdateFunctionConfiguration *)

Definition callUpdateFunctionConfiguration (params : obj) : M unit :=
  then_ (request "Lambda" "updateFunctionConfiguration" params)
    (λ _ σ,
       log ("Successfully updated function: " +:+ toStr (function (options (this σ)))) σ).

(** *** updateFunctionConfiguration *)

(** ['k' in o && !_.isObject(o.k)], with the value read. *)
Definition concrete (o : obj) (k : string) : option value :=
  if has o k && negb (isObject (field o k)) then Some (field o k) else None.

Definition orElse {A} (a b : option A) : option A :=
  match a with Some _ => a | None => b end.

Definition setIf (k : string) (v : option value) (params : obj) : obj :=
  match v with Some x => <[k := x]> params | None => params end.

Definition invalidEnvironmentKey : error :=
  ServerlessError "Invalid characters in environment variable".

(** Lines 283-302: [inr None] leaves [params.Environment] unset. *)
Definition environmentOf (functionObj providerObj : obj) : error + option value :=
  if truthy (field functionObj "environment") || truthy (field providerObj "environment")
  then
    let variables :=
      assign2 (field providerObj "environment") (field functionObj "environment") in
    if some (VObj variables) isObject then inr None
    else if forallb (λ kv, Regex.test Regex.envKey kv.1) (map_to_list variables)
    then inr (Some (VObj (<["Variables" := VObj variables]> ∅)))
    else inl invalidEnvironmentKey
  else inr None.

(** Lines 304-319. *)
Definition plainArray (v : value) : bool := isArray v && negb (some v isObject).

Definition vpcConfigOf (functionObj providerObj : obj) : option value :=
  if truthy (field functionObj "vpc") || truthy (field providerObj "vpc") then
    let vpc := or_ (field functionObj "vpc") (field providerObj "vpc") in
    let securityGroupIds := field (ownProps vpc) "securityGroupIds" in
    let subnetIds := field (ownProps vpc) "subnetIds" in
    let c1 :=
      if plainArray securityGroupIds
      then <["SecurityGroupIds" := securityGroupIds]> (∅ : obj) else ∅ in
    let c2 := if plainArray subnetIds then <["SubnetIds" := subnetIds]> c1 else c1 in
    if isEmpty c2 then None else Some (VObj c2)
  else None.

(** Lines 251-319: the patch before the role is looked at, or the error
    thrown while it is assembled. *)
Definition buildParams (functionObj : obj) (serviceObj : option obj)
    (providerObj : obj) : error + obj :=
  let params := <["FunctionName" := field functionObj "name"]> (∅ : obj) in
  let params :=
    setIf "KMSKeyArn"
      (orElse (concrete functionObj "awsKmsKeyArn")
              (serviceObj ≫= λ s, concrete s "awsKmsKeyArn")) params in
  let params := setIf "Description" (concrete functionObj "description") params in
  let params :=
    setIf "MemorySize"
      (orElse (concrete functionObj "memorySize") (concrete providerObj "memorySize"))
      params in
  let params :=
    setIf "Timeout"
      (orElse (concrete functionObj "timeout") (concrete providerObj "timeout"))
      params in
  let params :=
    if truthy (field functionObj "onError") && negb (isObject (field functionObj "onError"))
    then <["DeadLetterConfig" := VObj (<["TargetArn" := field functionObj "onError"]> ∅)]> params
    else params in
  match environmentOf functionObj providerObj with
  | inl e => inl e
  | inr env =>
      let params := setIf "Environment" env params in
      inr (setIf "VpcConfig" (vpcConfigOf functionObj providerObj) params)
  end.

(** The role the patch is completed with, if any (lines 321 and 327). *)
Definition roleOf (functionObj providerObj : obj) : option value :=
  orElse (concrete functionObj "role") (concrete providerObj "role").

Definition updateFunctionConfiguration : M unit := λ σ,
  let functionObj := functionObj (options (this σ)) in
  let serviceObj := serviceObject (this σ) in
  let providerObj := providerObj (this σ) in
  match buildParams functionObj serviceObj providerObj with
  | inl e => (Thrown e, σ)
  | inr params =>
      match roleOf functionObj providerObj with
      | Some role =>
          then_ (normalizeArnRole role)
            (λ roleArn, callUpdateFunctionConfiguration (<["Role" := roleArn]> params)) σ
      | None =>
          if isEmpty (omit params "FunctionName") then ret tt σ
          else callUpdateFunctionConfiguration params σ
      end
  end.

(** *** deployFunction *)

(** [_.has(functionObject, ['package', 'artifact'])] with the value read. *)
Definition functionArtifact (functionObject : value) : option value :=
  ownProps functionObject !! "package" ≫= λ pkg, ownProps pkg !! "artifact".

Definition remoteCodeSha256 (p : Plugin) : option value :=
  prop (field (providerObj p) "remoteFunctionData") "Configuration"
    ≫= λ c, prop c "CodeSha256".

(** Lines 343-352: the path of the artifact. *)
Definition artifactFilePath (p : Plugin) (functionObject : value) : value :=
  let artifactFileName := getFunctionArtifactName (function (options p)) in
  default
    (or_ (packageArtifact p) (VStr (path_join (packagePath p) artifactFileName)))
    (functionArtifact functionObject).

Definition codeParams (p : Plugin) (data : string) : obj :=
  <["FunctionName" := field (functionObj (options p)) "name"]>
    (<["ZipFile" := VBuf data]> ∅).

Definition deployFunction : M unit := λ σ,
  let p := this σ in
  match getFunction (function (options p)) with
  | inl e => (Thrown e, σ)
  | inr functionObject =>
      let artifactFilePath := artifactFilePath p functionObject in
      match fs_readFileSync (world σ) artifactFilePath with
      | inl e => (Thrown e, σ)
      | inr data =>
          match remoteCodeSha256 p with
          | None => (Thrown TypeError, σ)
          | Some remoteHash =>
              let localHash := sha256_base64 data in
              if strictEqStr remoteHash localHash && negb (truthy (force (options p)))
              then log "Code not changed. Skipping function deployment." σ
              else
                let params := codeParams p data in
                match fs_statSync_size (world σ) artifactFilePath with
                | inl e => (Thrown e, σ)
                | inr size =>
                    then_ (request "Lambda" "updateFunctionCode" params)
                      (λ _,
                         log ("Successfully deployed function: "
                              +:+ toStr (function (options p))))
                      (emit (Log ("Uploading function: " +:+ toStr (function (options p))
                                  +:+ " (" +:+ filesize size +:+ ")...")) σ)
                end
          end
      end
  end.

(** *** Vocabulary of the properties *)

(** The events a call adds to the trace. *)
Definition eventsOf {A} (m : M A) (σ : Sigma) : list event :=
  drop (length (trace σ)) (trace (m σ).2).

(** The timestamp read off one entry, if its key has the shape looked for. *)
Definition entryTime (item : S3Entry) : option Z :=
  (λ parsedTime, toInteger (from_option VStr VUndef parsedTime))
    <$> Regex.exec Regex.deploymentKey (toStr (Key item)).

Definition pageTimes (page : ListPage) : list Z :=
  omap entryTime (default [] (Contents page)).

(** All timestamps of all pages, and their maximum (0 when there is none). *)
Definition timestamps (pages : list ListPage) : list Z :=
  concat (pageTimes <$> pages).

Definition latestOf (pages : list ListPage) : Z :=
  fold_left Z.max (timestamps pages) 0.

(** The store answers the listing that starts at [token] with [pages], each
    but the last truncated and naming the token of the next. *)
Inductive serves (p : Plugin) : World → value → list ListPage → World → Prop :=
  | serves_last w token page w' :
      provider_request w "S3" "listObjectsV2" (listParams p token)
        (stage (options p)) (region (options p)) = (inl (RespList page), w') →
      Truncated page = false →
      serves p w token [page] w'
  | serves_next w token page w' pages w'' :
      provider_request w "S3" "listObjectsV2" (listParams p token)
        (stage (options p)) (region (options p)) = (inl (RespList page), w') →
      Truncated page = true →
      serves p w' (NextContinuationToken page) pages w'' →
      serves p w token (page :: pages) w''.

(** The requests of a listing: one per page, each carrying the token the page
    before it named. *)
Fixpoint listRequests (p : Plugin) (token : value) (pages : list ListPage)
    : list event :=
  match pages with
  | [] => []
  | page :: pages' =>
      Request "S3" "listObjectsV2" (listParams p token)
        (stage (options p)) (region (options p))
      :: listRequests p (NextContinuationToken page) pages'
  end.

(** An update of the configuration was sent. *)
Definition isConfigurationUpdate (ev : event) : bool :=
  match ev with
  | Request svc op _ _ _ =>
      String.eqb svc "Lambda" && String.eqb op "updateFunctionConfiguration"
  | _ => false
  end.

(** The code was uploaded. *)
Definition isCodeUpload (ev : event) : bool :=
  match ev with
  | Request svc op _ _ _ =>
      String.eqb svc "Lambda" && String.eqb op "updateFunctionCode"
  | _ => false
  end.

(** [σ'] extends the trace of [σ] by events that all satisfy [P]. *)
Definition grows (P : event → Prop) (σ σ' : Sigma) : Prop :=
  ∃ new, trace σ' = trace σ ++ new ∧ Forall P new.

(** [m] does not read what [g] changes in the plugin. *)
Definition ignores {A} (g : Plugin → Plugin) (m : M A) : Prop :=
  ∀ σ, m (modify g σ) = ((m σ).1, modify g (m σ).2).

(** The events an update of the configuration may add: requests other than
    updates, and updates whose patch holds more than the name. *)
Definition carriesPatch (ev : event) : Prop :=
  isConfigurationUpdate ev = true →
  ∃ params st rg,
    ev = Request "Lambda" "updateFunctionConfiguration" params st rg
    ∧ isEmpty (omit params "FunctionName") = false.

(** The log line of a skipped upload. *)
Definition skipped : event := Log "Code not changed. Skipping function deployment.".

(** The desired configuration, rendered under the names of the remote
    descriptor, agrees with the descriptor [remote] wherever it says
    anything: the reading of "the desired configuration matches the current
    remote descriptor on every field". *)
Definition matchesRemote (functionObj : obj) (serviceObj : option obj)
    (providerObj remote : obj) : Prop :=
  ∃ params, buildParams functionObj serviceObj providerObj = inr params
            ∧ ∀ k v, params !! k = Some v → remote !! k = Some v.

(** The descriptor of the deployed function, as the plugin keeps it:
    [this.serverless.service.provider.remoteFunctionData.Configuration]. *)
Definition withRemote (remote : obj) (p : Plugin) : Plugin :=
  set_providerObj
    (<["remoteFunctionData" := VObj (<["Configuration" := VObj remote]> ∅)]>
       (providerObj p)) p.

(** A name of an environment variable: a letter or an underscore, then
    letters, digits and underscores. *)
Definition isIdentifier (k : string) : bool :=
  match k with
  | EmptyString => false
  | String c rest =>
      Regex.identStart c && forallb Regex.identChar (list_ascii_of_string rest)
  end.

(** *** The hook [aws:deploy:function:downloadTemplate] *)

(** [BbPromise.bind(this).then(this.getLastDeploymentDirectory)
    .then(this.downloadTemplateFromS3)]: both steps run as callbacks of
    [then], so an exception of either rejects the chain. *)
Definition downloadTemplateHook (fuel : nat) (σ : Sigma)
    : option (outcome value * Sigma) :=
  match getLastDeploymentDirectory fuel σ with
  | None => None
  | Some (Resolved _, σ1) =>
      Some (match downloadTemplateFromS3 σ1 with
            | (Thrown e, σ2) => (Rejected e, σ2)
            | r => r
            end)
  | Some (Rejected e, σ1) => Some (Rejected e, σ1)
  | Some (Thrown e, σ1) => Some (Rejected e, σ1)
  end.

(** *** More vocabulary *)

(** The store answers the listing that starts at [token] with [pages], all
    truncated, and rejects the request after them with [e]. *)
Inductive breaks (p : Plugin) : World → value → list ListPage → error → World → Prop :=
  | breaks_here w token e w' :
      provider_request w "S3" "listObjectsV2" (listParams p token)
        (stage (options p)) (region (options p)) = (inr e, w') →
      breaks p w token [] e w'
  | breaks_later w token page w' pages e w'' :
      provider_request w "S3" "listObjectsV2" (listParams p token)
        (stage (options p)) (region (options p)) = (inl (RespList page), w') →
      Truncated page = true →
      breaks p w' (NextContinuationToken page) pages e w'' →
      breaks p w token (page :: pages) e w''.

(** The token named by the last of [pages], [token] if there is none. *)
Definition tokenAfter (token : value) (pages : list ListPage) : value :=
  fold_left (λ _ page, NextContinuationToken page) pages token.

(** A request of a listing. *)
Definition isListing (ev : event) : Prop :=
  ∃ params st rg, ev = Request "S3" "listObjectsV2" params st rg.

(** The names a patch may hold. *)
Definition patchNames : list string :=
  [ "FunctionName"; "KMSKeyArn"; "Description"; "MemorySize"; "Timeout";
    "DeadLetterConfig"; "Environment"; "VpcConfig" ].

(** Lines 277-281: the dead-letter configuration, if one is set. *)
Definition deadLetterOf (functionObj : obj) : option value :=
  if truthy (field functionObj "onError") && negb (isObject (field functionObj "onError"))
  then Some (VObj (<["TargetArn" := field functionObj "onError"]> ∅))
  else None.

(** The rules of lines 255-319, each with the name it writes in the patch
    and with what it writes there: [None] when it leaves the patch alone. *)
Definition patchRules (functionObj : obj) (serviceObj : option obj)
    (providerObj : obj) : list (string * option value) :=
  [ ("KMSKeyArn",
     orElse (concrete functionObj "awsKmsKeyArn")
            (serviceObj ≫= λ s, concrete s "awsKmsKeyArn"));
    ("Description", concrete functionObj "description");
    ("MemorySize",
     orElse (concrete functionObj "memorySize") (concrete providerObj "memorySize"));
    ("Timeout",
     orElse (concrete functionObj "timeout") (concrete providerObj "timeout"));
    ("DeadLetterConfig", deadLetterOf functionObj);
    ("Environment",
     match environmentOf functionObj providerObj with
     | inr env => env
     | inl _ => None
     end);
    ("VpcConfig", vpcConfigOf functionObj providerObj) ].

(** The service declares under the name [role] a resource of type
    AWS::IAM::Role that has the properties [properties]. *)
Definition declaresRole (p : Plugin) (role : string) (properties : value) : Prop :=
  ∃ declared resource,
    resources p = Some declared
    ∧ declared !! role = Some resource
    ∧ prop resource "Type" = Some (VStr "AWS::IAM::Role")
    ∧ prop resource "Properties" = Some properties
    ∧ properties ≠ VUndef ∧ properties ≠ VNull.



End AwsDeployFunction.

(** ** YamlParser *)

Module Path.

(** [s.split(sep)] for a one-character separator, [a.pop()] and
    [a.join('/')]. *)
Fixpoint splitFrom (sep : ascii) (cur : list ascii) (s : list ascii)
    : list (list ascii) :=
  match s with
  | [] => [rev cur]
  | c :: s' =>
      if Ascii.eqb c sep then rev cur :: splitFrom sep [] s'
      else splitFrom sep (c :: cur) s'
  end.

Definition split (sep : ascii) (s : string) : list string :=
  string_of_list_ascii <$> splitFrom sep [] (list_ascii_of_string s).

Definition pop {A} (l : list A) : list A := removelast l.

Fixpoint join (sep : string) (l : list string) : string :=
  match l with
  | [] => ""
  | [x] => x
  | x :: l' => x +:+ sep +:+ join sep l'
  end.

End Path.

(** What the loader is given: the process it runs in and json-refs. *)
Class Loader : Type := {
  (** the state of the process: its working directory, the files it sees *)
  Process : Type;
  (** [path.sep] *)
  path_sep : ascii;
  (** [process.chdir(dir)] *)
  process_chdir : string → Process → error + Process;
  (** [this.serverless.utils.readFileSync(path)] *)
  utils_readFileSync : Process → string → error + value;
  (** [resolveRefs(root, options).then(res => res.resolved)] of json-refs,
      with the options of the source: relative and remote references only,
      their content read by [YAML.load].  No base location is among the
      options; json-refs resolves relative references against the working
      directory of the process. *)
  resolveRefs : Process → value → error + value }.

Section YamlParser.

Context `{Loader}.

(** [yamlFilePath.split(path.sep)], [pop()], [join('/')]. *)
Definition parentDir (yamlFilePath : string) : string :=
  Path.join "/" (Path.pop (Path.split path_sep yamlFilePath)).

Definition parse (yamlFilePath : string) (pr : Process) : outcome value * Process :=
  match process_chdir (parentDir yamlFilePath) pr with
  | inl e => (Thrown e, pr)
  | inr pr' =>
      match utils_readFileSync pr' yamlFilePath with
      | inl e => (Thrown e, pr')
      | inr root =>
          (match resolveRefs pr' root with
           | inr resolved => Resolved resolved
           | inl e => Rejected e
           end, pr')
      end
  end.

End YamlParser.

(** ** Vocabulary of strings *)

(** Every character of [s] satisfies [p]; the number of ['/'] in [s]. *)
Definition every (p : ascii → bool) (s : string) : bool :=
  forallb p (list_ascii_of_string s).

Definition slashes (s : string) : nat :=
  length (List.filter (Ascii.eqb "/") (list_ascii_of_string s)).

(** [[^/\n\r]]: what may stand inside one segment of a key on one line. *)
Definition inSegment (c : ascii) : bool :=
  Regex.dot c && negb (Ascii.eqb c "/"%char).

(** [s] with every [sep] replaced by ['/']. *)
Definition withSlashes (sep : ascii) (s : string) : string :=
  string_of_list_ascii
    ((λ c, if Ascii.eqb c sep then "/"%char else c) <$> list_ascii_of_string s).

(** ** A concrete platform

    One instance of every collaborator, on which the definitions above run:
    two buckets with their listings, one stored template, one artifact. *)

Module Scenario.

Definition digit (c : ascii) : option Z :=
  let n := nat_of_ascii c in
  if (48 <=? n)%nat && (n <=? 57)%nat then Some (Z.of_nat n - 48) else None.

Fixpoint decimal (acc : Z) (s : list ascii) : option Z :=
  match s with
  | [] => Some acc
  | c :: s' =>
      match digit c with
      | Some d => decimal (10 * acc + d) s'
      | None => None
      end
  end.

(** [_.toInteger] on the arguments of the examples: a number is itself, a
    string of decimal digits is its value, text that is no numeral is 0. *)
Definition decimalToInteger (v : value) : Z :=
  match v with
  | VNum z => z
  | VStr s => default 0 (decimal 0 (list_ascii_of_string s))
  | _ => 0
  end.

(** [JSON.parse] on texts without escape sequences, fractions and exponents. *)
Definition isSpace (c : ascii) : bool :=
  Ascii.eqb c " "%char || Ascii.eqb c "010"%char || Ascii.eqb c "013"%char
  || Ascii.eqb c "009"%char.

Fixpoint skip (s : list ascii) : list ascii :=
  match s with
  | c :: s' => if isSpace c then skip s' else s
  | [] => []
  end.

Fixpoint quoted (acc : list ascii) (s : list ascii) : option (string * list ascii) :=
  match s with
  | [] => None
  | c :: s' =>
      if Ascii.eqb c "034"%char then Some (string_of_list_ascii (rev acc), s')
      else if Ascii.eqb c "\"%char then None
      else quoted (c :: acc) s'
  end.

Fixpoint digits (acc : Z) (s : list ascii) : Z * list ascii :=
  match s with
  | c :: s' =>
      match digit c with
      | Some d => digits (10 * acc + d) s'
      | None => (acc, s)
      end
  | [] => (acc, [])
  end.

Definition literal (w : string) (v : value) (s : list ascii)
    : option (value * list ascii) :=
  let l := list_ascii_of_string w in
  if String.eqb (string_of_list_ascii (take (length l) s)) w
  then Some (v, drop (length l) s) else None.

Section Json.
Variable element : list ascii → option (value * list ascii).

Fixpoint members (fuel : nat) (acc : obj) (s : list ascii)
    : option (value * list ascii) :=
  match fuel, skip s with
  | S fuel', c :: r =>
      if Ascii.eqb c "034"%char then
        match quoted [] r with
        | Some (k, r1) =>
            match skip r1 with
            | c1 :: r2 =>
                if Ascii.eqb c1 ":"%char then
                  match element r2 with
                  | Some (v, r3) =>
                      match skip r3 with
                      | c2 :: r4 =>
                          if Ascii.eqb c2 ","%char then members fuel' (<[k := v]> acc) r4
                          else if Ascii.eqb c2 "}"%char then Some (VObj (<[k := v]> acc), r4)
                          else None
                      | [] => None
                      end
                  | None => None
                  end
                else None
            | [] => None
            end
        | None => None
        end
      else None
  | _, _ => None
  end.

Fixpoint elements (fuel : nat) (acc : list value) (s : list ascii)
    : option (value * list ascii) :=
  match fuel with
  | S fuel' =>
      match element s with
      | Some (v, r) =>
          match skip r with
          | c :: r1 =>
              if Ascii.eqb c ","%char then elements fuel' (v :: acc) r1
              else if Ascii.eqb c "]"%char then Some (VArr (rev (v :: acc)), r1)
              else None
          | [] => None
          end
      | None => None
      end
  | O => None
  end.
End Json.

Fixpoint element (fuel : nat) (s : list ascii) : option (value * list ascii) :=
  match fuel, skip s with
  | S fuel', c :: r =>
      if Ascii.eqb c "{"%char then
        match skip r with
        | c1 :: r1 =>
            if Ascii.eqb c1 "}"%char then Some (VObj ∅, r1)
            else members (element fuel') fuel' ∅ r
        | [] => None
        end
      else if Ascii.eqb c "["%char then
        match skip r with
        | c1 :: r1 =>
            if Ascii.eqb c1 "]"%char then Some (VArr [], r1)
            else elements (element fuel') fuel' [] r
        | [] => None
        end
      else if Ascii.eqb c "034"%char then
        (λ q, (VStr q.1, q.2)) <$> quoted [] r
      else if Ascii.eqb c "-"%char then
        match r with
        | d :: _ =>
            if bool_decide (is_Some (digit d))
            then let '(n, r1) := digits 0 r in Some (VNum (- n), r1)
            else None
        | [] => None
        end
      else if bool_decide (is_Some (digit c)) then
        let '(n, r1) := digits 0 (c :: r) in Some (VNum n, r1)
      else if Ascii.eqb c "t"%char then literal "true" (VBool true) (c :: r)
      else if Ascii.eqb c "f"%char then literal "false" (VBool false) (c :: r)
      else if Ascii.eqb c "n"%char then literal "null" VNull (c :: r)
      else None
  | _, _ => None
  end.

Definition parseJson (text : string) : option value :=
  let s := list_ascii_of_string text in
  match element (S (length s)) s with
  | Some (v, r) => match skip r with [] => Some v | _ => None end
  | None => None
  end.

(** The listing of bucket "deploys": three pages, the newest deployment on
    the second, one timestamp on two pages, one key of another shape. *)
Definition entry (k : string) : S3Entry := {| Key := VStr k |}.

Definition page1 : ListPage :=
  {| Contents := Some
       [ entry "serverless/svc/dev/1500000000000-2017-07-14T02:40:00.000Z/compiled-cloudformation-template.json";
         entry "serverless/svc/dev/1400000000000-2014-05-13T16:53:20.000Z/svc.zip" ];
     IsTruncated := true;
     Truncated := true;
     NextContinuationToken := VStr "t1" |}.

Definition page2 : ListPage :=
  {| Contents := Some
       [ entry "serverless/svc/dev/1600000000000-2020-09-13T12:26:40.000Z/svc.zip";
         entry "serverless/svc/dev/1500000000000-2017-07-14T02:40:00.000Z/svc.zip";
         entry "serverless/readme" ];
     IsTruncated := true;
     Truncated := true;
     NextContinuationToken := VStr "t2" |}.

Definition page3 : ListPage :=
  {| Contents := Some
       [ entry "serverless/svc/dev/1450000000000-2015-12-13T09:46:40.000Z/svc.zip" ];
     IsTruncated := false;
     Truncated := false;
     NextContinuationToken := VUndef |}.

(** The listing of bucket "blank": entries of the shape looked for, none of
    whose leading segment is a number other than 0. *)
Definition blankPage : ListPage :=
  {| Contents := Some
       [ entry "serverless/svc/dev/latest-build/svc.zip";
         entry "serverless/svc/dev/0-1970-01-01T00:00:00.000Z/svc.zip" ];
     IsTruncated := false;
     Truncated := false;
     NextContinuationToken := VUndef |}.

(** The listing of bucket "empty". *)
Definition emptyPage : ListPage :=
  {| Contents := None; IsTruncated := false; Truncated := false;
     NextContinuationToken := VUndef |}.

Definition storedTemplate : GetObjectOutput :=
  {| ContentType := Some "application/json";
     ContentLength := Some 2;
     Body := Some (BodyText "{}");
     Metadata_filesha256 := Some "3q2+7w==" |}.

Definition answer (svc op : string) (params : obj) : response + error :=
  if String.eqb svc "S3" && String.eqb op "listObjectsV2" then
    let bucket := field params "Bucket" in
    let token := field params "ContinuationToken" in
    if strictEqStr bucket "deploys" then
      match token with
      | VUndef => inl (RespList page1)
      | VStr "t1" => inl (RespList page2)
      | VStr "t2" => inl (RespList page3)
      | _ => inr (Failure (VStr "InvalidArgument"))
      end
    else if strictEqStr bucket "blank" then inl (RespList blankPage)
    else if strictEqStr bucket "empty" then inl (RespList emptyPage)
    else inr (Failure (VStr "NoSuchBucket"))
  else if String.eqb svc "S3" && String.eqb op "getObject" then
    inl (RespObject storedTemplate)
  else if String.eqb svc "IAM" && String.eqb op "getRole" then
    inl (RespRole (VStr "arn:aws:iam::123456789012:role/looked-up"))
  else inl RespUndefined.

Definition artifact : string := "PK-hello-1".

(** The world counts the calls it has answered.  The digest is a stand-in:
    the properties ask no more of it than to be a function of the bytes. *)
#[export] Instance host : Host :=
  {| World := nat;
     provider_request := λ w svc op params _ _, (answer svc op params, S w);
     provider_getAccountId := λ w, (inl (VStr "123456789012"), S w);
     fs_readFileSync := λ _ path,
       if strictEqStr path ".serverless/hello.zip" then inr artifact
       else inl (Failure (VStr "ENOENT"));
     fs_statSync_size := λ _ path,
       if strictEqStr path ".serverless/hello.zip"
       then inr (Z.of_nat (String.length artifact))
       else inl (Failure (VStr "ENOENT"));
     toInteger := decimalToInteger;
     JSON_parse := parseJson;
     sha256_base64 := λ data, "sha256(" +:+ data +:+ ")";
     filesize := λ n, pretty n +:+ " B";
     path_join := λ a b, a +:+ "/" +:+ b;
     getFunctionArtifactName := λ f, toStr f +:+ ".zip";
     getFunction := λ f,
       if strictEqStr f "hello" then inr (VObj (<["handler" := VStr "handler.hello"]> ∅))
       else inl (ServerlessError "Function does not exist in this service") |}.

(** The resources of the service: a role and a bucket. *)
Definition serviceResources : obj :=
  <["DeployRole" :=
      VObj (<["Type" := VStr "AWS::IAM::Role"]>
              (<["Properties" := VObj (<["RoleName" := VStr "deployer"]> ∅)]> ∅))]>
    (<["Uploads" := VObj (<["Type" := VStr "AWS::S3::Bucket"]> ∅)]> ∅).

(** The plugin for function "hello" of service "svc", stage "dev". *)
Definition plugin (bucket : string) (functionObj providerObj : obj) (force : value)
    : Plugin :=
  {| service := VStr "svc";
     serviceObject := None;
     providerObj := providerObj;
     resources := Some serviceResources;
     packageArtifact := VUndef;
     packagePath := ".serverless";
     options := {| stage := VStr "dev"; region := VStr "us-east-1";
                   function := VStr "hello"; functionObj := functionObj;
                   force := force |};
     bucketName := VStr bucket;
     directory := VUndef;
     templateHash := VUndef;
     template := VUndef |}.

Definition start (p : Plugin) : Sigma := {| this := p; world := 0%nat; trace := [] |}.

Definition named : obj := <["name" := VStr "svc-dev-hello"]> ∅.

Definition deploys : Sigma := start (plugin "deploys" named ∅ VUndef).
Definition blank : Sigma := start (plugin "blank" named ∅ VUndef).
Definition empty : Sigma := start (plugin "empty" named ∅ VUndef).

(** The function with a memory size of its own, and the descriptor of the
    deployed function: same name, same memory size, the digest of the
    artifact on disk. *)
Definition sized : obj := <["memorySize" := VNum 512]> named.

Definition remoteSized : obj :=
  <["FunctionName" := VStr "svc-dev-hello"]>
    (<["MemorySize" := VNum 512]>
       (<["CodeSha256" := VStr "sha256(PK-hello-1)"]> ∅)).

Definition sizedPatch : obj :=
  <["FunctionName" := VStr "svc-dev-hello"]> (<["MemorySize" := VNum 512]> ∅).

Definition deployed (functionObj : obj) (force : value) : Sigma :=
  start (withRemote remoteSized (plugin "deploys" functionObj ∅ force)).



(** A function in a VPC with security groups and no subnets. *)
Definition grouped : obj :=
  <["vpc" := VObj (<["securityGroupIds" := VArr [VStr "sg-1"]]> ∅)]> named.

(** A process whose state is its working directory, with one document. *)
#[export] Instance loader : Loader :=
  {| Process := string;
     path_sep := "/"%char;
     process_chdir := λ dir _, inr dir;
     utils_readFileSync := λ _ path,
       if String.eqb path "/srv/app/serverless.yml"
       then inr (VObj (<["service" := VStr "svc"]> ∅))
       else inl (Failure (VStr "ENOENT"));
     resolveRefs := λ _ root, inr root |}.

(** A platform like [host] whose provider answers with [reply]. *)
Definition hostAnswering (reply : string → string → obj → response + error) : Host :=
  {| World := nat;
     provider_request := λ w svc op params _ _, (reply svc op params, S w);
     provider_getAccountId := @provider_getAccountId host;
     fs_readFileSync := @fs_readFileSync host;
     fs_statSync_size := @fs_statSync_size host;
     toInteger := decimalToInteger;
     JSON_parse := parseJson;
     sha256_base64 := @sha256_base64 host;
     filesize := @filesize host;
     path_join := @path_join host;
     getFunctionArtifactName := @getFunctionArtifactName host;
     getFunction := @getFunction host |}.

(** A page as S3 sends it: flagged by [IsTruncated], without [Truncated]. *)
Definition asS3 (page : ListPage) : ListPage :=
  {| Contents := Contents page;
     IsTruncated := IsTruncated page;
     Truncated := false;
     NextContinuationToken := NextContinuationToken page |}.

(** The buckets of [answer], listed as S3 lists them. *)
Definition s3 : Host :=
  hostAnswering
    (λ svc op params,
       match answer svc op params with
       | inl (RespList page) => inl (RespList (asS3 page))
       | r => r
       end).

Definition onS3 : @Sigma s3 :=
  @Build_Sigma s3 (plugin "deploys" named ∅ VUndef) 0%nat [].

(** A store whose only deployment is later than any date. *)
Definition farPage : ListPage :=
  {| Contents := Some [ entry "serverless/svc/dev/9000000000000000-beyond/svc.zip" ];
     IsTruncated := false;
     Truncated := false;
     NextContinuationToken := VUndef |}.

Definition far : Host := hostAnswering (λ _ _ _, inl (RespList farPage)).

Definition farStart : @Sigma far :=
  @Build_Sigma far (plugin "deploys" named ∅ VUndef) 0%nat [].

(** A store that answers the first request of a listing with a truncated
    page and rejects the one that follows. *)
Definition flaky : Host :=
  hostAnswering
    (λ _ _ params,
       match field params "ContinuationToken" with
       | VUndef => inl (RespList page1)
       | _ => inr (Failure (VStr "SlowDown"))
       end).

Definition flakyStart : @Sigma flaky :=
  @Build_Sigma flaky (plugin "deploys" named ∅ VUndef) 0%nat [].

(** A store that refuses every request. *)
Definition denying : Host :=
  hostAnswering (λ _ _ _, inr (Failure (VStr "AccessDenied"))).

Definition deniedStart : @Sigma denying :=
  @Build_Sigma denying (plugin "deploys" named ∅ VUndef) 0%nat [].

(** The function with the role of the service, by the name of its resource. *)
Definition withRole : obj := <["role" := VStr "DeployRole"]> named.

Definition roled : Sigma := start (plugin "deploys" withRole ∅ VUndef).

(** The function with a memory size, before it is deployed. *)
Definition resized : Sigma := start (plugin "deploys" sized ∅ VUndef).

(** A function whose role is a number. *)
Definition numbered : Sigma :=
  start (plugin "deploys" (<["role" := VNum 5]> named) ∅ VUndef).

(** An environment with a variable named [length] and a placeholder. *)
Definition lengthy : obj :=
  <["length" := VNum 1]> (<["TABLE" := VObj (<["Ref" := VStr "Table"]> ∅)]> ∅).

(** A function with an environment that is set and empty. *)
Definition bare : obj := <["environment" := VObj ∅]> named.

(** A process that refuses the empty path. *)
Definition strict : Loader :=
  {| Process := string;
     path_sep := "/"%char;
     process_chdir := λ dir _,
       if String.eqb dir "" then inl (Failure (VStr "ENOENT")) else inr dir;
     utils_readFileSync := @utils_readFileSync loader;
     resolveRefs := @resolveRefs loader |}.

End Scenario.

(** * Properties *)

(** ** The matcher and the dates on sample inputs *)


Example exec_deploymentKey :
  Regex.exec Regex.deploymentKey
    "serverless/svc/dev/1500000000000-2017-07-14T02:40:00.000Z/compiled.json"
  = Some (Some "1500000000000").
Proof. reflexivity. Qed.

Example exec_deploymentKey_inner :
  Regex.exec Regex.deploymentKey "serverless/svc/dev/15-a/sub/file.zip"
  = Some (Some "sub").
Proof. reflexivity. Qed.

Example exec_deploymentKey_none :
  Regex.exec Regex.deploymentKey "serverless/file.zip" = None.
Proof. reflexivity. Qed.

Example test_envKey :
  Regex.test Regex.envKey "A_1" = true ∧ Regex.test Regex.envKey "1BAD" = false
  ∧ Regex.test Regex.envKey "" = false ∧ Regex.test Regex.envKey "a-b" = false.
Proof. repeat split. Qed.

Example toISOString_epoch :
  Date.toISOString 0 = Some "1970-01-01T00:00:00.000Z".
Proof. reflexivity. Qed.

Example toISOString_2017 :
  Date.toISOString 1500000000000 = Some "2017-07-14T02:40:00.000Z".
Proof. reflexivity. Qed.

Example toISOString_leap :
  Date.toISOString 951782400123 = Some "2000-02-29T00:00:00.123Z".
Proof. reflexivity. Qed.

Example toISOString_before_epoch :
  Date.toISOString (-1) = Some "1969-12-31T23:59:59.999Z".
Proof. reflexivity. Qed.

Example toISOString_last :
  Date.toISOString 8640000000000000 = Some "+275760-09-13T00:00:00.000Z"
  ∧ Date.toISOString 8640000000000001 = None.
Proof. split; reflexivity. Qed.

Example parseJson_samples :
  Scenario.parseJson "{}" = Some (VObj ∅)
  ∧ Scenario.parseJson "[1, -2, true, null]"
    = Some (VArr [VNum 1; VNum (-2); VBool true; VNull])
  ∧ Scenario.parseJson "{} x" = None.
Proof. repeat split; reflexivity. Qed.

Example parentDir_samples :
  @parentDir Scenario.loader "/srv/app/serverless.yml" = "/srv/app"
  ∧ @parentDir Scenario.loader "serverless.yml" = "".
Proof. split; reflexivity. Qed.

(** ** The locator *)

Section Locator.

Context `{Host}.

Lemma newer_max (acc : Z) (item : S3Entry) :
  newer acc item = from_option (Z.max acc) acc (entryTime item).
Proof.
  unfold newer, entryTime.
  destruct (Regex.exec Regex.deploymentKey (toStr (Key item))) as [parsedTime|];
    simpl; [|reflexivity].
  destruct (Z.gtb_spec (toInteger (from_option VStr VUndef parsedTime)) acc); lia.
Qed.

Lemma fold_newer (content : list S3Entry) (current : Z) :
  fold_left newer content current = fold_left Z.max (omap entryTime content) current.
Proof.
  revert current. induction content as [|item content IH]; intros current; simpl.
  - reflexivity.
  - rewrite newer_max. destruct (entryTime item) as [t|]; simpl; apply IH.
Qed.

Lemma fold_max_ge_init (l : list Z) (a : Z) : a ≤ fold_left Z.max l a.
Proof.
  revert a. induction l as [|x l IH]; intros a; simpl; [lia|].
  specialize (IH (Z.max a x)). lia.
Qed.

Lemma fold_max_ge (l : list Z) (a t : Z) : t ∈ l → t ≤ fold_left Z.max l a.
Proof.
  revert a. induction l as [|x l IH]; intros a Hin; simpl.
  - inversion Hin.
  - apply elem_of_cons in Hin as [->|Hin].
    + pose proof (fold_max_ge_init l (Z.max a x)). lia.
    + by apply IH.
Qed.

Lemma fold_max_in (l : list Z) (a : Z) :
  fold_left Z.max l a ∈ l ∨ fold_left Z.max l a = a.
Proof.
  revert a. induction l as [|x l IH]; intros a; simpl; [by right|].
  destruct (IH (Z.max a x)) as [Hin|Heq].
  - left. by apply list_elem_of_further.
  - rewrite Heq. destruct (Z.max_spec a x) as [[_ ->]|[_ ->]].
    + left. apply list_elem_of_here.
    + by right.
Qed.

Lemma timestamps_cons (page : ListPage) (pages : list ListPage) :
  timestamps (page :: pages) = pageTimes page ++ timestamps pages.
Proof. reflexivity. Qed.

(** One request per page, in sequence; the running maximum is carried from
    page to page. *)
Lemma searchLatest_serves (p : Plugin) (w : World) (token : value)
    (pages : list ListPage) (w' : World) :
  serves p w token pages w' →
  ∀ (fuel : nat) (current : Z) (tr : list event),
    (length pages ≤ fuel)%nat →
    searchLatest fuel current token {| this := p; world := w; trace := tr |}
    = Some (Resolved (fold_left Z.max (timestamps pages) current),
            {| this := p; world := w'; trace := tr ++ listRequests p token pages |}).
Proof.
  induction 1 as [w token page w' Hreq Htr | w token page w' pages w'' Hreq Htr _ IH];
    intros fuel current tr Hfuel;
    (destruct fuel as [|fuel]; [simpl in Hfuel; lia|]);
    cbn [searchLatest]; unfold request; cbn [this world trace];
    rewrite Hreq; cbn [contentsOf truncatedOf nextTokenOf]; rewrite Htr.
  - rewrite fold_newer. unfold timestamps. cbn [fmap list_fmap concat].
    rewrite app_nil_r. reflexivity.
  - rewrite IH by (simpl in Hfuel; lia).
    rewrite fold_newer, timestamps_cons, fold_left_app.
    cbn [listRequests]. rewrite <- app_assoc. reflexivity.
Qed.

Lemma locate_serves (store : value → Plugin → Plugin) (σ : Sigma)
    (pages : list ListPage) (w' : World) (fuel : nat) :
  serves (this σ) (world σ) VUndef pages w' →
  (length pages ≤ fuel)%nat →
  locate store fuel σ
  = Some (located store (latestOf pages)
            {| this := this σ; world := w';
               trace := (trace σ ++ [Log "Determine last deployment ..."])
                        ++ listRequests (this σ) VUndef pages |}).
Proof.
  intros Hs Hfuel. unfold locate, emit.
  rewrite (searchLatest_serves _ _ _ _ _ Hs fuel 0 _ Hfuel). reflexivity.
Qed.

(** The pagination the source attempts.  On replies that have the property
    the source reads, [Truncated], [searchLatest] reads every page, one
    request per page and each with the token of the page before, and returns
    the maximum of the timestamps of all entries of all pages: it bounds
    every one of them and is one of them (or 0, when none is positive).
    When it is not 0, both variants of the locator record the deployment
    directory of exactly that timestamp. *)
Lemma latest_over_flagged_pages (σ : Sigma) (pages : list ListPage)
    (w' : World) (fuel : nat) :
  serves (this σ) (world σ) VUndef pages w' →
  (length pages ≤ fuel)%nat →
  searchLatest fuel 0 VUndef σ
  = Some (Resolved (latestOf pages),
          {| this := this σ; world := w';
             trace := trace σ ++ listRequests (this σ) VUndef pages |})
  ∧ (∀ t, t ∈ timestamps pages → t ≤ latestOf pages)
  ∧ (latestOf pages ∈ timestamps pages ∨ latestOf pages = 0)
  ∧ (latestOf pages ≠ 0 →
     ∀ dir, deploymentDirectory (this σ) (latestOf pages) = Some dir →
       (∃ σ1, getLastDeploymentDirectory fuel σ = Some (Resolved tt, σ1)
              ∧ directory (this σ1) = VStr dir)
       ∧ (∃ σ2, setLastDeploymentDirectory fuel σ = Some (Resolved tt, σ2)
                ∧ field (providerObj (this σ2)) "lastDeploymentDirectory" = VStr dir)).
Proof.
  intros Hs Hfuel. split; [|split; [|split]].
  - destruct σ as [p w tr]. apply (searchLatest_serves _ _ _ _ _ Hs); assumption.
  - intros t Ht. by apply fold_max_ge.
  - apply fold_max_in.
  - intros Hnz dir Hdir.
    unfold getLastDeploymentDirectory, setLastDeploymentDirectory.
    rewrite !(locate_serves _ _ _ _ _ Hs Hfuel). unfold located. cbn [this].
    destruct (Z.eqb_spec (latestOf pages) 0) as [Hz|_]; [contradiction|].
    rewrite Hdir. split; eexists; (split; [reflexivity|]).
    + reflexivity.
    + cbn. unfold field. by rewrite lookup_insert_eq.
Qed.

(** C1, where the source departs from it.  The search goes on to the next
    page when the reply has a true property [Truncated].  A reply of S3
    flags a truncated page by [IsTruncated] and has no such property: on it
    the search ends with the first page, whatever [IsTruncated] and
    [NextContinuationToken] say.  One request is sent, the result is the
    maximum of the timestamps of that page alone, and it is the directory of
    that timestamp which both variants of the locator record. *)
Theorem C1_first_page_only (σ : Sigma) (page : ListPage) (w' : World) (fuel : nat) :
  provider_request (world σ) "S3" "listObjectsV2" (listParams (this σ) VUndef)
    (stage (options (this σ))) (region (options (this σ)))
  = (inl (RespList page), w') →
  Truncated page = false →
  searchLatest (S fuel) 0 VUndef σ
  = Some (Resolved (latestOf [page]),
          {| this := this σ; world := w';
             trace := trace σ
                      ++ [Request "S3" "listObjectsV2" (listParams (this σ) VUndef)
                            (stage (options (this σ))) (region (options (this σ)))] |})
  ∧ (latestOf [page] ≠ 0 →
     ∀ dir, deploymentDirectory (this σ) (latestOf [page]) = Some dir →
       (∃ σ1, getLastDeploymentDirectory (S fuel) σ = Some (Resolved tt, σ1)
              ∧ directory (this σ1) = VStr dir)
       ∧ (∃ σ2, setLastDeploymentDirectory (S fuel) σ = Some (Resolved tt, σ2)
                ∧ field (providerObj (this σ2)) "lastDeploymentDirectory" = VStr dir)).
Proof.
  intros Hreq Hlast.
  assert (Hs : serves (this σ) (world σ) VUndef [page] w') by by apply serves_last.
  assert (Hfuel : (length [page] ≤ S fuel)%nat) by (simpl; lia).
  destruct (latest_over_flagged_pages σ [page] w' (S fuel) Hs Hfuel)
    as [Hrun [_ [_ Hdir]]].
  split; [exact Hrun | exact Hdir].
Qed.

Lemma latestOf_all_zero (pages : list ListPage) :
  (∀ t, t ∈ timestamps pages → t = 0) → latestOf pages = 0.
Proof.
  intros Hall. destruct (fold_max_in (timestamps pages) 0) as [Hin|Heq].
  - by apply Hall.
  - exact Heq.
Qed.

(** C10. When the maximum accumulated over all listed entries is 0, the
    locator is rejected with the error of a missing deployment and records no
    directory, whether the listing had no entry of the shape looked for or
    had some whose timestamps all read as 0. *)
Theorem C10_zero_is_no_deployment (σ : Sigma) (pages : list ListPage)
    (w' : World) (fuel : nat) :
  serves (this σ) (world σ) VUndef pages w' →
  (length pages ≤ fuel)%nat →
  latestOf pages = 0 →
  let σ' := {| this := this σ; world := w';
               trace := (trace σ ++ [Log "Determine last deployment ..."])
                        ++ listRequests (this σ) VUndef pages |} in
  getLastDeploymentDirectory fuel σ = Some (Rejected noPriorDeployment, σ')
  ∧ setLastDeploymentDirectory fuel σ = Some (Rejected noPriorDeployment, σ').
Proof.
  intros Hs Hfuel Hz σ'.
  unfold getLastDeploymentDirectory, setLastDeploymentDirectory.
  rewrite !(locate_serves _ _ _ _ _ Hs Hfuel). unfold located.
  rewrite Hz. split; reflexivity.
Qed.

End Locator.

(** ** What calls add to the trace, and what they do not read *)

Section Calls.

Context `{Host}.

Lemma grows_refl (P : event → Prop) (σ : Sigma) : grows P σ σ.
Proof. exists []. split; [by rewrite app_nil_r | constructor]. Qed.

Lemma grows_trans (P : event → Prop) (σ1 σ2 σ3 : Sigma) :
  grows P σ1 σ2 → grows P σ2 σ3 → grows P σ1 σ3.
Proof.
  intros [n1 [E1 F1]] [n2 [E2 F2]]. exists (n1 ++ n2). split.
  - by rewrite E2, E1, app_assoc.
  - by apply Forall_app.
Qed.

Lemma grows_emit (P : event → Prop) (ev : event) (σ : Sigma) :
  P ev → grows P σ (emit ev σ).
Proof. intros HP. exists [ev]. split; [reflexivity | by repeat constructor]. Qed.

Lemma grows_eventsOf {A} (P : event → Prop) (m : M A) (σ : Sigma) :
  grows P σ (m σ).2 → Forall P (eventsOf m σ).
Proof.
  intros [new [E F]]. unfold eventsOf. rewrite E.
  by rewrite drop_app_length.
Qed.

Lemma grows_then {A B} (P : event → Prop) (p : M A) (f : A → M B) (σ : Sigma) :
  grows P σ (p σ).2 → (∀ a σ1, grows P σ1 (f a σ1).2) →
  grows P σ (then_ p f σ).2.
Proof.
  intros Hp Hf. unfold then_. destruct (p σ) as [[a|e|e] σ1]; simpl in *; try done.
  specialize (Hf a σ1). destruct (f a σ1) as [[b|e|e] σ2]; simpl in *;
    by eapply grows_trans.
Qed.

Lemma grows_request (P : event → Prop) (svc op : string) (params : obj) (σ : Sigma) :
  P (Request svc op params (stage (options (this σ))) (region (options (this σ)))) →
  grows P σ (request svc op params σ).2.
Proof.
  intros HP. unfold request.
  destruct (provider_request _ _ _ _ _ _) as [r w]. simpl.
  eexists. split; [reflexivity | by repeat constructor].
Qed.

Lemma grows_getAccountId (P : event → Prop) (σ : Sigma) :
  P GetAccountId → grows P σ (getAccountId σ).2.
Proof.
  intros HP. unfold getAccountId.
  destruct (provider_getAccountId _) as [r w]. simpl.
  eexists. split; [reflexivity | by repeat constructor].
Qed.

Lemma grows_normalizeArnRole (P : event → Prop) (role : value) (σ : Sigma) :
  P GetAccountId →
  (∀ params st rg, P (Request "IAM" "getRole" params st rg)) →
  grows P σ (normalizeArnRole role σ).2.
Proof.
  intros Hacc Hreq. unfold normalizeArnRole.
  assert (Hother : ∀ o : option value,
    grows P σ
      (match o with
       | None => (Thrown TypeError, σ)
       | Some roleName =>
           then_ (request "IAM" "getRole" (<["RoleName" := roleName]> ∅))
             (λ data, match arnOf data with
                      | Some arn => ret arn
                      | None => throw TypeError
                      end) σ
       end).2).
  { intros [roleName|]; [|apply grows_refl].
    apply grows_then; [by apply grows_request|].
    intros data σ1. destruct (arnOf data); apply grows_refl. }
  destruct role; try apply Hother.
  destruct (lacks ":" s); [|apply grows_refl].
  destruct (compiledFullRoleName (this σ) s) as [e|name]; [apply grows_refl|].
  apply grows_then; [by apply grows_getAccountId|].
  intros a σ1. apply grows_refl.
Qed.

Lemma ignores_then {A B} (g : Plugin → Plugin) (p : M A) (f : A → M B) :
  ignores g p → (∀ a, ignores g (f a)) → ignores g (then_ p f).
Proof.
  intros Hp Hf σ. unfold then_. rewrite Hp.
  destruct (p σ) as [[a|e|e] σ1]; simpl; try reflexivity.
  rewrite Hf. destruct (f a σ1) as [[b|e|e] σ2]; reflexivity.
Qed.

Lemma ignores_ret {A} (g : Plugin → Plugin) (a : A) : ignores g (ret a).
Proof. intros σ. reflexivity. Qed.

Lemma ignores_throw {A} (g : Plugin → Plugin) (e : error) : ignores g (@throw _ A e).
Proof. intros σ. reflexivity. Qed.

Lemma ignores_log (g : Plugin → Plugin) (msg : string) : ignores g (log msg).
Proof. intros σ. reflexivity. Qed.

Lemma ignores_request (g : Plugin → Plugin) (svc op : string) (params : obj) :
  (∀ p, options (g p) = options p) → ignores g (request svc op params).
Proof.
  intros Hg σ. unfold request, modify. cbn [this world trace]. rewrite Hg.
  destruct (provider_request _ _ _ _ _ _) as [r w]. reflexivity.
Qed.

Lemma ignores_getAccountId (g : Plugin → Plugin) : ignores g getAccountId.
Proof.
  intros σ. unfold getAccountId, modify. cbn [this world trace].
  destruct (provider_getAccountId _) as [r w]. reflexivity.
Qed.

Lemma ignores_normalizeArnRole (g : Plugin → Plugin) (role : value) :
  (∀ p, options (g p) = options p) → (∀ p, resources (g p) = resources p) →
  ignores g (normalizeArnRole role).
Proof.
  intros Hopt Hres σ. unfold normalizeArnRole.
  assert (Hother : ∀ o : option value,
    match o with
    | None => (Thrown TypeError, modify g σ)
    | Some roleName =>
        then_ (request "IAM" "getRole" (<["RoleName" := roleName]> ∅))
          (λ data, match arnOf data with
                   | Some arn => ret arn
                   | None => throw TypeError
                   end) (modify g σ)
    end
    = (let r := match o with
                | None => (Thrown TypeError, σ)
                | Some roleName =>
                    then_ (request "IAM" "getRole" (<["RoleName" := roleName]> ∅))
                      (λ data, match arnOf data with
                               | Some arn => ret arn
                               | None => throw TypeError
                               end) σ
                end in (r.1, modify g r.2))).
  { intros [roleName|]; [|reflexivity].
    apply (ignores_then g); [by apply ignores_request|].
    intros data. destruct (arnOf data); [apply ignores_ret | apply ignores_throw]. }
  destruct role; try apply Hother.
  destruct (lacks ":" s); [|reflexivity].
  unfold compiledFullRoleName. cbn [modify this]. rewrite Hres.
  fold (compiledFullRoleName (this σ) s).
  destruct (compiledFullRoleName (this σ) s) as [e|name]; [reflexivity|].
  apply (ignores_then g); [apply ignores_getAccountId|].
  intros a. apply ignores_ret.
Qed.

Lemma ignores_callUpdateFunctionConfiguration (g : Plugin → Plugin) (params : obj) :
  (∀ p, options (g p) = options p) →
  ignores g (callUpdateFunctionConfiguration params).
Proof.
  intros Hopt. unfold callUpdateFunctionConfiguration.
  apply ignores_then; [by apply ignores_request|].
  intros _ σ. unfold log, modify, emit. cbn [this world trace]. by rewrite Hopt.
Qed.

End Calls.

(** ** The reconciler *)

Section Reconciler.

Context `{Host}.

(** On an object without a [length] that makes it array-like, [_.some]
    visits the values of all keys. *)
Lemma some_isObject (m : obj) :
  isLength (field m "length") = None →
  some (VObj m) isObject = true ↔ ∃ k v, m !! k = Some v ∧ isObject v = true.
Proof.
  intros Hlen. unfold some, valuesOf. rewrite Hlen, existsb_exists. split.
  - intros [v [Hin Hv]]. apply list_elem_of_In, list_elem_of_fmap in Hin.
    destruct Hin as [[k v'] [-> Hin]]. apply elem_of_map_to_list in Hin. eauto.
  - intros [k [v [Hk Hv]]]. exists v. split; [|done].
    apply list_elem_of_In, list_elem_of_fmap. exists (k, v). split; [done|].
    by apply elem_of_map_to_list.
Qed.

Lemma some_isObject_false (m : obj) :
  isLength (field m "length") = None →
  some (VObj m) isObject = false ↔ ∀ k v, m !! k = Some v → isObject v = false.
Proof.
  intros Hlen. split.
  - intros Hs k v Hk. destruct (isObject v) eqn:Hv; [|done].
    assert (some (VObj m) isObject = true) by (apply some_isObject; eauto).
    congruence.
  - intros Hall. destruct (some (VObj m) isObject) eqn:Hs; [|done].
    apply some_isObject in Hs as [k [v [Hk Hv]]]; [|done].
    rewrite (Hall k v Hk) in Hv. done.
Qed.

Lemma star_to_end (p : ascii → bool) (cap : option (list ascii)) (s : list ascii) :
  Regex.star p cap (λ s' cap', Regex.run Regex.Eol s' cap'
                                 (λ _ c, Some (string_of_list_ascii <$> c))) s
  = if forallb p s then Some (string_of_list_ascii <$> cap) else None.
Proof.
  induction s as [|c s IH]; cbn [Regex.star forallb]; [reflexivity|].
  destruct (p c); cbn [andb]; [|reflexivity].
  rewrite IH. destruct (forallb p s); reflexivity.
Qed.

(** The pattern of the source accepts exactly the identifiers. *)
Lemma envKey_isIdentifier (k : string) :
  Regex.test Regex.envKey k = isIdentifier k.
Proof.
  unfold Regex.test, Regex.exec, Regex.envKey.
  destruct k as [|c rest]; [reflexivity|].
  cbn [list_ascii_of_string Regex.run isIdentifier].
  destruct (Regex.identStart c); cbn [andb]; [|reflexivity].
  rewrite star_to_end. destruct (forallb _ _); reflexivity.
Qed.

Lemma keys_checked (m : obj) :
  forallb (λ kv : string * value, Regex.test Regex.envKey kv.1) (map_to_list m) = true
  ↔ ∀ k, is_Some (m !! k) → isIdentifier k = true.
Proof.
  rewrite forallb_forall. split.
  - intros Hall k [v Hk]. rewrite <- envKey_isIdentifier.
    apply (Hall (k, v)). apply list_elem_of_In. by apply elem_of_map_to_list.
  - intros Hall [k v] Hin. apply list_elem_of_In, elem_of_map_to_list in Hin.
    cbn [fst]. rewrite envKey_isIdentifier. apply Hall. eauto.
Qed.

Lemma field_insert_ne (o : obj) (k k' : string) (v : value) :
  k' ≠ k → field (<[k' := v]> o) k = field o k.
Proof. intros Hne. unfold field. by rewrite lookup_insert_ne. Qed.

Lemma concrete_insert_ne (o : obj) (k k' : string) (v : value) :
  k' ≠ k → concrete (<[k' := v]> o) k = concrete o k.
Proof.
  intros Hne. unfold concrete, has. rewrite field_insert_ne by done.
  by rewrite lookup_insert_ne.
Qed.

(** The patch is assembled without a look at the descriptor of the deployed
    function. *)
Lemma buildParams_remote (f : obj) (s : option obj) (p : obj) (r : value) :
  buildParams f s (<["remoteFunctionData" := r]> p) = buildParams f s p.
Proof.
  unfold buildParams, environmentOf, vpcConfigOf.
  rewrite !concrete_insert_ne, !field_insert_ne by done. reflexivity.
Qed.

Lemma roleOf_remote (f p : obj) (r : value) :
  roleOf f (<["remoteFunctionData" := r]> p) = roleOf f p.
Proof. unfold roleOf. by rewrite concrete_insert_ne. Qed.

Lemma ignores_updateFunctionConfiguration (remote : obj) :
  ignores (withRemote remote) updateFunctionConfiguration.
Proof.
  intros σ. unfold updateFunctionConfiguration.
  cbn [modify this withRemote set_providerObj providerObj options serviceObject].
  rewrite buildParams_remote, roleOf_remote.
  destruct (buildParams _ _ _) as [e|params]; [reflexivity|].
  destruct (roleOf _ _) as [role|].
  - apply (ignores_then (withRemote remote)).
    + by apply ignores_normalizeArnRole.
    + intros roleArn. by apply ignores_callUpdateFunctionConfiguration.
  - destruct (isEmpty _); [reflexivity|].
    by apply (ignores_callUpdateFunctionConfiguration (withRemote remote)).
Qed.

Lemma eventsOf_ignores {A} (g : Plugin → Plugin) (m : M A) (σ : Sigma) :
  ignores g m → eventsOf m (modify g σ) = eventsOf m σ.
Proof. intros Hm. unfold eventsOf. by rewrite Hm. Qed.

Lemma grows_callUpdateFunctionConfiguration (params : obj) (σ : Sigma) :
  isEmpty (omit params "FunctionName") = false →
  grows carriesPatch σ (callUpdateFunctionConfiguration params σ).2.
Proof.
  intros Hne. unfold callUpdateFunctionConfiguration.
  apply grows_then.
  - apply grows_request. intros _. eauto.
  - intros _ σ1. apply grows_emit. intros Hup. discriminate Hup.
Qed.

Lemma omit_with_role (params : obj) (roleArn : value) :
  isEmpty (omit (<["Role" := roleArn]> params) "FunctionName") = false.
Proof.
  unfold isEmpty, omit. apply bool_decide_eq_false. intros Hempty.
  assert (Hl : delete "FunctionName" (<["Role" := roleArn]> params) !! "Role"
               = Some roleArn).
  { rewrite lookup_delete_ne by done. apply lookup_insert_eq. }
  rewrite Hempty in Hl. by rewrite lookup_empty in Hl.
Qed.

(** C3. When the rules leave nothing in the patch but the name of the
    function (no field set, no role to resolve), the operation is fulfilled
    at once, the plugin, the world and the trace as they were: no call, no
    error.  And no update is ever sent whose patch holds the name alone. *)
Theorem C3_empty_patch_is_noop (σ : Sigma) (params : obj) :
  let f := functionObj (options (this σ)) in
  let s := serviceObject (this σ) in
  let p := providerObj (this σ) in
  buildParams f s p = inr params →
  roleOf f p = None →
  isEmpty (omit params "FunctionName") = true →
  updateFunctionConfiguration σ = (Resolved tt, σ)
  ∧ eventsOf updateFunctionConfiguration σ = []
  ∧ ∀ σ0 : Sigma, Forall carriesPatch (eventsOf updateFunctionConfiguration σ0).
Proof.
  intros f s p Hb Hr He.
  assert (Hrun : updateFunctionConfiguration σ = (Resolved tt, σ)).
  { unfold updateFunctionConfiguration. fold f s p. by rewrite Hb, Hr, He. }
  split; [exact Hrun|]. split.
  - unfold eventsOf. rewrite Hrun. apply drop_all.
  - clear. intros σ0. apply grows_eventsOf. unfold updateFunctionConfiguration.
    destruct (buildParams _ _ _) as [e|params0]; [apply grows_refl|].
    destruct (roleOf _ _) as [role|].
    + apply grows_then.
      * apply grows_normalizeArnRole; [discriminate|]. intros ? ? ? Hup.
        discriminate Hup.
      * intros roleArn σ1. apply grows_callUpdateFunctionConfiguration,
          omit_with_role.
    + destruct (isEmpty (omit params0 "FunctionName")) eqn:Hparams;
        [apply grows_refl|].
      by apply grows_callUpdateFunctionConfiguration.
Qed.

End Reconciler.

(** ** The fields of the patch *)

Section PatchFields.

Context `{Host}.

Lemma lookup_setIf_ne (k k' : string) (v : option value) (m : obj) :
  k' ≠ k → setIf k' v m !! k = m !! k.
Proof. intros Hne. destruct v; simpl; [by rewrite lookup_insert_ne|done]. Qed.

Lemma lookup_setIf_eq (k : string) (v : option value) (m : obj) :
  m !! k = None → setIf k v m !! k = v.
Proof. intros Hm. destruct v; simpl; [apply lookup_insert_eq|done]. Qed.

(** What [buildParams] returns, field by field. *)
Lemma buildParams_inr (f : obj) (s : option obj) (p params : obj) :
  buildParams f s p = inr params →
  environmentOf f p = inr (params !! "Environment")
  ∧ params !! "VpcConfig" = vpcConfigOf f p.
Proof.
  unfold buildParams.
  destruct (environmentOf f p) as [e|env]; [discriminate|].
  intros [= <-]. split.
  - f_equal. symmetry. rewrite lookup_setIf_ne by done. apply lookup_setIf_eq.
    case_match; [rewrite lookup_insert_ne by done|];
      by rewrite !lookup_setIf_ne, lookup_insert_ne by done.
  - apply lookup_setIf_eq. rewrite lookup_setIf_ne by done.
    case_match; [rewrite lookup_insert_ne by done|];
      by rewrite !lookup_setIf_ne, lookup_insert_ne by done.
Qed.

Lemma buildParams_environment (f : obj) (s : option obj) (p : obj) (env : option value) :
  environmentOf f p = inr env → ∃ params, buildParams f s p = inr params.
Proof. intros He. unfold buildParams. rewrite He. eauto. Qed.


Lemma buildParams_chain (f : obj) (s : option obj) (p : obj) :
  buildParams f s p
  = match environmentOf f p with
    | inl e => inl e
    | inr env =>
        inr (setIf "VpcConfig" (vpcConfigOf f p)
               (setIf "Environment" env
                  (setIf "DeadLetterConfig" (deadLetterOf f)
                     (setIf "Timeout"
                        (orElse (concrete f "timeout") (concrete p "timeout"))
                        (setIf "MemorySize"
                           (orElse (concrete f "memorySize") (concrete p "memorySize"))
                           (setIf "Description" (concrete f "description")
                              (setIf "KMSKeyArn"
                                 (orElse (concrete f "awsKmsKeyArn")
                                    (s ≫= λ o, concrete o "awsKmsKeyArn"))
                                 (<["FunctionName" := field f "name"]> ∅))))))))
    end.
Proof.
  unfold buildParams, deadLetterOf.
  destruct (truthy (field f "onError") && negb (isObject (field f "onError")));
    reflexivity.
Qed.

(** What each name of the patch holds. *)
Lemma buildParams_fields (f : obj) (s : option obj) (p params : obj) :
  buildParams f s p = inr params →
  params !! "FunctionName" = Some (field f "name")
  ∧ params !! "KMSKeyArn"
    = orElse (concrete f "awsKmsKeyArn") (s ≫= λ o, concrete o "awsKmsKeyArn")
  ∧ params !! "Description" = concrete f "description"
  ∧ params !! "MemorySize"
    = orElse (concrete f "memorySize") (concrete p "memorySize")
  ∧ params !! "Timeout" = orElse (concrete f "timeout") (concrete p "timeout")
  ∧ params !! "DeadLetterConfig" = deadLetterOf f
  ∧ (∀ k, k ∉ patchNames → params !! k = None).
Proof.
  rewrite buildParams_chain.
  destruct (environmentOf f p) as [e|env]; [discriminate|]. intros [= <-].
  assert (Hpeel : ∀ k, k ≠ "FunctionName" →
    (<["FunctionName" := field f "name"]> (∅ : obj)) !! k = None).
  { intros k Hk. rewrite lookup_insert_ne by done. apply lookup_empty. }
  repeat split; try (intros k Hk); repeat rewrite lookup_setIf_ne by done.
  - apply lookup_insert_eq.
  - apply lookup_setIf_eq. by apply Hpeel.
  - apply lookup_setIf_eq. repeat rewrite lookup_setIf_ne by done. by apply Hpeel.
  - apply lookup_setIf_eq. repeat rewrite lookup_setIf_ne by done. by apply Hpeel.
  - apply lookup_setIf_eq. repeat rewrite lookup_setIf_ne by done. by apply Hpeel.
  - apply lookup_setIf_eq. repeat rewrite lookup_setIf_ne by done. by apply Hpeel.
  - assert (Hne : Forall (λ n, n ≠ k) patchNames).
    { apply Forall_forall. intros n Hn ->. by apply Hk. }
    unfold patchNames in Hne.
    repeat (apply Forall_cons in Hne as [? Hne]).
    repeat rewrite lookup_setIf_ne by done. by apply Hpeel.
Qed.

Lemma concrete_plain (o : obj) (k : string) (v : value) :
  concrete o k = Some v → isObject v = false.
Proof.
  unfold concrete. destruct (has o k); cbn [andb]; [|discriminate].
  destruct (isObject (field o k)) eqn:Hobj; cbn [negb]; [discriminate|].
  by intros [= <-].
Qed.

Lemma orElse_Some {A} (a b : option A) (v : A) :
  orElse a b = Some v → a = Some v ∨ b = Some v.
Proof. destruct a; cbn; auto. Qed.

Lemma buildParams_rules (f : obj) (s : option obj) (p params : obj) :
  buildParams f s p = inr params →
  ∀ k v, (k, v) ∈ patchRules f s p → params !! k = v.
Proof.
  intros Hb k v Hin.
  destruct (buildParams_fields f s p params Hb)
    as [_ [Hkms [Hdesc [Hmem [Htime [Hdl _]]]]]].
  destruct (buildParams_inr f s p params Hb) as [Henv Hvpc].
  unfold patchRules in Hin. rewrite Henv in Hin.
  repeat (apply elem_of_cons in Hin as [[= -> ->]|Hin]; [done|]).
  inversion Hin.
Qed.

(** The patch holds the name alone exactly when no rule writes in it. *)
Lemma patch_empty_iff (f : obj) (s : option obj) (p params : obj) :
  buildParams f s p = inr params →
  isEmpty (omit params "FunctionName") = true
  ↔ ∀ k v, (k, v) ∈ patchRules f s p → v = None.
Proof.
  intros Hb. pose proof (buildParams_rules f s p params Hb) as Hrules.
  destruct (buildParams_fields f s p params Hb) as [_ [_ [_ [_ [_ [_ Hother]]]]]].
  unfold isEmpty, omit. rewrite bool_decide_eq_true. split.
  - intros Hempty k v Hin. rewrite <- (Hrules k v Hin).
    assert (Hk : k ≠ "FunctionName").
    { unfold patchRules in Hin.
      repeat (apply elem_of_cons in Hin as [[= -> _]|Hin]; [done|]). inversion Hin. }
    rewrite <- (lookup_delete_ne params "FunctionName" k) by done.
    by rewrite Hempty, lookup_empty.
  - intros Hnone. apply map_eq. intros k. rewrite lookup_empty.
    destruct (decide (k = "FunctionName")) as [->|Hk]; [apply lookup_delete_eq|].
    rewrite lookup_delete_ne by done.
    destruct (decide (k ∈ patchNames)) as [Hin|Hout]; [|by apply Hother].
    unfold patchNames in Hin. apply elem_of_cons in Hin as [->|Hin]; [done|].
    change (k ∈ (patchRules f s p).*1) in Hin.
    apply list_elem_of_fmap in Hin as [[k' v] [-> Hv]]. cbn [fst].
    rewrite (Hrules k' v Hv). by eapply Hnone.
Qed.



Lemma truthy_or_ (a b : value) : truthy (or_ a b) = truthy a || truthy b.
Proof. unfold or_. destruct (truthy a) eqn:Ha; simpl; [exact Ha|reflexivity]. Qed.

Lemma vpcConfigOf_spec (f p : obj) :
  let vpc := or_ (field f "vpc") (field p "vpc") in
  let securityGroupIds := field (ownProps vpc) "securityGroupIds" in
  let subnetIds := field (ownProps vpc) "subnetIds" in
  vpcConfigOf f p
  = if truthy vpc && (plainArray securityGroupIds || plainArray subnetIds)
    then Some (VObj (setIf "SubnetIds"
                       (if plainArray subnetIds then Some subnetIds else None)
                       (setIf "SecurityGroupIds"
                          (if plainArray securityGroupIds
                           then Some securityGroupIds else None) ∅)))
    else None.
Proof.
  intros vpc securityGroupIds subnetIds. unfold vpcConfigOf.
  rewrite <- truthy_or_. fold vpc securityGroupIds subnetIds.
  destruct (truthy vpc); [|reflexivity]. cbn [andb].
  assert (Hne : ∀ (k : string) (v : value) (m : obj), isEmpty (<[k := v]> m) = false).
  { intros k v m. apply bool_decide_eq_false, insert_non_empty. }
  destruct (plainArray securityGroupIds), (plainArray subnetIds);
    cbn [orb setIf]; rewrite ?Hne; reflexivity.
Qed.

(** C8, as the code has it.  The patch has a VPC entry exactly when a [vpc]
    object is set (the function's, else the provider's) and at least one of
    its two lists is an array without structured placeholder; the entry then
    holds each list that is, also when the other list is missing. *)
Theorem C8_vpc_lists_independent (f : obj) (s : option obj) (p params : obj) :
  buildParams f s p = inr params →
  let vpc := or_ (field f "vpc") (field p "vpc") in
  let securityGroupIds := field (ownProps vpc) "securityGroupIds" in
  let subnetIds := field (ownProps vpc) "subnetIds" in
  (is_Some (params !! "VpcConfig")
   ↔ truthy vpc = true
     ∧ (plainArray securityGroupIds = true ∨ plainArray subnetIds = true))
  ∧ (∀ v, params !! "VpcConfig" = Some v →
       v = VObj (setIf "SubnetIds"
                   (if plainArray subnetIds then Some subnetIds else None)
                   (setIf "SecurityGroupIds"
                      (if plainArray securityGroupIds
                       then Some securityGroupIds else None) ∅))).
Proof.
  intros Hb vpc securityGroupIds subnetIds.
  apply buildParams_inr in Hb as [_ Hvpc]. rewrite Hvpc, vpcConfigOf_spec.
  fold vpc securityGroupIds subnetIds.
  destruct (truthy vpc), (plainArray securityGroupIds), (plainArray subnetIds);
    cbn [andb orb]; (split; [split|]);
    try (intros _; split; [reflexivity|]; auto; fail);
    try (intros; eauto; fail);
    try (intros v [= <-]; reflexivity);
    try (intros [v Hv]; discriminate Hv);
    try (intros v Hv; discriminate Hv);
    try (intros [Ht [Hl|Hl]]; discriminate).
Qed.

End PatchFields.

(** ** The reconciler and the descriptor of the deployed function *)

Section Reconciliation.

Context `{Host}.

(** C2, as the source has it.  The reconciler never compares the desired
    configuration with the descriptor of the deployed function: whatever the
    descriptor is, matching or not, the patch, the outcome and the calls are
    those of the desired configuration alone.  With no role to resolve, the
    patch holds what the rules write and is empty exactly when no rule
    writes in it; it is then that no call is made and the operation is
    fulfilled, and when a rule does write, exactly one update is sent, with
    the patch. *)
Theorem C2_patch_from_desired_alone (σ : Sigma) (remote : obj) :
  let σr := modify (withRemote remote) σ in
  let f := functionObj (options (this σ)) in
  let s := serviceObject (this σ) in
  let p := providerObj (this σ) in
  buildParams f s (providerObj (this σr)) = buildParams f s p
  ∧ (updateFunctionConfiguration σr).1 = (updateFunctionConfiguration σ).1
  ∧ eventsOf updateFunctionConfiguration σr = eventsOf updateFunctionConfiguration σ
  ∧ (∀ params,
       buildParams f s p = inr params →
       roleOf f p = None →
       (∀ k v, (k, v) ∈ patchRules f s p → params !! k = v)
       ∧ (isEmpty (omit params "FunctionName") = true
          ↔ ∀ k v, (k, v) ∈ patchRules f s p → v = None)
       ∧ (isEmpty (omit params "FunctionName") = true →
          updateFunctionConfiguration σr = (Resolved tt, σr)
          ∧ eventsOf updateFunctionConfiguration σr = [])
       ∧ (isEmpty (omit params "FunctionName") = false →
          filter (λ ev, isConfigurationUpdate ev = true)
            (eventsOf updateFunctionConfiguration σr)
          = [Request "Lambda" "updateFunctionConfiguration" params
               (stage (options (this σ))) (region (options (this σ)))])).
Proof.
  intros σr f s p. split; [|split; [|split]].
  - apply buildParams_remote.
  - unfold σr. by rewrite ignores_updateFunctionConfiguration.
  - apply eventsOf_ignores, ignores_updateFunctionConfiguration.
  - intros params Hb Hr.
    split; [by apply buildParams_rules|]. split; [by apply patch_empty_iff|].
    assert (Hev : eventsOf updateFunctionConfiguration σr
                  = eventsOf updateFunctionConfiguration σ)
      by apply eventsOf_ignores, ignores_updateFunctionConfiguration.
    split.
    + intros He.
      assert (Hrun : updateFunctionConfiguration σ = (Resolved tt, σ)).
      { unfold updateFunctionConfiguration. fold f s p. by rewrite Hb, Hr, He. }
      unfold σr. split.
      * by rewrite ignores_updateFunctionConfiguration, Hrun.
      * fold σr. rewrite Hev. unfold eventsOf. rewrite Hrun. apply drop_all.
    + intros Hne. rewrite Hev. unfold eventsOf, updateFunctionConfiguration.
      fold f s p. rewrite Hb, Hr, Hne.
      unfold callUpdateFunctionConfiguration, then_, request, log, emit.
      destruct (provider_request _ _ _ _ _ _) as [[x|e] w]; cbn [snd this trace];
        rewrite <- ?app_assoc, drop_app_length; reflexivity.
Qed.

End Reconciliation.

(** ** The template fetch *)

Section Fetcher.

Context `{Host}.

Lemma accepted_spec (o : GetObjectOutput) :
  accepted o = true
  ↔ ContentType o = Some "application/json"
    ∧ (∃ n, ContentLength o = Some n ∧ 0 < n)
    ∧ bodyPresent (Body o) = true.
Proof.
  unfold accepted. rewrite negb_true_iff, !orb_false_iff, !negb_false_iff.
  rewrite bool_decide_eq_true, Z.leb_gt. split.
  - intros [[Ht Hl] Hb]. repeat split; try done.
    destruct (ContentLength o) as [n|]; simpl in Hl; [eauto | lia].
  - intros [Ht [[n [Hn Hpos]] Hb]]. rewrite Hn. simpl. done.
Qed.

Lemma downloadTemplate_reply (σ : Sigma) (directory : value) (r : response)
    (w' : World) :
  let p := this σ in
  let σ1 := {| this := p; world := w';
               trace := (trace σ ++ [Log "Downloading CloudFormation file from S3 ..."])
                        ++ [Request "S3" "getObject" (templateParams p directory)
                              (stage (options p)) (region (options p))] |} in
  let o := objectOf r in
  let hashed := modify (set_templateHash (VStr (default "" (Metadata_filesha256 o)))) σ1 in
  provider_request (world σ) "S3" "getObject" (templateParams p directory)
    (stage (options p)) (region (options p)) = (inl r, w') →
  downloadTemplate directory σ
  = if accepted o then
      match JSON_parse (bodyToString (default (BodyBuffer "{}") (Body o))) with
      | Some t => (Resolved VNull, modify (set_template t) hashed)
      | None => (Rejected SyntaxError, hashed)
      end
    else (Rejected integrityError, σ1).
Proof.
  intros p σ1 o hashed Hreq.
  assert (Hq : request "S3" "getObject" (templateParams p directory)
                 (emit (Log "Downloading CloudFormation file from S3 ...") σ)
               = (Resolved r, σ1)).
  { unfold request, emit. cbn [this world trace]. fold p. by rewrite Hreq. }
  unfold downloadTemplate. fold p. fold (templateParams p directory).
  unfold then_. rewrite Hq. unfold checkResponse. fold o.
  destruct (accepted o); [|reflexivity].
  fold hashed. unfold parseTemplate.
  destruct (JSON_parse _); reflexivity.
Qed.

(** C4. Whatever the store replies to the [getObject] request: unless the
    content type is "application/json", the content length is positive and a
    body is there, the fetch is rejected with the integrity error and the
    plugin is as before (no hash and no template recorded); when the three
    hold, the body is read as text and parsed as JSON, and the parsed tree
    becomes the template.  Both variants of [downloadTemplateFromS3] are
    [downloadTemplate] at the directory they read. *)
Theorem C4_template_accepted_iff_well_formed (σ : Sigma) (directory : value)
    (r : response) (w' : World) :
  let p := this σ in
  let sent := Request "S3" "getObject" (templateParams p directory)
                (stage (options p)) (region (options p)) in
  let σ1 := {| this := p; world := w';
               trace := (trace σ ++ [Log "Downloading CloudFormation file from S3 ..."])
                        ++ [sent] |} in
  let o := objectOf r in
  let hashed := modify (set_templateHash (VStr (default "" (Metadata_filesha256 o)))) σ1 in
  provider_request (world σ) "S3" "getObject" (templateParams p directory)
    (stage (options p)) (region (options p)) = (inl r, w') →
  (accepted o = true
   ↔ ContentType o = Some "application/json"
     ∧ (∃ n, ContentLength o = Some n ∧ 0 < n)
     ∧ bodyPresent (Body o) = true)
  ∧ (accepted o = false →
     downloadTemplate directory σ = (Rejected integrityError, σ1))
  ∧ (accepted o = true →
     ∃ b, Body o = Some b
       ∧ downloadTemplate directory σ
         = match JSON_parse (bodyToString b) with
           | Some t => (Resolved VNull, modify (set_template t) hashed)
           | None => (Rejected SyntaxError, hashed)
           end)
  ∧ (ContentType o = Some "application/json" → ContentLength o = Some 2 →
     Body o = Some (BodyText "{}") → JSON_parse "{}" = Some (VObj ∅) →
     downloadTemplate directory σ
     = (Resolved VNull, modify (set_template (VObj ∅)) hashed)).
Proof.
  intros p sent σ1 o hashed Hreq.
  pose proof (downloadTemplate_reply σ directory r w' Hreq) as Hrun.
  cbv zeta in Hrun. fold p o in Hrun. fold sent in Hrun. fold σ1 in Hrun.
  fold hashed in Hrun.
  split; [apply accepted_spec|]. split; [|split].
  - intros Hacc. by rewrite Hrun, Hacc.
  - intros Hacc. pose proof (proj1 (accepted_spec o) Hacc) as [_ [_ Hbody]].
    destruct (Body o) as [b|] eqn:Hb; [|discriminate Hbody].
    exists b. split; [reflexivity|]. by rewrite Hrun, Hacc.
  - intros Ht Hl Hb Hjson.
    assert (Hacc : accepted o = true).
    { apply accepted_spec. rewrite Ht, Hl, Hb. repeat split; eauto. exists 2. done. }
    rewrite Hrun, Hacc, Hb. unfold default. cbn [from_option id bodyToString].
    by rewrite Hjson.
Qed.

End Fetcher.

(** ** The sync gate *)

Section SyncGate.

Context `{Host}.

(** C6. With the artifact on disk and the descriptor of the deployed function
    at hand, the upload request is sent exactly when the force flag is set
    or the digest of the artifact differs from the recorded hash.  When it is
    not sent, the call is fulfilled after the one log line, nothing else
    changed, and so is a second call made right after.  When it is sent, it
    carries the bytes of the artifact, and the call is fulfilled or rejected
    as the request is. *)
Theorem C6_upload_iff_forced_or_changed (σ : Sigma) (functionObject : value)
    (data : string) (size : Z) (remoteHash : value) :
  let p := this σ in
  let path := artifactFilePath p functionObject in
  let forced := truthy (force (options p)) in
  let changed := negb (strictEqStr remoteHash (sha256_base64 data)) in
  let uploading :=
    Log ("Uploading function: " +:+ toStr (function (options p))
         +:+ " (" +:+ filesize size +:+ ")...") in
  let sent := Request "Lambda" "updateFunctionCode" (codeParams p data)
                (stage (options p)) (region (options p)) in
  getFunction (function (options p)) = inr functionObject →
  fs_readFileSync (world σ) path = inr data →
  fs_statSync_size (world σ) path = inr size →
  remoteCodeSha256 p = Some remoteHash →
  existsb isCodeUpload (eventsOf deployFunction σ) = forced || changed
  ∧ (forced || changed = false →
     deployFunction σ = (Resolved tt, emit skipped σ)
     ∧ deployFunction (emit skipped σ) = (Resolved tt, emit skipped (emit skipped σ)))
  ∧ (forced || changed = true →
     ∀ reply w',
       provider_request (world σ) "Lambda" "updateFunctionCode" (codeParams p data)
         (stage (options p)) (region (options p)) = (reply, w') →
       deployFunction σ
       = match reply with
         | inl _ =>
             (Resolved tt,
              {| this := p; world := w';
                 trace := trace σ
                          ++ [uploading; sent;
                              Log ("Successfully deployed function: "
                                   +:+ toStr (function (options p)))] |})
         | inr e =>
             (Rejected e,
              {| this := p; world := w'; trace := trace σ ++ [uploading; sent] |})
         end).
Proof.
  intros p path forced changed uploading sent Hfun Hread Hstat Hremote.
  assert (Hskip : ∀ σ0 : Sigma, this σ0 = p → world σ0 = world σ →
            forced || changed = false →
            deployFunction σ0 = (Resolved tt, emit skipped σ0)).
  { intros σ0 Hthis Hworld Hgate. unfold deployFunction.
    rewrite Hthis, Hworld. fold p. rewrite Hfun. fold path.
    rewrite Hread, Hremote.
    apply orb_false_iff in Hgate as [Hforced Hchanged].
    unfold forced in Hforced. unfold changed in Hchanged.
    apply negb_false_iff in Hchanged. rewrite Hchanged, Hforced. reflexivity. }
  assert (Hsend : forced || changed = true →
     ∀ reply w',
       provider_request (world σ) "Lambda" "updateFunctionCode" (codeParams p data)
         (stage (options p)) (region (options p)) = (reply, w') →
       deployFunction σ
       = match reply with
         | inl _ =>
             (Resolved tt,
              {| this := p; world := w';
                 trace := trace σ
                          ++ [uploading; sent;
                              Log ("Successfully deployed function: "
                                   +:+ toStr (function (options p)))] |})
         | inr e =>
             (Rejected e,
              {| this := p; world := w'; trace := trace σ ++ [uploading; sent] |})
         end).
  { intros Hgate reply w' Hreq. unfold deployFunction. fold p. rewrite Hfun.
    fold path. rewrite Hread, Hremote, Hstat.
    assert (Hcond : strictEqStr remoteHash (sha256_base64 data)
                    && negb (truthy (force (options p))) = false).
    { unfold forced, changed in Hgate.
      destruct (strictEqStr _ _), (truthy _); simpl in *; congruence. }
    rewrite Hcond. unfold then_, request, emit, log. cbn [this world trace].
    fold p. rewrite Hreq.
    destruct reply as [x|e]; unfold emit; cbn [this world trace];
      rewrite <- !app_assoc; reflexivity. }
  split; [|split; [|exact Hsend]].
  - unfold eventsOf. destruct (forced || changed) eqn:Hgate.
    + rewrite (Hsend eq_refl _ _ (surjective_pairing _)).
      destruct (fst _); cbn [snd trace]; rewrite drop_app_length; reflexivity.
    + rewrite (Hskip σ eq_refl eq_refl eq_refl). unfold emit. cbn [snd trace].
      rewrite drop_app_length. reflexivity.
  - intros Hgate. split.
    + by apply Hskip.
    + by apply Hskip.
Qed.

End SyncGate.

(** ** The role resolver *)

Section RoleResolver.

Context `{Host}.

Lemma lacks_false (c : ascii) (s : string) :
  lacks c s = false ↔ c ∈ list_ascii_of_string s.
Proof.
  unfold lacks. induction (list_ascii_of_string s) as [|d l IH]; cbn [forallb].
  - split; [discriminate | intros Hin; inversion Hin].
  - rewrite elem_of_cons, andb_false_iff, negb_false_iff, IH.
    rewrite Ascii.eqb_eq. split; intros [?|?]; auto.
Qed.

Lemma prop_defined (v : value) (k : string) :
  v ≠ VUndef → v ≠ VNull → prop v k = Some (field (ownProps v) k).
Proof. intros Hu Hn. by destruct v. Qed.

Lemma prop_undefined (v : value) (k : string) :
  prop v k = None → v = VUndef ∨ v = VNull.
Proof. destruct v; cbn; auto; discriminate. Qed.

Lemma strictEqStr_true (v : value) (s : string) :
  strictEqStr v s = true → v = VStr s.
Proof.
  destruct v; cbn; try discriminate. intros Heq. by apply String.eqb_eq in Heq as ->.
Qed.

(** C7, as the source has it.  A role given as a string that contains ':' is
    an ARN already: it is returned as it is, fulfilled, and the plugin, the
    world and the trace are untouched.  A string without ':' names a resource
    of the service.  When the service declares a resource of type
    AWS::IAM::Role with properties under that name, the resolver asks the
    provider for the account id, once, and is fulfilled with
    'arn:aws:iam::', the account id, ':role', the path of the role ('/' when
    it has none) and its name, or rejected as the provider rejects.  When it
    does not, the resolver throws before anything is asked: 'Provided
    resource is not IAM Role.' when what the name leads to has another type,
    which a member every object inherits has, and a TypeError otherwise. *)
Theorem C7_arn_with_delimiter_unchanged (σ : Sigma) (role : string) :
  (":"%char ∈ list_ascii_of_string role →
   normalizeArnRole (VStr role) σ = (Resolved (VStr role), σ)
   ∧ eventsOf (normalizeArnRole (VStr role)) σ = [])
  ∧ (":"%char ∉ list_ascii_of_string role →
     (∀ properties reply w',
        declaresRole (this σ) role properties →
        provider_getAccountId (world σ) = (reply, w') →
        let σ' := {| this := this σ; world := w';
                     trace := trace σ ++ [GetAccountId] |} in
        normalizeArnRole (VStr role) σ
        = match reply with
          | inl accountId =>
              (Resolved
                 (VStr ("arn:aws:iam::" +:+ toStr accountId +:+ ":role"
                        +:+ (toStr (or_ (field (ownProps properties) "Path") (VStr "/"))
                             +:+ toStr (field (ownProps properties) "RoleName")))),
               σ')
          | inr e => (Rejected e, σ')
          end)
     ∧ ((∀ properties, ¬ declaresRole (this σ) role properties) →
        ∃ e, normalizeArnRole (VStr role) σ = (Thrown e, σ)
             ∧ eventsOf (normalizeArnRole (VStr role)) σ = []
             ∧ (e = TypeError ∨ e = PlainError "Provided resource is not IAM Role."))
     ∧ (∀ declared,
          resources (this σ) = Some declared →
          lookupChain declared role = Inherited
          ∨ (∃ resource ty, declared !! role = Some resource
                            ∧ prop resource "Type" = Some ty
                            ∧ strictEqStr ty "AWS::IAM::Role" = false) →
          normalizeArnRole (VStr role) σ
          = (Thrown (PlainError "Provided resource is not IAM Role."), σ))
     ∧ (resources (this σ) = None
        ∨ (∃ declared,
             resources (this σ) = Some declared
             ∧ (lookupChain declared role = Missing
                ∨ ∃ resource,
                    declared !! role = Some resource
                    ∧ (prop resource "Type" = None
                       ∨ (prop resource "Type" = Some (VStr "AWS::IAM::Role")
                          ∧ ∃ properties,
                              prop resource "Properties" = Some properties
                              ∧ prop properties "Path" = None)))) →
        normalizeArnRole (VStr role) σ = (Thrown TypeError, σ))).
Proof.
  split.
  - intros Hin. apply lacks_false in Hin.
    assert (Hrun : normalizeArnRole (VStr role) σ = (Resolved (VStr role), σ)).
    { unfold normalizeArnRole. by rewrite Hin. }
    split; [exact Hrun|]. unfold eventsOf. rewrite Hrun. apply drop_all.
  - intros Hnot.
    assert (Hl : lacks ":" role = true).
    { destruct (lacks ":" role) eqn:Hl; [done|]. apply lacks_false in Hl. contradiction. }
    split; [|split; [|split]].
    + intros properties reply w'
        (declared & resource & Hres & Hrole & Hty & Hprops & Hu & Hn) Hacc σ'.
      unfold normalizeArnRole, compiledFullRoleName, lookupChain.
      rewrite Hl, Hres, Hrole, Hty, Hprops, !(prop_defined properties) by done.
      cbn [strictEqStr]. rewrite String.eqb_refl. cbn [negb].
      unfold then_, getAccountId. rewrite Hacc. destruct reply; reflexivity.
    + intros Hnone.
      assert (Hthrown : ∀ e, compiledFullRoleName (this σ) role = inl e →
                normalizeArnRole (VStr role) σ = (Thrown e, σ)
                ∧ eventsOf (normalizeArnRole (VStr role)) σ = []).
      { intros e He.
        assert (Hrun : normalizeArnRole (VStr role) σ = (Thrown e, σ)).
        { unfold normalizeArnRole. by rewrite Hl, He. }
        split; [exact Hrun|]. unfold eventsOf. rewrite Hrun. apply drop_all. }
      assert (Hcases : ∃ e, compiledFullRoleName (this σ) role = inl e
                ∧ (e = TypeError ∨ e = PlainError "Provided resource is not IAM Role.")).
      { unfold compiledFullRoleName, lookupChain.
        destruct (resources (this σ)) as [declared|] eqn:Hres; [|eauto].
        destruct (declared !! role) as [resource|] eqn:Hrole;
          [|destruct (bool_decide _); eauto].
        destruct (prop resource "Type") as [ty|] eqn:Hty; [|eauto].
        destruct (strictEqStr ty "AWS::IAM::Role") eqn:Heq; cbn [negb]; [|eauto].
        apply strictEqStr_true in Heq as ->.
        destruct (prop resource "Properties") as [properties|] eqn:Hprops; [|eauto].
        destruct (prop properties "Path") as [path|] eqn:Hpath; [|eauto].
        destruct (Hnone properties). exists declared, resource.
        repeat split; try done; intros ->; discriminate Hpath. }
      destruct Hcases as (e & He & Hkind). exists e.
      destruct (Hthrown e He) as [Hrun Hev]. by repeat split.
    + intros declared Hres Hother.
      unfold normalizeArnRole, compiledFullRoleName. rewrite Hl, Hres.
      destruct Hother as [Hin|(resource & ty & Hrole & Hty & Hne)].
      * by rewrite Hin.
      * unfold lookupChain. by rewrite Hrole, Hty, Hne.
    + unfold normalizeArnRole, compiledFullRoleName. rewrite Hl.
      intros [Hres|(declared & Hres & [Hmiss|(resource & Hrole & Hcase)])];
        rewrite Hres; [reflexivity | by rewrite Hmiss |].
      unfold lookupChain. rewrite Hrole.
      destruct Hcase as [Hty|(Hty & properties & Hprops & Hpath)];
        rewrite Hty; [reflexivity|].
      cbn [strictEqStr]. rewrite String.eqb_refl. cbn [negb].
      by rewrite Hprops, Hpath.
Qed.

End RoleResolver.

(** ** The loader *)

Section LoaderProperties.

Context `{Loader}.

(** C9, as the code has it.  The loader changes the working directory of the
    process to the directory of the root document and leaves it changed: the
    state of the process after the load is the one [process.chdir] produced.
    The document is read and its references are resolved in that state; no
    base is passed to the resolution. *)
Theorem C9_parse_changes_directory (yamlFilePath : string) (pr pr' : Process) :
  process_chdir (parentDir yamlFilePath) pr = inr pr' →
  (parse yamlFilePath pr).2 = pr'
  ∧ parse yamlFilePath pr
    = match utils_readFileSync pr' yamlFilePath with
      | inl e => (Thrown e, pr')
      | inr root =>
          (match resolveRefs pr' root with
           | inr resolved => Resolved resolved
           | inl e => Rejected e
           end, pr')
      end.
Proof.
  intros Hcd. unfold parse. rewrite Hcd.
  destruct (utils_readFileSync pr' yamlFilePath); split; reflexivity.
Qed.

End LoaderProperties.

Set Warnings "-clear-no-such-hyp".

(** * Further properties *)

(** ** The listing *)

Section Listing.

Context `{platform : Host}.

Lemma fold_newer_ge (content : list S3Entry) (current : Z) :
  current ≤ fold_left newer content current.
Proof. rewrite fold_newer. apply fold_max_ge_init. Qed.

(** X1. Whatever the store answers, and however the search ends, it leaves
    the plugin as it was and adds nothing to the trace but listing requests;
    a maximum it returns is never below the one it was started with. *)
Theorem searchLatest_only_lists (fuel : nat) (current : Z) (token : value)
    (σ σ' : Sigma) (r : outcome Z) :
  searchLatest fuel current token σ = Some (r, σ') →
  this σ' = this σ
  ∧ grows isListing σ σ'
  ∧ (∀ e, r ≠ Thrown e)
  ∧ (∀ t, r = Resolved t → current ≤ t).
Proof.
  revert current token σ. induction fuel as [|fuel IH]; intros current token σ;
    cbn [searchLatest]; [discriminate|].
  assert (Hreq : this (request "S3" "listObjectsV2" (listParams (this σ) token) σ).2
                 = this σ
                 ∧ grows isListing σ
                     (request "S3" "listObjectsV2" (listParams (this σ) token) σ).2
                 ∧ ∀ e, (request "S3" "listObjectsV2" (listParams (this σ) token) σ).1
                        ≠ Thrown e).
  { split; [|split].
    - unfold request. by destruct (provider_request _ _ _ _ _ _).
    - apply grows_request. unfold isListing. eauto.
    - intros e. unfold request. destruct (provider_request _ _ _ _ _ _) as [[x|e'] w];
        discriminate. }
  destruct (request "S3" "listObjectsV2" (listParams (this σ) token) σ)
    as [[result|e|e] σ1]; cbn [fst snd] in Hreq; destruct Hreq as [Hthis [Hgrow Hthrown]].
  - destruct (truncatedOf result).
    + intros Hrun. apply IH in Hrun as [Hthis' [Hgrow' [Hthrown' Hmax]]].
      split; [congruence|]. split; [by eapply grows_trans|]. split; [done|].
      intros t Ht. pose proof (fold_newer_ge (contentsOf result) current).
      specialize (Hmax t Ht). lia.
    + intros [= <- <-]. split; [done|]. split; [done|]. split; [discriminate|].
      intros t [= <-]. apply fold_newer_ge.
  - intros [= <- <-]. split; [done|]. split; [done|]. split; [discriminate|].
    discriminate.
  - by destruct (Hthrown e).
Qed.

Lemma listRequests_app (p : Plugin) (token : value) (l1 l2 : list ListPage) :
  listRequests p token (l1 ++ l2)
  = listRequests p token l1 ++ listRequests p (tokenAfter token l1) l2.
Proof.
  revert token. induction l1 as [|page l1 IH]; intros token; [reflexivity|].
  cbn [app listRequests]. by rewrite IH.
Qed.

(** The events of a listing that breaks after [pages]. *)
Lemma searchLatest_breaks (p : Plugin) (w : World) (token : value)
    (pages : list ListPage) (e : error) (w' : World) :
  breaks p w token pages e w' →
  ∀ (fuel : nat) (current : Z) (tr : list event),
    (length pages < fuel)%nat →
    searchLatest fuel current token {| this := p; world := w; trace := tr |}
    = Some (Rejected e,
            {| this := p; world := w';
               trace := tr ++ listRequests p token pages
                        ++ [Request "S3" "listObjectsV2"
                              (listParams p (tokenAfter token pages))
                              (stage (options p)) (region (options p))] |}).
Proof.
  induction 1 as [w token e w' Hreq | w token page w' pages e w'' Hreq Htr _ IH];
    intros fuel current tr Hfuel;
    (destruct fuel as [|fuel]; [simpl in Hfuel; lia|]);
    cbn [searchLatest]; unfold request; cbn [this world trace]; rewrite Hreq.
  - reflexivity.
  - cbn [contentsOf truncatedOf nextTokenOf]. rewrite Htr.
    rewrite IH by (simpl in Hfuel; lia).
    cbn [listRequests tokenAfter fold_left app]. rewrite <- app_assoc. reflexivity.
Qed.

(** X2. When the store rejects a listing request, be it the first or one
    that follows pages flagged by [Truncated], both variants of the locator
    are rejected with the store's error: the pages read so far are
    discarded, no directory is recorded, and no request follows the rejected
    one. *)
Theorem locator_passes_on_rejection (σ : Sigma) (pages : list ListPage)
    (e : error) (w' : World) (fuel : nat) :
  breaks (this σ) (world σ) VUndef pages e w' →
  (length pages < fuel)%nat →
  let σ' := {| this := this σ; world := w';
               trace := (trace σ ++ [Log "Determine last deployment ..."])
                        ++ listRequests (this σ) VUndef pages
                        ++ [Request "S3" "listObjectsV2"
                              (listParams (this σ) (tokenAfter VUndef pages))
                              (stage (options (this σ))) (region (options (this σ)))] |} in
  getLastDeploymentDirectory fuel σ = Some (Rejected e, σ')
  ∧ setLastDeploymentDirectory fuel σ = Some (Rejected e, σ').
Proof.
  intros Hb Hfuel σ'.
  unfold getLastDeploymentDirectory, setLastDeploymentDirectory, locate, emit.
  rewrite (searchLatest_breaks _ _ _ _ _ _ Hb fuel 0 _ Hfuel). split; reflexivity.
Qed.

Lemma toISOString_range (t : Z) :
  Date.toISOString t = None ↔ Date.maxTime < Z.abs t.
Proof.
  unfold Date.toISOString. destruct (Z.leb_spec (Z.abs t) Date.maxTime).
  - destruct (Date.civil _) as [[y m] d]. split; [discriminate | lia].
  - split; [done | reflexivity].
Qed.

(** X3. A newest timestamp beyond 8.64e15, the range of [Date], names no
    directory: the locator is rejected with the RangeError of
    [toISOString], after the whole listing was read, and records nothing. *)
Theorem locator_rejects_time_beyond_dates (σ : Sigma) (pages : list ListPage)
    (w' : World) (fuel : nat) :
  serves (this σ) (world σ) VUndef pages w' →
  (length pages ≤ fuel)%nat →
  Date.maxTime < latestOf pages →
  let σ' := {| this := this σ; world := w';
               trace := (trace σ ++ [Log "Determine last deployment ..."])
                        ++ listRequests (this σ) VUndef pages |} in
  getLastDeploymentDirectory fuel σ = Some (Rejected RangeError, σ')
  ∧ setLastDeploymentDirectory fuel σ = Some (Rejected RangeError, σ').
Proof.
  intros Hs Hfuel Hbig σ'.
  unfold getLastDeploymentDirectory, setLastDeploymentDirectory.
  rewrite !(locate_serves _ _ _ _ _ Hs Hfuel). fold σ'. unfold located.
  assert (Hnone : Date.toISOString (latestOf pages) = None).
  { apply toISOString_range. unfold Date.maxTime in *. lia. }
  unfold deploymentDirectory. rewrite Hnone.
  destruct (Z.eqb_spec (latestOf pages) 0) as [Hz|_].
  { unfold Date.maxTime in Hbig. lia. }
  split; reflexivity.
Qed.

End Listing.

(** ** The request for the template *)

Section TemplateRequest.

Context `{platform : Host}.

Lemma copy_fields (source : obj) (l : list (string * string)) (params : obj) :
  NoDup l.*2 →
  let copy := λ (clonedParams : obj) (element : string * string),
    let v := field source element.1 in
    if truthy v then <[element.2 := v]> clonedParams else clonedParams in
  (∀ src dst, (src, dst) ∈ l →
     fold_left copy l params !! dst
     = if truthy (field source src) then Some (field source src) else params !! dst)
  ∧ (∀ k, k ∉ l.*2 → fold_left copy l params !! k = params !! k).
Proof.
  intros Hnd copy. revert params.
  induction l as [|[src0 dst0] l IH]; intros params.
  - split; [intros src dst Hin; inversion Hin | reflexivity].
  - apply NoDup_cons in Hnd as [Hfresh Hnd]. specialize (IH Hnd).
    cbn [fold_left]. destruct (IH (copy params (src0, dst0))) as [IHin IHout].
    assert (Hstep : ∀ k, k ≠ dst0 → copy params (src0, dst0) !! k = params !! k).
    { intros k Hk. unfold copy. cbn [fst snd]. destruct (truthy _); [|done].
      by rewrite lookup_insert_ne. }
    split.
    + intros src dst Hin. apply elem_of_cons in Hin as [[= -> ->]|Hin].
      * rewrite IHout by exact Hfresh. unfold copy. cbn [fst snd].
        destruct (truthy (field source src0)); [apply lookup_insert_eq|done].
      * rewrite (IHin _ _ Hin). destruct (truthy (field source src)); [done|].
        apply Hstep. intros ->. apply Hfresh.
        apply list_elem_of_fmap. by exists (src, dst0).
    + intros k Hk. cbn [fmap list_fmap] in Hk.
      apply not_elem_of_cons in Hk as [Hne Hk]. rewrite IHout by exact Hk.
      by apply Hstep.
Qed.

Lemma encryption_keeps_others (p : Plugin) (params : obj) (k : string) :
  k ∉ encryptionFields.*2 →
  setServersideS3EncryptionOptions p params !! k = params !! k.
Proof.
  intros Hk. unfold setServersideS3EncryptionOptions.
  destruct (truthy _); [|done].
  apply (copy_fields _ encryptionFields params); [|done].
  apply (bool_decide_unpack _). by vm_compute.
Qed.

(** X4. Without a deployment-bucket object the parameters of a request are
    passed on as they are.  With one, each of the five encryption fields
    that is set (read under its source name, so the SSE customer algorithm
    under the name 'sseCustomerAlgorithim') is copied under its request
    name, overwriting what the parameters had there; a field that is not set
    leaves the parameter alone; and no other parameter is touched. *)
Theorem encryption_options_copied (p : Plugin) (params : obj) :
  let deploymentBucketObject := field (providerObj p) "deploymentBucketObject" in
  let result := setServersideS3EncryptionOptions p params in
  (truthy deploymentBucketObject = false → result = params)
  ∧ (truthy deploymentBucketObject = true →
     ∀ src dst, (src, dst) ∈ encryptionFields →
       result !! dst
       = if truthy (field (ownProps deploymentBucketObject) src)
         then Some (field (ownProps deploymentBucketObject) src)
         else params !! dst)
  ∧ (∀ k, k ∉ encryptionFields.*2 → result !! k = params !! k).
Proof.
  intros dbo result. unfold result, setServersideS3EncryptionOptions. fold dbo.
  assert (Hnd : NoDup encryptionFields.*2).
  { apply (bool_decide_unpack _). by vm_compute. }
  destruct (copy_fields (ownProps dbo) encryptionFields params Hnd) as [Hin Hout].
  destruct (truthy dbo); split; try done; split; try done.
Qed.

Lemma templateParams_names (p : Plugin) (directory : value) :
  templateParams p directory !! "Bucket" = Some (bucketName p)
  ∧ templateParams p directory !! "Key"
    = Some (VStr (toStr directory +:+ "/" +:+ "compiled-cloudformation-template.json")).
Proof.
  unfold templateParams. split.
  - rewrite encryption_keeps_others
      by (apply (bool_decide_unpack _); by vm_compute).
    apply lookup_insert_eq.
  - rewrite encryption_keeps_others
      by (apply (bool_decide_unpack _); by vm_compute).
    rewrite lookup_insert_ne by done. apply lookup_insert_eq.
Qed.

(** X5. When the store rejects the [getObject] request, the fetch is
    rejected with the store's error after that one request, and the plugin
    is as before: no hash, no template.  The request names the bucket and
    the key of the compiled template under the directory, whatever the
    encryption options add. *)
Theorem fetch_passes_on_rejection (σ : Sigma) (directory : value) (e : error)
    (w' : World) :
  let p := this σ in
  let sent := Request "S3" "getObject" (templateParams p directory)
                (stage (options p)) (region (options p)) in
  provider_request (world σ) "S3" "getObject" (templateParams p directory)
    (stage (options p)) (region (options p)) = (inr e, w') →
  downloadTemplate directory σ
  = (Rejected e,
     {| this := p; world := w';
        trace := (trace σ ++ [Log "Downloading CloudFormation file from S3 ..."])
                 ++ [sent] |})
  ∧ templateParams p directory !! "Bucket" = Some (bucketName p)
  ∧ templateParams p directory !! "Key"
    = Some (VStr (toStr directory +:+ "/" +:+ "compiled-cloudformation-template.json")).
Proof.
  intros p sent Hreq. split; [|apply templateParams_names].
  unfold downloadTemplate, then_, request, emit. cbn [this world trace].
  fold p. by rewrite Hreq.
Qed.

Lemma downloadTemplate_not_thrown (directory : value) (σ : Sigma) (e : error) :
  (downloadTemplate directory σ).1 ≠ Thrown e.
Proof.
  unfold downloadTemplate, then_, request.
  destruct (provider_request _ _ _ _ _ _) as [[r|e'] w]; [|discriminate].
  unfold checkResponse. destruct (accepted (objectOf r)); [|discriminate].
  unfold parseTemplate. destruct (JSON_parse _); discriminate.
Qed.

(** X6. The hook [aws:deploy:function:downloadTemplate], on a store that
    serves the listing: without a newest timestamp it is rejected with the
    error of a missing deployment and asks for no object; otherwise it asks
    for exactly the compiled template under the directory of the newest
    timestamp, in the bucket that was listed, and ends as that fetch ends. *)
Theorem hook_fetches_template_of_latest (σ : Sigma) (pages : list ListPage)
    (w' : World) (fuel : nat) :
  serves (this σ) (world σ) VUndef pages w' →
  (length pages ≤ fuel)%nat →
  let σ0 := {| this := this σ; world := w';
               trace := (trace σ ++ [Log "Determine last deployment ..."])
                        ++ listRequests (this σ) VUndef pages |} in
  (latestOf pages = 0 →
   downloadTemplateHook fuel σ = Some (Rejected noPriorDeployment, σ0))
  ∧ (latestOf pages ≠ 0 →
     ∀ dir, deploymentDirectory (this σ) (latestOf pages) = Some dir →
       let σ1 := modify (set_directory (VStr dir)) σ0 in
       downloadTemplateHook fuel σ = Some (downloadTemplate (VStr dir) σ1)
       ∧ templateParams (this σ1) (VStr dir) !! "Bucket" = Some (bucketName (this σ))
       ∧ templateParams (this σ1) (VStr dir) !! "Key"
         = Some (VStr (dir +:+ "/" +:+ "compiled-cloudformation-template.json"))).
Proof.
  intros Hs Hfuel σ0. unfold downloadTemplateHook, getLastDeploymentDirectory.
  rewrite (locate_serves _ _ _ _ _ Hs Hfuel). fold σ0. unfold located.
  split.
  - intros Hz. by rewrite Hz.
  - intros Hnz dir Hdir. set (σ1 := modify (set_directory (VStr dir)) σ0).
    destruct (Z.eqb_spec (latestOf pages) 0) as [Hz|_]; [contradiction|].
    change (this σ0) with (this σ). rewrite Hdir. fold σ1. split.
    + unfold downloadTemplateFromS3. change (directory (this σ1)) with (VStr dir).
      pose proof (downloadTemplate_not_thrown (VStr dir) σ1) as Hnt.
      destruct (downloadTemplate (VStr dir) σ1) as [[v|e|e] σ2]; try reflexivity.
      by destruct (Hnt e).
    + apply (templateParams_names (this σ1) (VStr dir)).
Qed.

End TemplateRequest.

(** ** Roles *)

Section Roles.

Context `{platform : Host}.

Lemma first_of_array (first : value) (rest : list value) :
  prop (VArr (first :: rest)) "0" = Some first.
Proof.
  unfold prop, ownProps, indexed. cbn [imap list_to_map foldr].
  change (pretty 0%nat) with "0". by rewrite lookup_insert_eq.
Qed.

(** X7. A role given as an attribute reference ([Fn::GetAtt] with a list)
    costs exactly one request, IAM [getRole] for the first element of the
    list, whatever attribute the list names after it; the result is the ARN
    of the reply, and a rejection is passed on. *)
Theorem resolver_looks_up_attribute_reference (σ : Sigma) (reference : obj)
    (target : value) (more : list value) (reply : response + error) (w' : World) :
  reference !! "Fn::GetAtt" = Some (VArr (target :: more)) →
  let sent := Request "IAM" "getRole" (<["RoleName" := target]> ∅)
                (stage (options (this σ))) (region (options (this σ))) in
  let σ' := {| this := this σ; world := w'; trace := trace σ ++ [sent] |} in
  provider_request (world σ) "IAM" "getRole" (<["RoleName" := target]> ∅)
    (stage (options (this σ))) (region (options (this σ))) = (reply, w') →
  normalizeArnRole (VObj reference) σ
  = match reply with
    | inl data =>
        (match arnOf data with
         | Some arn => Resolved arn
         | None => Rejected TypeError
         end, σ')
    | inr e => (Rejected e, σ')
    end.
Proof.
  intros Hatt sent σ' Hreq. unfold normalizeArnRole.
  cbn [prop ownProps]. rewrite Hatt.
  cbn [default from_option id mbind option_bind]. rewrite first_of_array.
  unfold then_, request. rewrite Hreq.
  destruct reply as [data|e]; [|reflexivity].
  destruct (arnOf data); reflexivity.
Qed.

Lemma normalizeArnRole_sends_no_update (role : value) (σ : Sigma) :
  filter (λ ev, isConfigurationUpdate ev = true) (eventsOf (normalizeArnRole role) σ) = [].
Proof.
  assert (Hall : Forall (λ ev, isConfigurationUpdate ev = false)
                   (eventsOf (normalizeArnRole role) σ)).
  { apply grows_eventsOf, grows_normalizeArnRole; [reflexivity|].
    intros params st rg. reflexivity. }
  induction Hall as [|ev l Hev _ IH]; [reflexivity|].
  rewrite filter_cons_False by (rewrite Hev; discriminate). exact IH.
Qed.

Lemma trace_normalizeArnRole (role : value) (σ : Sigma) :
  trace (normalizeArnRole role σ).2
  = trace σ ++ eventsOf (normalizeArnRole role) σ.
Proof.
  destruct (grows_normalizeArnRole (λ _, True) role σ I (λ _ _ _, I))
    as [new [Hnew _]].
  unfold eventsOf. rewrite Hnew. by rewrite drop_app_length.
Qed.

(** X8. With a role in the configuration that is no placeholder, the
    update depends on the resolution of the role: if it resolves, exactly
    one update is sent, and its patch is the assembled one with the resolved
    ARN under 'Role', so it is sent even when no other field is set; if the
    resolution throws or is rejected, the operation ends the same way and no
    update is sent. *)
Theorem update_waits_for_role (σ : Sigma) (params : obj) (role : value) :
  let f := functionObj (options (this σ)) in
  let p := providerObj (this σ) in
  buildParams f (serviceObject (this σ)) p = inr params →
  roleOf f p = Some role →
  (∀ roleArn σ1,
     normalizeArnRole role σ = (Resolved roleArn, σ1) →
     filter (λ ev, isConfigurationUpdate ev = true)
       (eventsOf updateFunctionConfiguration σ)
     = [Request "Lambda" "updateFunctionConfiguration" (<["Role" := roleArn]> params)
          (stage (options (this σ1))) (region (options (this σ1)))])
  ∧ (∀ e σ1,
       normalizeArnRole role σ = (Rejected e, σ1) →
       updateFunctionConfiguration σ = (Rejected e, σ1)
       ∧ filter (λ ev, isConfigurationUpdate ev = true)
           (eventsOf updateFunctionConfiguration σ) = [])
  ∧ (∀ e σ1,
       normalizeArnRole role σ = (Thrown e, σ1) →
       updateFunctionConfiguration σ = (Thrown e, σ1)
       ∧ filter (λ ev, isConfigurationUpdate ev = true)
           (eventsOf updateFunctionConfiguration σ) = []).
Proof.
  intros f p Hb Hr.
  assert (Hrun : updateFunctionConfiguration σ
                 = then_ (normalizeArnRole role)
                     (λ roleArn, callUpdateFunctionConfiguration
                                   (<["Role" := roleArn]> params)) σ).
  { unfold updateFunctionConfiguration. fold f p. by rewrite Hb, Hr. }
  pose proof (normalizeArnRole_sends_no_update role σ) as Hquiet.
  pose proof (trace_normalizeArnRole role σ) as Htrace.
  split; [|split].
  - intros roleArn σ1 Hrole. unfold eventsOf in *. rewrite Hrun. unfold then_.
    rewrite Hrole in *. cbn [snd] in Htrace, Hquiet.
    unfold callUpdateFunctionConfiguration, then_, request, log, emit.
    destruct (provider_request _ _ _ _ _ _) as [[x|e] w]; cbn [snd trace];
      rewrite Htrace, <- ?app_assoc, drop_app_length, filter_app, Hquiet;
      reflexivity.
  - intros e σ1 Hrole. unfold eventsOf in *. rewrite Hrun. unfold then_.
    rewrite Hrole in *. split; [reflexivity | exact Hquiet].
  - intros e σ1 Hrole. unfold eventsOf in *. rewrite Hrun. unfold then_.
    rewrite Hrole in *. split; [reflexivity | exact Hquiet].
Qed.

(** X9. The reconciler never gets as far as an attribute reference.  A role
    it passes to the resolver is no object; so when it is no string either
    (a number, a boolean, [null]), the resolver reads [Fn::GetAtt] off it in
    vain and throws a TypeError, and so does the update, before anything is
    asked or logged. *)
Theorem update_never_looks_up_reference (σ : Sigma) (params : obj) (role : value) :
  let f := functionObj (options (this σ)) in
  let p := providerObj (this σ) in
  buildParams f (serviceObject (this σ)) p = inr params →
  roleOf f p = Some role →
  isObject role = false
  ∧ ((∀ s, role ≠ VStr s) →
     normalizeArnRole role σ = (Thrown TypeError, σ)
     ∧ updateFunctionConfiguration σ = (Thrown TypeError, σ)
     ∧ eventsOf updateFunctionConfiguration σ = []).
Proof.
  intros f p Hb Hr.
  assert (Hplain : isObject role = false).
  { unfold roleOf in Hr. apply orElse_Some in Hr as [Hr|Hr]; by eapply concrete_plain. }
  split; [exact Hplain|]. intros Hnostring.
  assert (Hrole : normalizeArnRole role σ = (Thrown TypeError, σ)).
  { destruct role as [| |b|z|s| | |]; try discriminate Hplain; try reflexivity.
    by destruct (Hnostring s). }
  assert (Hrun : updateFunctionConfiguration σ = (Thrown TypeError, σ)).
  { unfold updateFunctionConfiguration. fold f p. rewrite Hb, Hr.
    unfold then_. by rewrite Hrole. }
  split; [exact Hrole|]. split; [exact Hrun|].
  unfold eventsOf. rewrite Hrun. apply drop_all.
Qed.

End Roles.

(** ** The patch, field by field *)

Section Patch.

Context `{platform : Host}.

(** X10. A patch that is assembled always holds the name of the function,
    and holds nothing under any name but the eight of [patchNames]: no code,
    no handler, no runtime. *)
Theorem patch_holds_known_names (f : obj) (s : option obj) (p params : obj) :
  buildParams f s p = inr params →
  params !! "FunctionName" = Some (field f "name")
  ∧ ∀ k, is_Some (params !! k) → k ∈ patchNames.
Proof.
  intros Hb. destruct (buildParams_fields f s p params Hb)
    as [Hname [_ [_ [_ [_ [_ Hother]]]]]].
  split; [exact Hname|]. intros k [v Hk].
  destruct (decide (k ∈ patchNames)) as [Hin|Hout]; [exact Hin|].
  rewrite (Hother k Hout) in Hk. discriminate.
Qed.

(** X11. No structured placeholder reaches the patch below the name of the
    function: the key, the description, the memory size and the timeout are
    no objects; the target of the dead-letter configuration is a set value
    that is no object; the environment holds its variables only, every
    name an identifier, and none of them an object as long as the variables
    are walked by their keys (X16 has the other case); the VPC entry is not
    empty and holds only lists without objects. *)
Theorem patch_forwards_no_placeholder (f : obj) (s : option obj) (p params : obj) :
  buildParams f s p = inr params →
  (∀ k v, k ∈ ["KMSKeyArn"; "Description"; "MemorySize"; "Timeout"] →
     params !! k = Some v → isObject v = false)
  ∧ (∀ v, params !! "DeadLetterConfig" = Some v →
       ∃ target, v = VObj (<["TargetArn" := target]> ∅)
                 ∧ truthy target = true ∧ isObject target = false)
  ∧ (∀ v, params !! "Environment" = Some v →
       ∃ variables, v = VObj (<["Variables" := VObj variables]> ∅)
         ∧ (∀ k, is_Some (variables !! k) → isIdentifier k = true)
         ∧ (isLength (field variables "length") = None →
            ∀ k x, variables !! k = Some x → isObject x = false))
  ∧ (∀ v, params !! "VpcConfig" = Some v →
       ∃ lists : obj, v = VObj lists ∧ lists ≠ ∅
         ∧ ∀ k l, lists !! k = Some l →
             k ∈ ["SecurityGroupIds"; "SubnetIds"] ∧ plainArray l = true).
Proof.
  intros Hb.
  destruct (buildParams_fields f s p params Hb)
    as [_ [Hkms [Hdesc [Hmem [Htime [Hdl _]]]]]].
  destruct (buildParams_inr f s p params Hb) as [Henv Hvpc].
  split; [|split; [|split]].
  - intros k v Hk Hv.
    repeat (apply elem_of_cons in Hk as [->|Hk]); [| | | |inversion Hk].
    + rewrite Hkms in Hv. apply orElse_Some in Hv as [Hv|Hv].
      * by eapply concrete_plain.
      * destruct s as [o|]; [|discriminate]. by eapply concrete_plain.
    + rewrite Hdesc in Hv. by eapply concrete_plain.
    + rewrite Hmem in Hv. apply orElse_Some in Hv as [Hv|Hv]; by eapply concrete_plain.
    + rewrite Htime in Hv. apply orElse_Some in Hv as [Hv|Hv]; by eapply concrete_plain.
  - intros v Hv. rewrite Hdl in Hv. unfold deadLetterOf in Hv.
    destruct (truthy (field f "onError")) eqn:Ht; cbn [andb] in Hv; [|discriminate].
    destruct (isObject (field f "onError")) eqn:Ho; cbn [negb] in Hv; [discriminate|].
    injection Hv as <-. eauto.
  - intros v Hv. rewrite Hv in Henv. unfold environmentOf in Henv.
    destruct (_ || _); [|discriminate].
    destruct (some _ isObject) eqn:Hsome; [discriminate|].
    destruct (forallb _ _) eqn:Hkeys; [|discriminate].
    injection Henv as <-. eexists. split; [reflexivity|]. split.
    + apply (proj1 (keys_checked _) Hkeys).
    + intros Hlen. by apply (some_isObject_false _ Hlen).
  - intros v Hv. rewrite Hvpc, vpcConfigOf_spec in Hv.
    destruct (truthy _ && _) eqn:Hcond; [|discriminate].
    injection Hv as <-. eexists. split; [reflexivity|].
    apply andb_true_iff in Hcond as [_ Hcond].
    destruct (plainArray (field _ "securityGroupIds")) eqn:Hsg,
             (plainArray (field _ "subnetIds")) eqn:Hsn;
      cbn [orb setIf] in *; try discriminate;
      (split; [apply insert_non_empty|]); intros k l Hl.
    + apply lookup_insert_Some in Hl as [[<- <-]|[_ Hl]]; [split; [set_solver|done]|].
      apply lookup_insert_Some in Hl as [[<- <-]|[_ Hl]]; [split; [set_solver|done]|].
      by rewrite lookup_empty in Hl.
    + apply lookup_insert_Some in Hl as [[<- <-]|[_ Hl]]; [split; [set_solver|done]|].
      by rewrite lookup_empty in Hl.
    + apply lookup_insert_Some in Hl as [[<- <-]|[_ Hl]]; [split; [set_solver|done]|].
      by rewrite lookup_empty in Hl.
Qed.

Lemma forallb_false_witness {A} (q : A → bool) (l : list A) :
  forallb q l = false → ∃ x, x ∈ l ∧ q x = false.
Proof.
  induction l as [|x l IH]; cbn [forallb]; [discriminate|].
  destruct (q x) eqn:Hx; cbn [andb].
  - intros Hl. destruct (IH Hl) as [y [Hy Hq]]. exists y. split; [|done].
    by apply list_elem_of_further.
  - intros _. exists x. split; [apply list_elem_of_here | done].
Qed.

(** X12. The assembly of the patch fails in one way only: with the error of
    an invalid environment key, when an environment is set, [_.some] finds
    no object among the merged values, and some merged name is no
    identifier. *)
Theorem patch_fails_only_on_environment_key (f : obj) (s : option obj) (p : obj)
    (e : error) :
  buildParams f s p = inl e →
  let variables := assign2 (field p "environment") (field f "environment") in
  e = invalidEnvironmentKey
  ∧ truthy (field f "environment") || truthy (field p "environment") = true
  ∧ some (VObj variables) isObject = false
  ∧ ∃ k, is_Some (variables !! k) ∧ isIdentifier k = false.
Proof.
  rewrite buildParams_chain. intros Hb variables.
  destruct (environmentOf f p) as [e'|env] eqn:Henv; [|discriminate].
  injection Hb as ->. unfold environmentOf in Henv. fold variables in Henv.
  destruct (_ || _); [|discriminate].
  destruct (some _ isObject) eqn:Hsome; [discriminate|].
  destruct (forallb _ _) eqn:Hkeys; [discriminate|].
  injection Henv as <-. split; [done|]. split; [done|]. split.
  - done.
  - apply forallb_false_witness in Hkeys as [[k x] [Hin Hbad]].
    apply elem_of_map_to_list in Hin. cbn [fst] in Hbad.
    rewrite envKey_isIdentifier in Hbad. exists k. eauto.
Qed.

(** X13. Without a role to resolve and with more than the name in the
    patch, exactly one update is sent, with exactly the assembled patch; the
    operation is fulfilled, after the line of success in the log, when the
    update is acknowledged, and rejected with the error of the platform,
    without that line, when it is not. *)
Theorem update_sends_patch_once (σ : Sigma) (params : obj)
    (reply : response + error) (w' : World) :
  let f := functionObj (options (this σ)) in
  let p := providerObj (this σ) in
  let sent := Request "Lambda" "updateFunctionConfiguration" params
                (stage (options (this σ))) (region (options (this σ))) in
  buildParams f (serviceObject (this σ)) p = inr params →
  roleOf f p = None →
  isEmpty (omit params "FunctionName") = false →
  provider_request (world σ) "Lambda" "updateFunctionConfiguration" params
    (stage (options (this σ))) (region (options (this σ))) = (reply, w') →
  updateFunctionConfiguration σ
  = match reply with
    | inl _ =>
        (Resolved tt,
         {| this := this σ; world := w';
            trace := trace σ
                     ++ [sent;
                         Log ("Successfully updated function: "
                              +:+ toStr (function (options (this σ))))] |})
    | inr e =>
        (Rejected e, {| this := this σ; world := w'; trace := trace σ ++ [sent] |})
    end.
Proof.
  intros f p sent Hb Hr Hne Hreq. unfold updateFunctionConfiguration.
  fold f p. rewrite Hb, Hr, Hne.
  unfold callUpdateFunctionConfiguration, then_, request, log, emit.
  rewrite Hreq. destruct reply; cbn [this world trace];
    rewrite <- ?app_assoc; reflexivity.
Qed.

(** X14. The VPC settings of the function and of the provider are never
    combined: once the function has a [vpc] value that is set, the
    provider's is not looked at, also when the function's holds none of the
    two lists. *)
Theorem function_vpc_hides_provider_vpc (f : obj) (s : option obj) (p params : obj) :
  truthy (field f "vpc") = true →
  buildParams f s p = inr params →
  params !! "VpcConfig" = vpcConfigOf f ∅
  ∧ (plainArray (field (ownProps (field f "vpc")) "securityGroupIds") = false →
     plainArray (field (ownProps (field f "vpc")) "subnetIds") = false →
     params !! "VpcConfig" = None).
Proof.
  intros Hf Hb. destruct (buildParams_inr f s p params Hb) as [_ Hvpc].
  assert (Hsame : vpcConfigOf f p = vpcConfigOf f ∅).
  { unfold vpcConfigOf, or_. by rewrite Hf. }
  split; [congruence|]. intros Hsg Hsn.
  rewrite Hvpc, vpcConfigOf_spec. unfold or_. rewrite Hf, Hsg, Hsn.
  by rewrite andb_false_r.
Qed.

(** X15. An environment that is set and empty is not the same as none: the
    patch then holds an environment with no variables, which is more than
    the name, so that an update is due. *)
Theorem empty_environment_is_sent (f : obj) (s : option obj) (p : obj) :
  truthy (field f "environment") || truthy (field p "environment") = true →
  assign2 (field p "environment") (field f "environment") = ∅ →
  ∃ params,
    buildParams f s p = inr params
    ∧ params !! "Environment" = Some (VObj (<["Variables" := VObj ∅]> ∅))
    ∧ isEmpty (omit params "FunctionName") = false.
Proof.
  intros Hset Hempty.
  assert (Henv : environmentOf f p = inr (Some (VObj (<["Variables" := VObj ∅]> ∅)))).
  { unfold environmentOf. rewrite Hset, Hempty. reflexivity. }
  destruct (buildParams_environment f s p _ Henv) as [params Hb].
  exists params. split; [exact Hb|].
  destruct (buildParams_inr f s p params Hb) as [Henv' _].
  assert (Hlook : params !! "Environment" = Some (VObj (<["Variables" := VObj ∅]> ∅)))
    by congruence.
  split; [exact Hlook|].
  unfold isEmpty, omit. apply bool_decide_eq_false. intros Hnone.
  assert (Hdel : delete "FunctionName" params !! "Environment"
                 = Some (VObj (<["Variables" := VObj ∅]> ∅))).
  { by rewrite lookup_delete_ne. }
  rewrite Hnone, lookup_empty in Hdel. discriminate.
Qed.

End Patch.

(** ** Exceptions *)

Section Exceptions.

Context `{platform : Host}.

Lemma then_request_not_thrown {B} (svc op : string) (params : obj)
    (k : response → M B) (σ : Sigma) (e : error) :
  (then_ (request svc op params) k σ).1 ≠ Thrown e.
Proof.
  unfold then_, request. destruct (provider_request _ _ _ _ _ _) as [[x|e'] w];
    [|discriminate].
  destruct (k x _) as [[b|e'|e'] σ2]; discriminate.
Qed.

Lemma then_getAccountId_not_thrown {B} (k : value → M B) (σ : Sigma) (e : error) :
  (then_ getAccountId k σ).1 ≠ Thrown e.
Proof.
  unfold then_, getAccountId. destruct (provider_getAccountId _) as [[x|e'] w];
    [|discriminate].
  destruct (k x _) as [[b|e'|e'] σ2]; discriminate.
Qed.

Lemma normalizeArnRole_thrown (role : value) (σ : Sigma) (e : error) :
  (normalizeArnRole role σ).1 = Thrown e → (normalizeArnRole role σ).2 = σ.
Proof.
  unfold normalizeArnRole.
  assert (Hother : ∀ o : option value,
    (match o with
     | None => (Thrown TypeError, σ)
     | Some roleName =>
         then_ (request "IAM" "getRole" (<["RoleName" := roleName]> ∅))
           (λ data, match arnOf data with
                    | Some arn => ret arn
                    | None => throw TypeError
                    end) σ
     end).1 = Thrown e →
    (match o with
     | None => (Thrown TypeError, σ)
     | Some roleName =>
         then_ (request "IAM" "getRole" (<["RoleName" := roleName]> ∅))
           (λ data, match arnOf data with
                    | Some arn => ret arn
                    | None => throw TypeError
                    end) σ
     end).2 = σ).
  { intros [roleName|]; [|reflexivity]. intros Ht.
    by destruct (then_request_not_thrown _ _ _ _ _ _ Ht). }
  destruct role; try apply Hother.
  destruct (lacks ":" s); [|discriminate].
  destruct (compiledFullRoleName (this σ) s); [reflexivity|].
  intros Ht. by destruct (then_getAccountId_not_thrown _ _ _ Ht).
Qed.

(** X17. An exception of [normalizeArnRole] or of
    [updateFunctionConfiguration] comes before anything is done: the plugin,
    the world and the trace are as they were, so nothing was asked of the
    platform and nothing was logged.  What fails after a request was sent
    is a rejection, never an exception. *)
Theorem exceptions_precede_effects (σ : Sigma) (e : error) :
  (∀ role, (normalizeArnRole role σ).1 = Thrown e → (normalizeArnRole role σ).2 = σ)
  ∧ ((updateFunctionConfiguration σ).1 = Thrown e →
     (updateFunctionConfiguration σ).2 = σ).
Proof.
  split; [intros role; apply normalizeArnRole_thrown|].
  unfold updateFunctionConfiguration.
  destruct (buildParams _ _ _) as [e'|params]; [reflexivity|].
  destruct (roleOf _ _) as [role|].
  - unfold then_.
    pose proof (normalizeArnRole_thrown role σ) as Hrole.
    destruct (normalizeArnRole role σ) as [[arn|e'|e'] σ1]; cbn [fst snd] in *.
    + intros Ht. exfalso. revert Ht.
      destruct (callUpdateFunctionConfiguration _ σ1) as [[u|e'|e'] σ2]; discriminate.
    + discriminate.
    + intros [= ->]. by eapply Hrole.
  - destruct (isEmpty _); [reflexivity|].
    intros Ht. by destruct (then_request_not_thrown _ _ _ _ _ _ Ht).
Qed.

(** X18. [deployFunction] throws in four cases and no other: the function
    is unknown to the service; the artifact cannot be read; the plugin holds
    no descriptor of the deployed function; or an upload is due and the size
    of the artifact cannot be obtained.  In each the error is the one of the
    failing step, and nothing was logged or sent. *)
Theorem deployFunction_throws_before_acting (σ : Sigma) (e : error) :
  let p := this σ in
  ((deployFunction σ).1 = Thrown e → (deployFunction σ).2 = σ)
  ∧ ((deployFunction σ).1 = Thrown e
  ↔ getFunction (function (options p)) = inl e
    ∨ ∃ functionObject,
        getFunction (function (options p)) = inr functionObject
        ∧ (fs_readFileSync (world σ) (artifactFilePath p functionObject) = inl e
           ∨ ∃ data,
               fs_readFileSync (world σ) (artifactFilePath p functionObject) = inr data
               ∧ ((remoteCodeSha256 p = None ∧ e = TypeError)
                  ∨ ∃ remoteHash,
                      remoteCodeSha256 p = Some remoteHash
                      ∧ truthy (force (options p))
                        || negb (strictEqStr remoteHash (sha256_base64 data)) = true
                      ∧ fs_statSync_size (world σ) (artifactFilePath p functionObject)
                        = inl e))).
Proof.
  intros p. split.
  { unfold deployFunction. fold p.
    destruct (getFunction (function (options p))) as [e0|functionObject];
      [reflexivity|].
    destruct (fs_readFileSync (world σ) (artifactFilePath p functionObject))
      as [e1|data]; [reflexivity|].
    destruct (remoteCodeSha256 p) as [remoteHash|]; [|reflexivity].
    destruct (strictEqStr remoteHash (sha256_base64 data)
              && negb (truthy (force (options p)))); [discriminate|].
    destruct (fs_statSync_size (world σ) (artifactFilePath p functionObject))
      as [e2|size]; [reflexivity|].
    intros Ht. by destruct (then_request_not_thrown _ _ _ _ _ _ Ht). }
  unfold deployFunction. fold p. split.
  - destruct (getFunction (function (options p))) as [e0|functionObject]
      eqn:Hfun; [intros [= ->]; by left|].
    destruct (fs_readFileSync (world σ) (artifactFilePath p functionObject))
      as [e1|data] eqn:Hread.
    { intros [= ->]. right. exists functionObject. split; [done|]. by left. }
    destruct (remoteCodeSha256 p) as [remoteHash|] eqn:Hremote.
    2:{ intros [= <-]. right. exists functionObject. split; [done|]. right.
        exists data. split; [done|]. by left. }
    destruct (strictEqStr remoteHash (sha256_base64 data)
              && negb (truthy (force (options p)))) eqn:Hskip; [discriminate|].
    destruct (fs_statSync_size (world σ) (artifactFilePath p functionObject))
      as [e2|size] eqn:Hstat.
    + intros [= ->]. right. exists functionObject. split; [done|]. right.
      exists data. split; [done|]. right. exists remoteHash. split; [done|].
      split; [|done].
      destruct (strictEqStr _ _), (truthy _); cbn in *; congruence.
    + intros Ht. by destruct (then_request_not_thrown _ _ _ _ _ _ Ht).
  - intros [Hfun|[functionObject [Hfun [Hread|[data [Hread Hrest]]]]]];
      rewrite Hfun; [reflexivity | by rewrite Hread |].
    rewrite Hread.
    destruct Hrest as [[Hremote ->]|[remoteHash [Hremote [Hgate Hstat]]]];
      rewrite Hremote; [reflexivity|].
    assert (Hskip : strictEqStr remoteHash (sha256_base64 data)
                    && negb (truthy (force (options p))) = false).
    { destruct (strictEqStr _ _), (truthy _); cbn in *; congruence. }
    by rewrite Hskip, Hstat.
Qed.

End Exceptions.

(** ** The pattern of the keys *)

Section Matching.

Context {R : Type}.

Lemma star_none (p : ascii → bool) (cap : option (list ascii))
    (k : @Regex.cont R) (s : list ascii) :
  (∀ a b, s = a ++ b → k b cap = None) → Regex.star p cap k s = None.
Proof.
  induction s as [|c s IH]; intros Hk; cbn [Regex.star].
  - by apply (Hk [] []).
  - rewrite IH by (intros a b ->; by apply (Hk (c :: a) b)).
    rewrite (Hk [] (c :: s)) by done. by destruct (p c).
Qed.

Lemma star_here (p : ascii → bool) (cap : option (list ascii))
    (k : @Regex.cont R) (s : list ascii) :
  (∀ a b, s = a ++ b → a ≠ [] → Forall (λ c, p c = true) a → k b cap = None) →
  Regex.star p cap k s = k s cap.
Proof.
  induction s as [|c s IH]; intros Hk; cbn [Regex.star]; [done|].
  destruct (p c) eqn:Hc; [|done].
  rewrite IH.
  - rewrite (Hk [c] s); [done..|]. by constructor.
  - intros a b -> Ha Hp. apply (Hk (c :: a) b); [done|done|by constructor].
Qed.

Lemma star_app (p : ascii → bool) (cap : option (list ascii))
    (k : @Regex.cont R) (s1 s2 : list ascii) (r : R) :
  Forall (λ c, p c = true) s1 →
  Regex.star p cap k s2 = Some r →
  Regex.star p cap k (s1 ++ s2) = Some r.
Proof.
  induction 1 as [|c s1 Hc _ IH]; intros Hr; cbn [app Regex.star]; [done|].
  by rewrite Hc, IH.
Qed.

Lemma star_some (p : ascii → bool) (cap : option (list ascii))
    (k : @Regex.cont R) (s : list ascii) (r : R) :
  Regex.star p cap k s = Some r →
  ∃ a b, s = a ++ b ∧ Forall (λ c, p c = true) a ∧ k b cap = Some r.
Proof.
  induction s as [|c s IH]; cbn [Regex.star].
  - intros Hr. by exists [], [].
  - destruct (p c) eqn:Hc; [|intros Hr; by exists [], (c :: s)].
    destruct (Regex.star p cap k s) as [r'|] eqn:Hs;
      [|intros Hr; by exists [], (c :: s)].
    intros [= ->]. destruct (IH eq_refl) as (a & b & -> & Ha & Hb).
    exists (c :: a), b. split; [done|]. split; [by constructor | done].
Qed.

Lemma starLazy_some (p : ascii → bool) (cap : option (list ascii))
    (k : @Regex.cont R) (s : list ascii) (r : R) :
  Regex.starLazy p cap k s = Some r →
  ∃ a b, s = a ++ b ∧ Forall (λ c, p c = true) a ∧ k b cap = Some r.
Proof.
  induction s as [|c s IH]; cbn [Regex.starLazy].
  - destruct (k [] cap) eqn:Hk; [|discriminate]. intros [= ->]. by exists [], [].
  - destruct (k (c :: s) cap) eqn:Hk.
    { intros [= ->]. by exists [], (c :: s). }
    destruct (p c) eqn:Hc; [|discriminate]. intros Hr.
    destruct (IH Hr) as (a & b & -> & Ha & Hb).
    exists (c :: a), b. split; [done|]. split; [by constructor | done].
Qed.

Lemma take_prefix {A} (a b : list A) :
  take (length (a ++ b) - length b) (a ++ b) = a.
Proof.
  rewrite length_app.
  replace (length a + length b - length b)%nat with (length a) by lia.
  apply take_app_length.
Qed.

(** [.*?$] on one line takes the whole of it. *)
Lemma lazy_to_end (cap : option (list ascii)) (k : @Regex.cont R) (s : list ascii) :
  Forall (λ c, Regex.dot c = true) s →
  Regex.run (Regex.Cat (Regex.StarLazy Regex.dot) Regex.Eol) s cap k = k [] cap.
Proof.
  cbn [Regex.run]. induction 1 as [|c s Hc _ IH]; cbn [Regex.starLazy].
  - by destruct (k [] cap).
  - by rewrite Hc.
Qed.

(** [.*\/.*?$]: nothing without a ['/']; with the last one before [file],
    all of the input. *)
Lemma tail_none (cap : option (list ascii)) (k : @Regex.cont R) (s : list ascii) :
  "/"%char ∉ s →
  Regex.run (Regex.Cat (Regex.Star Regex.dot)
               (Regex.Cat (Regex.Chr "/")
                  (Regex.Cat (Regex.StarLazy Regex.dot) Regex.Eol))) s cap k = None.
Proof.
  intros Hs. cbn [Regex.run]. apply star_none. intros a [|d b] ->; [done|].
  destruct (Ascii.eqb_spec "/" d) as [<-|]; [|done].
  destruct Hs. apply elem_of_app. right. apply list_elem_of_here.
Qed.

Lemma tail_all (cap : option (list ascii)) (k : @Regex.cont R)
    (t file : list ascii) (r : R) :
  Forall (λ c, Regex.dot c = true) t →
  Forall (λ c, Regex.dot c = true) file →
  "/"%char ∉ file →
  k [] cap = Some r →
  Regex.run (Regex.Cat (Regex.Star Regex.dot)
               (Regex.Cat (Regex.Chr "/")
                  (Regex.Cat (Regex.StarLazy Regex.dot) Regex.Eol)))
    (t ++ "/"%char :: file) cap k = Some r.
Proof.
  intros Ht Hfile Hno Hk.
  change (Regex.star Regex.dot cap
            (λ s' cap', Regex.run (Regex.Cat (Regex.Chr "/")
                                     (Regex.Cat (Regex.StarLazy Regex.dot) Regex.Eol))
                          s' cap' k)
            (t ++ "/"%char :: file) = Some r).
  apply star_app; [done|]. rewrite star_here.
  - change (Regex.run (Regex.Cat (Regex.StarLazy Regex.dot) Regex.Eol) file cap k
            = Some r).
    by rewrite lazy_to_end.
  - intros [|c a] b Heq Ha _; [done|]. injection Heq as <- ->.
    destruct b as [|d b]; [done|]. cbn [Regex.run].
    destruct (Ascii.eqb_spec "/" d) as [<-|]; [|done].
    destruct Hno. apply elem_of_app. right. apply list_elem_of_here.
Qed.

(** [([^/-]+).*\/.*?$]: nothing without a ['/']; on a segment that ends
    before a ['-'] or at the ['/'], the segment. *)
Lemma segment_none (cap : option (list ascii)) (k : @Regex.cont R) (s : list ascii) :
  "/"%char ∉ s →
  Regex.run (Regex.Cat (Regex.Group (Regex.Plus Regex.notSlashDash))
               (Regex.Cat (Regex.Star Regex.dot)
                  (Regex.Cat (Regex.Chr "/")
                     (Regex.Cat (Regex.StarLazy Regex.dot) Regex.Eol)))) s cap k = None.
Proof.
  intros Hs. cbn [Regex.run]. destruct s as [|d s]; [done|].
  destruct (Regex.notSlashDash d); [|done].
  apply star_none. intros a b ->.
  apply (tail_none _ k b). intros Hin. apply Hs.
  apply list_elem_of_further, elem_of_app. by right.
Qed.

Lemma segment_found (cap : option (list ascii)) (k : @Regex.cont R)
    (c : ascii) (seg tail file : list ascii) (r : R) :
  Forall (λ c, Regex.notSlashDash c = true) (c :: seg) →
  (∀ d t, tail = d :: t → d = "-"%char) →
  Forall (λ c, inSegment c = true) tail →
  Forall (λ c, inSegment c = true) file →
  k [] (Some (c :: seg)) = Some r →
  Regex.run (Regex.Cat (Regex.Group (Regex.Plus Regex.notSlashDash))
               (Regex.Cat (Regex.Star Regex.dot)
                  (Regex.Cat (Regex.Chr "/")
                     (Regex.Cat (Regex.StarLazy Regex.dot) Regex.Eol))))
    ((c :: seg) ++ tail ++ "/"%char :: file) cap k = Some r.
Proof.
  intros Hseg Hdash Htail Hfile Hk.
  apply Forall_cons in Hseg as [Hc Hseg].
  assert (Hdot : ∀ l, Forall (λ c, inSegment c = true) l →
                      Forall (λ c, Regex.dot c = true) l ∧ "/"%char ∉ l).
  { intros l Hl. split.
    - eapply Forall_impl; [exact Hl|]. intros x Hx.
      unfold inSegment in Hx. by apply andb_true_iff in Hx as [? _].
    - intros Hin. apply (proj1 (Forall_forall _ _) Hl) in Hin.
      unfold inSegment in Hin. by rewrite andb_false_r in Hin. }
  destruct (Hdot _ Htail) as [Htd _]. destruct (Hdot _ Hfile) as [Hfd Hfs].
  cbn [Regex.run app]. rewrite Hc. apply star_app; [done|]. rewrite star_here.
  - replace (take _ _) with (c :: seg)
      by (symmetry; apply (take_prefix (c :: seg))).
    by apply tail_all.
  - intros [|d a] b Heq Ha Hp; [done|]. apply Forall_cons in Hp as [Hd _].
    destruct tail as [|d' tail]; injection Heq as <- _.
    + discriminate Hd.
    + rewrite (Hdash _ _ eq_refl) in Hd. discriminate Hd.
Qed.

Lemma slash_once (X file a b : list ascii) :
  "/"%char ∉ X → "/"%char ∉ file →
  X ++ "/"%char :: file = a ++ "/"%char :: b → b = file.
Proof.
  revert a. induction X as [|x X IH]; intros [|y a] HX Hfile Heq;
    cbn [app] in Heq.
  - by injection Heq as <-.
  - injection Heq as <- ->. destruct Hfile.
    apply elem_of_app. right. apply list_elem_of_here.
  - injection Heq as -> _. destruct HX. apply list_elem_of_here.
  - injection Heq as <- Heq. apply (IH a); [|done|done].
    intros Hin. apply HX. by apply list_elem_of_further.
Qed.

(** The whole pattern on a key of the layout
    [pre/seg tail/file]. *)
Lemma key_found (k : @Regex.cont R) (pre : list ascii) (c : ascii)
    (seg tail file : list ascii) (r : R) :
  Forall (λ c, Regex.dot c = true) pre →
  Forall (λ c, Regex.notSlashDash c = true) (c :: seg) →
  (∀ d t, tail = d :: t → d = "-"%char) →
  Forall (λ c, inSegment c = true) tail →
  Forall (λ c, inSegment c = true) file →
  k [] (Some (c :: seg)) = Some r →
  Regex.run Regex.deploymentKey
    (pre ++ "/"%char :: (c :: seg) ++ tail ++ "/"%char :: file) None k = Some r.
Proof.
  intros Hpre Hseg Hdash Htail Hfile Hk.
  assert (Hno : ∀ l, Forall (λ c, inSegment c = true) l → "/"%char ∉ l).
  { intros l Hl Hin. apply (proj1 (Forall_forall _ _) Hl) in Hin.
    unfold inSegment in Hin. by rewrite andb_false_r in Hin. }
  assert (HnoSeg : "/"%char ∉ (c :: seg) ++ tail).
  { intros Hin. apply elem_of_app in Hin as [Hin|Hin].
    - by apply (proj1 (Forall_forall _ _) Hseg) in Hin.
    - by apply (Hno tail). }
  unfold Regex.deploymentKey.
  change (Regex.star Regex.dot None
            (λ s' cap',
               Regex.run
                 (Regex.Cat (Regex.Chr "/")
                    (Regex.Cat (Regex.Group (Regex.Plus Regex.notSlashDash))
                       (Regex.Cat (Regex.Star Regex.dot)
                          (Regex.Cat (Regex.Chr "/")
                             (Regex.Cat (Regex.StarLazy Regex.dot) Regex.Eol)))))
                 s' cap' k)
            (pre ++ "/"%char :: (c :: seg) ++ tail ++ "/"%char :: file) = Some r).
  apply star_app; [done|]. rewrite star_here.
  - change (Regex.run
              (Regex.Cat (Regex.Group (Regex.Plus Regex.notSlashDash))
                 (Regex.Cat (Regex.Star Regex.dot)
                    (Regex.Cat (Regex.Chr "/")
                       (Regex.Cat (Regex.StarLazy Regex.dot) Regex.Eol))))
              ((c :: seg) ++ tail ++ "/"%char :: file) None k = Some r).
    by apply segment_found.
  - intros [|y a] b Heq Ha _; [done|]. injection Heq as <- Heq.
    destruct b as [|d b]; [done|].
    change (Regex.run (Regex.Chr "/") (d :: b) None
              (λ s' cap',
                 Regex.run
                   (Regex.Cat (Regex.Group (Regex.Plus Regex.notSlashDash))
                      (Regex.Cat (Regex.Star Regex.dot)
                         (Regex.Cat (Regex.Chr "/")
                            (Regex.Cat (Regex.StarLazy Regex.dot) Regex.Eol))))
                   s' cap' k) = None).
    cbn [Regex.run]. destruct (Ascii.eqb_spec "/" d) as [<-|]; [|done].
    assert (Hb : b = file).
    { apply (slash_once ((c :: seg) ++ tail) file a b); [done | by apply Hno |].
      by rewrite <- app_assoc. }
    rewrite Hb. apply (segment_none None k file). by apply Hno.
Qed.

(** The whole pattern on a key with fewer than two ['/']. *)
Lemma key_none (k : @Regex.cont R) (s : list ascii) :
  (length (List.filter (Ascii.eqb "/") s) < 2)%nat →
  Regex.run Regex.deploymentKey s None k = None.
Proof.
  intros Hs. unfold Regex.deploymentKey.
  change (Regex.star Regex.dot None
            (λ s' cap',
               Regex.run
                 (Regex.Cat (Regex.Chr "/")
                    (Regex.Cat (Regex.Group (Regex.Plus Regex.notSlashDash))
                       (Regex.Cat (Regex.Star Regex.dot)
                          (Regex.Cat (Regex.Chr "/")
                             (Regex.Cat (Regex.StarLazy Regex.dot) Regex.Eol)))))
                 s' cap' k) s = None).
  apply star_none. intros a [|d b] ->; [done|].
  change (Regex.run (Regex.Chr "/") (d :: b) None
            (λ s' cap',
               Regex.run
                 (Regex.Cat (Regex.Group (Regex.Plus Regex.notSlashDash))
                    (Regex.Cat (Regex.Star Regex.dot)
                       (Regex.Cat (Regex.Chr "/")
                          (Regex.Cat (Regex.StarLazy Regex.dot) Regex.Eol))))
                 s' cap' k) = None).
  cbn [Regex.run]. destruct (Ascii.eqb_spec "/" d) as [<-|]; [|done].
  apply (segment_none None k b). intros Hin.
  rewrite List.filter_app in Hs. cbn [List.filter] in Hs.
  rewrite (proj2 (Ascii.eqb_eq _ _) eq_refl) in Hs.
  rewrite length_app in Hs. cbn [length] in Hs.
  assert (0 < length (List.filter (Ascii.eqb "/") b))%nat; [|lia].
  apply list_elem_of_In in Hin.
  assert (Hf : In "/"%char (List.filter (Ascii.eqb "/") b)).
  { apply List.filter_In. split; [done | by apply Ascii.eqb_eq]. }
  destruct (List.filter (Ascii.eqb "/") b); [done | cbn [length]; lia].
Qed.

End Matching.

Lemma list_ascii_of_string_app (a b : string) :
  list_ascii_of_string (a +:+ b) = list_ascii_of_string a ++ list_ascii_of_string b.
Proof.
  induction a as [|c a IH]; [reflexivity|].
  change (c :: list_ascii_of_string (a +:+ b)
          = c :: (list_ascii_of_string a ++ list_ascii_of_string b)).
  by rewrite IH.
Qed.

Lemma string_of_list_ascii_app (a b : list ascii) :
  string_of_list_ascii (a ++ b) = string_of_list_ascii a +:+ string_of_list_ascii b.
Proof.
  induction a as [|c a IH]; [reflexivity|].
  change (String c (string_of_list_ascii (a ++ b))
          = String c (string_of_list_ascii a +:+ string_of_list_ascii b)).
  by rewrite IH.
Qed.

Lemma every_Forall (p : ascii → bool) (s : string) :
  every p s = true ↔ Forall (λ c, p c = true) (list_ascii_of_string s).
Proof.
  unfold every. rewrite forallb_forall, Forall_forall.
  split; intros Hs c Hc; apply Hs; by apply list_elem_of_In.
Qed.

Lemma every_app (p : ascii → bool) (a b : string) :
  every p (a +:+ b) = every p a && every p b.
Proof. unfold every. by rewrite list_ascii_of_string_app, forallb_app. Qed.

Lemma every_impl (p q : ascii → bool) (s : string) :
  (∀ c, p c = true → q c = true) → every p s = true → every q s = true.
Proof.
  intros Hpq Hs. apply every_Forall. apply every_Forall in Hs.
  eapply Forall_impl; [exact Hs | exact Hpq].
Qed.

Section Keys.

Context `{platform : Host}.

(** The pattern on the strings of the layout, and what [newer] makes of it. *)
Lemma exec_layout (pre seg tail file : string) :
  every Regex.dot pre = true →
  seg ≠ "" →
  every Regex.notSlashDash seg = true →
  (∀ c t, tail = String c t → c = "-"%char) →
  every inSegment tail = true →
  every inSegment file = true →
  Regex.exec Regex.deploymentKey (pre +:+ "/" +:+ seg +:+ tail +:+ "/" +:+ file)
  = Some (Some seg).
Proof.
  intros Hpre Hne Hseg Hdash Htail Hfile. unfold Regex.exec.
  rewrite !list_ascii_of_string_app. cbn [list_ascii_of_string app].
  destruct seg as [|c seg]; [done|]. cbn [list_ascii_of_string].
  erewrite key_found; [| by apply every_Forall | by apply (every_Forall _ (String c seg))
                       | | by apply every_Forall | by apply every_Forall | reflexivity].
  - cbn [fmap option_fmap option_map].
    change (c :: list_ascii_of_string seg) with (list_ascii_of_string (String c seg)).
    by rewrite string_of_list_ascii_of_string.
  - intros d t Ht. destruct tail as [|d' tail]; [done|].
    injection Ht as <- _. by eapply Hdash.
Qed.

(** X19. A key of the layout the plugin writes, [pre/seg tail/file] with a
    segment that starts with a run [seg] of characters other than ['/'] and
    ['-'], goes on, if at all, with a ['-'], and is followed by a file name
    on the same line, is read as the integer of [seg]: what precedes the
    segment, what follows the run and the name of the file do not count. *)
Theorem key_is_read_by_leading_run (pre seg tail file : string) :
  every Regex.dot pre = true →
  seg ≠ "" →
  every Regex.notSlashDash seg = true →
  (∀ c t, tail = String c t → c = "-"%char) →
  every inSegment tail = true →
  every inSegment file = true →
  let key := pre +:+ "/" +:+ seg +:+ tail +:+ "/" +:+ file in
  entryTime {| Key := VStr key |} = Some (toInteger (VStr seg))
  ∧ ∀ acc, newer acc {| Key := VStr key |} = Z.max acc (toInteger (VStr seg)).
Proof.
  intros Hpre Hne Hseg Hdash Htail Hfile key.
  pose proof (exec_layout pre seg tail file Hpre Hne Hseg Hdash Htail Hfile) as Hexec.
  fold key in Hexec.
  assert (Htime : entryTime {| Key := VStr key |} = Some (toInteger (VStr seg))).
  { unfold entryTime. cbn [Key toStr]. by rewrite Hexec. }
  split; [exact Htime|]. intros acc. by rewrite newer_max, Htime.
Qed.

(** X20. A key with fewer than two ['/'] is not matched: it yields no
    timestamp and leaves the maximum as it is. *)
Theorem key_outside_directory_is_skipped (key : string) :
  (slashes key < 2)%nat →
  Regex.exec Regex.deploymentKey key = None
  ∧ entryTime {| Key := VStr key |} = None
  ∧ ∀ acc, newer acc {| Key := VStr key |} = acc.
Proof.
  intros Hkey.
  assert (Hexec : Regex.exec Regex.deploymentKey key = None).
  { unfold Regex.exec. by apply key_none. }
  assert (Htime : entryTime {| Key := VStr key |} = None).
  { unfold entryTime. cbn [Key toStr]. by rewrite Hexec. }
  split; [exact Hexec|]. split; [exact Htime|].
  intros acc. by rewrite newer_max, Htime.
Qed.

(** X21. Whenever the pattern matches, its group holds a text: a run, not
    empty, of characters other than ['/'] and ['-'] that follows a ['/'] of
    the key and is followed, later, by another.  So the timestamp is never
    read off [undefined], and never off a text with a sign. *)
Theorem match_captures_run_between_slashes (key : string)
    (parsedTime : option string) :
  Regex.exec Regex.deploymentKey key = Some parsedTime →
  ∃ pre seg post,
    parsedTime = Some seg
    ∧ seg ≠ ""
    ∧ every Regex.notSlashDash seg = true
    ∧ key = pre +:+ "/" +:+ seg +:+ post
    ∧ (0 < slashes post)%nat.
Proof.
  unfold Regex.exec, Regex.deploymentKey. cbn [Regex.run]. intros Hrun.
  apply star_some in Hrun as (pre & [|d b] & Hkey & _ & Hrun); [done|].
  destruct (Ascii.eqb_spec "/" d) as [<-|]; [|done].
  destruct b as [|c b]; [done|].
  destruct (Regex.notSlashDash c) eqn:Hc; [|done].
  apply star_some in Hrun as (seg & rest & -> & Hseg & Hrun).
  apply star_some in Hrun as (t & [|d rest'] & -> & _ & Hrun); [done|].
  destruct (Ascii.eqb_spec "/" d) as [<-|]; [|done].
  apply starLazy_some in Hrun as (file & [|? ?] & -> & _ & Hrun); [|done].
  injection Hrun as <-. rewrite app_nil_r in *.
  exists (string_of_list_ascii pre), (string_of_list_ascii (c :: seg)),
    (string_of_list_ascii (t ++ "/"%char :: file)).
  split.
  { cbn [fmap option_fmap option_map]. do 2 f_equal.
    apply (take_prefix (c :: seg)). }
  split; [done|]. split.
  { apply every_Forall. rewrite list_ascii_of_string_of_list_ascii.
    by constructor. }
  split.
  { rewrite <- (string_of_list_ascii_of_string key), Hkey.
    rewrite string_of_list_ascii_app. cbn [string_of_list_ascii].
    rewrite !string_of_list_ascii_app. reflexivity. }
  unfold slashes. rewrite list_ascii_of_string_of_list_ascii.
  rewrite List.filter_app. cbn [List.filter].
  rewrite (proj2 (Ascii.eqb_eq _ _) eq_refl), length_app. cbn [length]. lia.
Qed.

End Keys.

(** ** The directory and the pattern *)

Section Decimal.

Lemma append_nil_r (s : string) : s +:+ "" = s.
Proof.
  induction s as [|c s IH]; [reflexivity|].
  change (String c (s +:+ "") = String c s). by rewrite IH.
Qed.

Lemma append_assoc (a b c : string) : (a +:+ b) +:+ c = a +:+ (b +:+ c).
Proof.
  induction a as [|x a IH]; [reflexivity|].
  change (String x ((a +:+ b) +:+ c) = String x (a +:+ (b +:+ c))). by rewrite IH.
Qed.

Lemma pretty_N_char_digit (x : N) :
  Regex.inRange "0" "9" (pretty_N_char x) = true.
Proof. unfold pretty_N_char. by repeat case_match. Qed.

(** The decimal digits of [x], in front of what was there. *)
Lemma pretty_N_go_digits (x : N) (s : string) :
  ∃ d, pretty_N_go x s = d +:+ s
       ∧ every (Regex.inRange "0" "9") d = true
       ∧ ((0 < x)%N → d ≠ "").
Proof.
  revert s. induction (N.lt_wf_0 x) as [x _ IH]; intros s.
  destruct (decide (0 < x)%N) as [Hpos|Hzero].
  - rewrite pretty_N_go_step by done.
    destruct (IH (x `div` 10)%N (N.div_lt x 10 Hpos eq_refl)
                (String (pretty_N_char (x `mod` 10)) s)) as (d & -> & Hd & _).
    exists (d +:+ String (pretty_N_char (x `mod` 10)) "").
    split; [by rewrite append_assoc|]. split.
    + rewrite every_app, Hd. unfold every. cbn [list_ascii_of_string forallb].
      by rewrite pretty_N_char_digit.
    + intros _. by destruct d.
  - assert (x = 0%N) as -> by lia. exists "". split; [done|]. split; [done|lia].
Qed.

Lemma pretty_pos_digits (x : positive) :
  every (Regex.inRange "0" "9") (pretty (Z.pos x)) = true ∧ pretty (Z.pos x) ≠ "".
Proof.
  change (pretty (Z.pos x)) with (pretty (N.pos x)). unfold pretty, pretty_N.
  destruct (decide (N.pos x = 0%N)); [done|].
  destruct (pretty_N_go_digits (N.pos x) "") as (d & -> & Hd & Hne).
  rewrite append_nil_r. split; [done|]. apply Hne. lia.
Qed.

Lemma digit_or_dash_inSegment (c : ascii) :
  Regex.inRange "0" "9" c || Ascii.eqb c "-" = true → inSegment c = true.
Proof. destruct c as [[] [] [] [] [] [] [] []]; vm_compute; congruence. Qed.

Lemma digit_notSlashDash (c : ascii) :
  Regex.inRange "0" "9" c = true → Regex.notSlashDash c = true.
Proof. destruct c as [[] [] [] [] [] [] [] []]; vm_compute; congruence. Qed.

Lemma pretty_Z_inSegment (z : Z) : every inSegment (pretty z) = true.
Proof.
  destruct z as [|x|x]; [done| |].
  - eapply every_impl; [|apply pretty_pos_digits].
    intros c Hc. apply digit_or_dash_inSegment. by rewrite Hc.
  - change (pretty (Z.neg x)) with ("-" +:+ pretty (Z.pos x)).
    rewrite every_app. apply andb_true_iff. split; [done|].
    eapply every_impl; [|apply pretty_pos_digits].
    intros c Hc. apply digit_or_dash_inSegment. by rewrite Hc.
Qed.

Lemma pad_inSegment (n : nat) (z : Z) : every inSegment (Date.pad n z) = true.
Proof.
  unfold Date.pad. rewrite every_app, pretty_Z_inSegment, andb_true_r.
  unfold every. rewrite list_ascii_of_string_of_list_ascii.
  induction (n - String.length (pretty z))%nat as [|m IH]; [done|].
  cbn [replicate forallb]. by rewrite IH.
Qed.

Lemma year_inSegment (y : Z) : every inSegment (Date.year y) = true.
Proof.
  unfold Date.year. destruct (_ && _); [apply pad_inSegment|].
  rewrite every_app, pad_inSegment. by destruct (y <? 0).
Qed.

Lemma toISOString_inSegment (t : Z) (iso : string) :
  Date.toISOString t = Some iso → every inSegment iso = true.
Proof.
  unfold Date.toISOString. destruct (Z.abs t <=? Date.maxTime); [|discriminate].
  destruct (Date.civil _) as [[y m] d]. intros [= <-].
  by rewrite !every_app, year_inSegment, !pad_inSegment.
Qed.

End Decimal.

Section Directory.

Context `{platform : Host}.

(** X22. The directory the locator records is read back by its own pattern:
    when service and stage are on one line, any object directly under the
    directory of a positive time, the compiled template among them, has a
    key whose timestamp is the integer of the decimal text of that time. *)
Theorem recorded_directory_reads_back (p : Plugin) (time : Z) (dir file : string) :
  0 < time →
  deploymentDirectory p time = Some dir →
  every Regex.dot (toStr (service p)) = true →
  every Regex.dot (toStr (stage (options p))) = true →
  every inSegment file = true →
  let key := dir +:+ "/" +:+ file in
  Regex.exec Regex.deploymentKey key = Some (Some (pretty time))
  ∧ entryTime {| Key := VStr key |} = Some (toInteger (VStr (pretty time)))
  ∧ ∀ acc, newer acc {| Key := VStr key |}
           = Z.max acc (toInteger (VStr (pretty time))).
Proof.
  intros Hpos Hdir Hservice Hstage Hfile key.
  unfold deploymentDirectory in Hdir.
  destruct (Date.toISOString time) as [iso|] eqn:Hiso; [|discriminate].
  injection Hdir as <-.
  destruct time as [|x|x]; [lia| |lia].
  destruct (pretty_pos_digits x) as [Hdigits Hne].
  assert (Hexec : Regex.exec Regex.deploymentKey key = Some (Some (pretty (Z.pos x)))).
  { unfold key. rewrite !append_assoc.
    apply (exec_layout (prefixOf p) (pretty (Z.pos x)) ("-" +:+ iso) file).
    - unfold prefixOf. by rewrite !every_app, Hservice, Hstage.
    - exact Hne.
    - eapply every_impl; [apply digit_notSlashDash | exact Hdigits].
    - by intros c t [= <- _].
    - rewrite every_app. by rewrite (toISOString_inSegment _ _ Hiso).
    - exact Hfile. }
  assert (Htime : entryTime {| Key := VStr key |}
                  = Some (toInteger (VStr (pretty (Z.pos x))))).
  { unfold entryTime. cbn [Key toStr]. by rewrite Hexec. }
  split; [exact Hexec|]. split; [exact Htime|].
  intros acc. by rewrite newer_max, Htime.
Qed.

End Directory.

(** ** An environment with a length *)

Section ArrayLike.

Context `{platform : Host}.

Lemma index_no_identifier (i : nat) : isIdentifier (pretty i) = false.
Proof.
  change (pretty i) with (pretty (N.of_nat i)). unfold pretty, pretty_N.
  destruct (decide (N.of_nat i = 0%N)); [reflexivity|].
  destruct (pretty_N_go_digits (N.of_nat i) "") as (d & -> & Hd & Hne).
  rewrite append_nil_r. destruct d as [|c d]; [destruct Hne; [lia|done]|].
  unfold every in Hd. cbn [list_ascii_of_string forallb] in Hd.
  apply andb_true_iff in Hd as [Hc _]. unfold isIdentifier.
  replace (Regex.identStart c) with false; [reflexivity|].
  revert Hc. destruct c as [[] [] [] [] [] [] [] []]; vm_compute; congruence.
Qed.

(** X16. [_.some] walks an object that has a length as an array.  So when
    the merged environment has a variable named [length] whose value is a
    number that can be a length, and every name is an identifier, the
    values are not looked at: the patch holds the environment with all its
    variables, structured placeholders among them or not. *)
Theorem environment_with_length_is_sent (f : obj) (s : option obj) (p : obj)
    (n : nat) :
  truthy (field f "environment") || truthy (field p "environment") = true →
  let variables := assign2 (field p "environment") (field f "environment") in
  isLength (field variables "length") = Some n →
  (∀ k, is_Some (variables !! k) → isIdentifier k = true) →
  ∃ params,
    buildParams f s p = inr params
    ∧ params !! "Environment" = Some (VObj (<["Variables" := VObj variables]> ∅)).
Proof.
  intros Hset variables Hlen Hkeys.
  assert (Hsome : some (VObj variables) isObject = false).
  { unfold some, valuesOf. rewrite Hlen.
    induction (seq 0 n) as [|i l IH]; [reflexivity|].
    cbn [fmap list_fmap existsb]. rewrite IH, orb_false_r.
    unfold field. destruct (variables !! pretty i) as [x|] eqn:Hx; [|reflexivity].
    pose proof (index_no_identifier i) as Hi. rewrite Hkeys in Hi by eauto.
    discriminate Hi. }
  assert (Henv : environmentOf f p
                 = inr (Some (VObj (<["Variables" := VObj variables]> ∅)))).
  { unfold environmentOf. fold variables. rewrite Hset, Hsome.
    by rewrite (proj2 (keys_checked variables) Hkeys). }
  destruct (buildParams_environment f s p _ Henv) as [params Hb].
  exists params. split; [exact Hb|].
  destruct (buildParams_inr f s p params Hb) as [Henv' _]. congruence.
Qed.

End ArrayLike.

(** ** The directory of the document *)

Section Splitting.

Lemma splitFrom_whole (sep : ascii) (cur s : list ascii) :
  Forall (λ c, Ascii.eqb c sep = false) s →
  Path.splitFrom sep cur s = [rev cur ++ s].
Proof.
  intros Hs. revert cur. induction Hs as [|c s Hc _ IH]; intros cur;
    cbn [Path.splitFrom].
  - by rewrite app_nil_r.
  - rewrite Hc, IH. cbn [rev]. by rewrite <- app_assoc.
Qed.

Lemma splitFrom_last (sep : ascii) (cur dir file : list ascii) :
  Forall (λ c, Ascii.eqb c sep = false) file →
  Path.splitFrom sep cur (dir ++ sep :: file)
  = Path.splitFrom sep cur dir ++ [file].
Proof.
  intros Hfile. revert cur. induction dir as [|c dir IH]; intros cur;
    cbn [app Path.splitFrom].
  - rewrite Ascii.eqb_refl. by rewrite splitFrom_whole.
  - destruct (Ascii.eqb c sep); by rewrite IH.
Qed.

Lemma splitFrom_cons (sep : ascii) (cur s : list ascii) :
  ∃ first rest, Path.splitFrom sep cur s = first :: rest.
Proof.
  revert cur. induction s as [|c s IH]; intros cur; cbn [Path.splitFrom]; [eauto|].
  destruct (Ascii.eqb c sep); eauto.
Qed.

Lemma join_splitFrom (sep : ascii) (cur s : list ascii) :
  Path.join "/" (string_of_list_ascii <$> Path.splitFrom sep cur s)
  = string_of_list_ascii
      (rev cur ++ ((λ c, if Ascii.eqb c sep then "/"%char else c) <$> s)).
Proof.
  revert cur. induction s as [|c s IH]; intros cur; cbn [Path.splitFrom fmap list_fmap].
  - by rewrite app_nil_r.
  - destruct (Ascii.eqb c sep).
    + destruct (splitFrom_cons sep [] s) as (first & rest & Hs).
      transitivity (string_of_list_ascii (rev cur) +:+ "/"
                    +:+ Path.join "/" (string_of_list_ascii
                                         <$> Path.splitFrom sep [] s)).
      { by rewrite Hs. }
      rewrite IH. cbn [rev app]. by rewrite string_of_list_ascii_app.
    + rewrite IH. cbn [rev]. by rewrite <- app_assoc.
Qed.

End Splitting.

Section Directories.

Context `{process : Loader}.

Lemma every_not_sep (s : string) :
  every (λ c, negb (Ascii.eqb c path_sep)) s = true →
  Forall (λ c, Ascii.eqb c path_sep = false) (list_ascii_of_string s).
Proof.
  intros Hs. apply every_Forall in Hs. eapply Forall_impl; [exact Hs|].
  intros c Hc. by apply negb_true_iff.
Qed.

Lemma parentDir_last (dir file : string) :
  every (λ c, negb (Ascii.eqb c path_sep)) file = true →
  parentDir (dir +:+ String path_sep file) = withSlashes path_sep dir.
Proof.
  intros Hfile. apply every_not_sep in Hfile.
  unfold parentDir, Path.split, Path.pop, withSlashes.
  rewrite list_ascii_of_string_app. cbn [list_ascii_of_string].
  rewrite splitFrom_last by done. rewrite fmap_app. cbn [fmap list_fmap].
  rewrite removelast_last. apply (join_splitFrom path_sep []).
Qed.

(** X23. The directory the loader changes to is the path without its last
    component, rejoined with ['/']: everything before the last separator,
    each separator in it turned into ['/'], so the very same text when the
    separator is ['/'].  A bare file name, and a file directly under the
    root, both give the empty path. *)
Theorem parentDir_drops_last_component (dir file : string) :
  every (λ c, negb (Ascii.eqb c path_sep)) file = true →
  parentDir (dir +:+ String path_sep file) = withSlashes path_sep dir
  ∧ (path_sep = "/"%char → parentDir (dir +:+ String path_sep file) = dir)
  ∧ parentDir file = ""
  ∧ parentDir (String path_sep file) = "".
Proof.
  intros Hfile. split; [by apply parentDir_last|]. split; [|split].
  - intros Hsep. rewrite parentDir_last by done. unfold withSlashes.
    rewrite <- (string_of_list_ascii_of_string dir) at 2. f_equal.
    rewrite <- (list_fmap_id (list_ascii_of_string dir)) at 2.
    apply list_fmap_ext. intros _ c _. rewrite Hsep.
    by destruct (Ascii.eqb_spec c "/").
  - apply every_not_sep in Hfile. unfold parentDir, Path.split, Path.pop.
    by rewrite splitFrom_whole.
  - by apply (parentDir_last "" file).
Qed.

(** X24. A document named by a bare file name, or lying directly under the
    root, makes the loader change to the empty path; when the process
    refuses that, the load throws the error of [chdir], and the document
    was not read. *)
Theorem parse_needs_a_directory (file : string) (pr : Process) (e : error) :
  every (λ c, negb (Ascii.eqb c path_sep)) file = true →
  process_chdir "" pr = inl e →
  parse file pr = (Thrown e, pr)
  ∧ parse (String path_sep file) pr = (Thrown e, pr).
Proof.
  intros Hfile Hcd. unfold parse.
  assert (Hbare : parentDir file = "").
  { apply every_not_sep in Hfile. unfold parentDir, Path.split, Path.pop.
    by rewrite splitFrom_whole. }
  assert (Hroot : parentDir (String path_sep file) = "").
  { by apply (parentDir_last "" file). }
  by rewrite Hbare, Hroot, Hcd.
Qed.

End Directories.

(** ** The two variants of the hook *)

Section Variants.

Context `{platform : Host}.





End Variants.

(** * The properties on the concrete platform *)

Import Scenario.

Lemma deploys_serves :
  serves (this deploys) (world deploys) VUndef [page1; page2; page3] 3%nat.
Proof.
  eapply serves_next; [reflexivity | reflexivity |].
  eapply serves_next; [reflexivity | reflexivity |].
  eapply serves_last; reflexivity.
Qed.

Lemma blank_serves : serves (this blank) (world blank) VUndef [blankPage] 1%nat.
Proof. eapply serves_last; reflexivity. Qed.

Lemma empty_serves : serves (this empty) (world empty) VUndef [emptyPage] 1%nat.
Proof. eapply serves_last; reflexivity. Qed.

(** The newest deployment is on the second of three pages. *)
Example latest_of_three_pages :
  timestamps [page1; page2; page3]
  = [1500000000000; 1400000000000; 1600000000000; 1500000000000; 1450000000000]
  ∧ fst <$> searchLatest 3 0 VUndef deploys = Some (Resolved 1600000000000).
Proof.
  destruct (latest_over_flagged_pages deploys [page1; page2; page3] 3%nat 3%nat
              deploys_serves (le_n 3)) as [Hsearch _].
  split; [reflexivity|]. rewrite Hsearch. reflexivity.
Qed.

(** The same three pages as S3 lists them.  The first is flagged as
    truncated and names the token under which the store holds the second,
    with the newest deployment; the search stops after the first, and the
    directory recorded is the one of 1500000000000, not of 1600000000000. *)
Lemma C1_witness :
  IsTruncated (asS3 page1) = true
  ∧ @provider_request s3 1%nat "S3" "listObjectsV2"
      (listParams (this onS3) (NextContinuationToken (asS3 page1)))
      (VStr "dev") (VStr "us-east-1")
    = (inl (RespList (asS3 page2)), 2%nat)
  ∧ @latestOf s3 [asS3 page1; asS3 page2; asS3 page3] = 1600000000000
  ∧ @searchLatest s3 3 0 VUndef onS3
    = Some (Resolved 1500000000000,
            @Build_Sigma s3 (this onS3) 1%nat
              [Request "S3" "listObjectsV2" (listParams (this onS3) VUndef)
                 (VStr "dev") (VStr "us-east-1")])
  ∧ ∃ σ1, @getLastDeploymentDirectory s3 3 onS3 = Some (Resolved tt, σ1)
          ∧ directory (this σ1)
            = VStr "serverless/svc/dev/1500000000000-2017-07-14T02:40:00.000Z".
Proof.
  assert (Hreq : @provider_request s3 (world onS3) "S3" "listObjectsV2"
                   (listParams (this onS3) VUndef)
                   (stage (options (this onS3))) (region (options (this onS3)))
                 = (inl (RespList (asS3 page1)), 1%nat)) by reflexivity.
  assert (Hlatest : @latestOf s3 [asS3 page1] = 1500000000000)
    by (vm_compute; reflexivity).
  destruct (@C1_first_page_only s3 onS3 (asS3 page1) 1%nat 2%nat Hreq eq_refl)
    as [Hrun Hdir].
  split; [reflexivity|]. split; [reflexivity|].
  split; [vm_compute; reflexivity|]. split.
  - rewrite Hrun, Hlatest. reflexivity.
  - assert (Hnz : @latestOf s3 [asS3 page1] ≠ 0) by (rewrite Hlatest; discriminate).
    assert (Hd : deploymentDirectory (this onS3) (@latestOf s3 [asS3 page1])
                 = Some "serverless/svc/dev/1500000000000-2017-07-14T02:40:00.000Z")
      by (rewrite Hlatest; reflexivity).
    destruct (Hdir Hnz _ Hd) as [Hget _]. exact Hget.
Defined.

(** Entries are listed, every timestamp reads as 0: the outcome is the one of
    the empty listing. *)
Lemma C10_witness :
  timestamps [blankPage] = [0; 0]
  ∧ timestamps [emptyPage] = []
  ∧ fst <$> getLastDeploymentDirectory 1 blank = Some (Rejected noPriorDeployment)
  ∧ fst <$> getLastDeploymentDirectory 1 empty = Some (Rejected noPriorDeployment)
  ∧ fst <$> setLastDeploymentDirectory 1 blank = Some (Rejected noPriorDeployment).
Proof.
  pose proof (C10_zero_is_no_deployment blank [blankPage] 1%nat 1%nat
                blank_serves (le_n 1) eq_refl) as [Hget Hset].
  pose proof (C10_zero_is_no_deployment empty [emptyPage] 1%nat 1%nat
                empty_serves (le_n 1) eq_refl) as [Hget' _].
  cbv zeta in Hget, Hset, Hget'.
  split; [reflexivity|]. split; [reflexivity|].
  rewrite Hget, Hset, Hget'. repeat split.
Defined.

(** C2, refuted as stated.  The desired configuration (memory size 512)
    matches the descriptor of the deployed function on every field, and yet
    the patch holds the memory size and one update is sent. *)
Lemma C2_counterexample :
  matchesRemote sized None (providerObj (this (deployed sized VUndef))) remoteSized
  ∧ buildParams sized None (providerObj (this (deployed sized VUndef))) = inr sizedPatch
  ∧ isEmpty (omit sizedPatch "FunctionName") = false
  ∧ filter (λ ev, isConfigurationUpdate ev = true)
      (eventsOf updateFunctionConfiguration (deployed sized VUndef))
    = [Request "Lambda" "updateFunctionConfiguration" sizedPatch
         (VStr "dev") (VStr "us-east-1")].
Proof.
  assert (Hb : buildParams sized None (providerObj (this (deployed sized VUndef)))
               = inr sizedPatch) by (vm_compute; reflexivity).
  split; [|split; [exact Hb|split]].
  - exists sizedPatch. split; [exact Hb|].
    intros k v Hk. unfold sizedPatch in Hk. unfold remoteSized.
    apply lookup_insert_Some in Hk as [[<- <-]|[Hne Hk]].
    { apply lookup_insert_eq. }
    apply lookup_insert_Some in Hk as [[<- <-]|[Hne' Hk]].
    { rewrite lookup_insert_ne by done. apply lookup_insert_eq. }
    by rewrite lookup_empty in Hk.
  - vm_compute. reflexivity.
  - vm_compute. reflexivity.
Qed.

(** A desired configuration that sets no field: no rule writes, no patch
    and no call, with this descriptor as with any other.  One that sets the
    memory size: one update, though the descriptor has that size already. *)
Lemma C2_witness :
  buildParams named None (providerObj (this deploys))
  = inr (<["FunctionName" := VStr "svc-dev-hello"]> ∅)
  ∧ (∀ k v, (k, v) ∈ patchRules named None (providerObj (this deploys)) → v = None)
  ∧ updateFunctionConfiguration (modify (withRemote remoteSized) deploys)
    = (Resolved tt, modify (withRemote remoteSized) deploys)
  ∧ eventsOf updateFunctionConfiguration (modify (withRemote remoteSized) deploys) = []
  ∧ filter (λ ev, isConfigurationUpdate ev = true)
      (eventsOf updateFunctionConfiguration
         (modify (withRemote remoteSized) (start (plugin "deploys" sized ∅ VUndef))))
    = [Request "Lambda" "updateFunctionConfiguration" sizedPatch
         (VStr "dev") (VStr "us-east-1")].
Proof.
  assert (Hb : buildParams named None (providerObj (this deploys))
               = inr (<["FunctionName" := VStr "svc-dev-hello"]> ∅))
    by (vm_compute; reflexivity).
  assert (Hr : roleOf named (providerObj (this deploys)) = None)
    by (vm_compute; reflexivity).
  assert (He : isEmpty (omit (<["FunctionName" := VStr "svc-dev-hello"]> (∅ : obj))
                          "FunctionName") = true)
    by (vm_compute; reflexivity).
  destruct (C2_patch_from_desired_alone deploys remoteSized) as [_ [_ [_ Hnamed]]].
  destruct (Hnamed _ Hb Hr) as [_ [Hiff [Hnoop _]]].
  assert (Hbs : buildParams sized None ∅ = inr sizedPatch) by (vm_compute; reflexivity).
  assert (Hrs : roleOf sized ∅ = None) by (vm_compute; reflexivity).
  assert (Hne : isEmpty (omit sizedPatch "FunctionName") = false)
    by (vm_compute; reflexivity).
  destruct (C2_patch_from_desired_alone (start (plugin "deploys" sized ∅ VUndef))
              remoteSized) as [_ [_ [_ Hsized]]].
  destruct (Hsized _ Hbs Hrs) as [_ [_ [_ Hone]]].
  split; [exact Hb|]. split; [exact (proj1 Hiff He)|].
  destruct (Hnoop He) as [Hrun Hev].
  split; [exact Hrun|]. split; [exact Hev | exact (Hone Hne)].
Defined.

Lemma C3_witness :
  buildParams named None ∅ = inr (<["FunctionName" := VStr "svc-dev-hello"]> ∅)
  ∧ updateFunctionConfiguration deploys = (Resolved tt, deploys)
  ∧ eventsOf updateFunctionConfiguration deploys = [].
Proof.
  assert (Hb : buildParams named None ∅
               = inr (<["FunctionName" := VStr "svc-dev-hello"]> ∅))
    by (vm_compute; reflexivity).
  split; [exact Hb|].
  destruct (C3_empty_patch_is_noop deploys (<["FunctionName" := VStr "svc-dev-hello"]> ∅)
              Hb ltac:(vm_compute; reflexivity) ltac:(vm_compute; reflexivity))
    as [Hrun [Hev _]].
  split; [exact Hrun | exact Hev].
Defined.



(** C8, refuted as stated.  Security groups alone, no subnets: the patch has
    a VPC entry, with the security groups in it. *)
Lemma C8_counterexample :
  field (ownProps (or_ (field grouped "vpc") (field (∅ : obj) "vpc"))) "subnetIds" = VUndef
  ∧ buildParams grouped None ∅
    = inr (<["FunctionName" := VStr "svc-dev-hello"]>
             (<["VpcConfig" :=
                  VObj (<["SecurityGroupIds" := VArr [VStr "sg-1"]]> ∅)]> ∅)).
Proof. split; [reflexivity|]. vm_compute. reflexivity. Qed.

Lemma C8_witness :
  ∃ params,
    buildParams grouped None ∅ = inr params
    ∧ is_Some (params !! "VpcConfig")
    ∧ (∀ v, params !! "VpcConfig" = Some v
            → v = VObj (<["SecurityGroupIds" := VArr [VStr "sg-1"]]> ∅)).
Proof.
  assert (Hb : buildParams grouped None ∅
               = inr (<["FunctionName" := VStr "svc-dev-hello"]>
                        (<["VpcConfig" :=
                             VObj (<["SecurityGroupIds" := VArr [VStr "sg-1"]]> ∅)]> ∅)))
    by (vm_compute; reflexivity).
  eexists. split; [exact Hb|].
  destruct (C8_vpc_lists_independent grouped None ∅ _ Hb) as [Hiff Hval].
  split.
  - apply Hiff. split; [reflexivity|]. left. reflexivity.
  - exact Hval.
Defined.

(** The stored template of the scenario: accepted, parsed to the empty tree. *)
Lemma C4_witness :
  accepted storedTemplate = true
  ∧ ∃ σ2, downloadTemplateFromS3 deploys = (Resolved VNull, σ2)
          ∧ template (this σ2) = VObj ∅
          ∧ templateHash (this σ2) = VStr "3q2+7w==".
Proof.
  split; [reflexivity|].
  destruct (C4_template_accepted_iff_well_formed deploys (directory (this deploys))
              (RespObject storedTemplate) 1%nat eq_refl) as [_ [_ [_ Hexample]]].
  eexists. split.
  - apply Hexample; reflexivity.
  - split; reflexivity.
Defined.

(** The artifact on disk has the digest the descriptor records: skipped,
    twice; forced: uploaded. *)
Lemma C6_witness :
  deployFunction (deployed named VUndef) = (Resolved tt, emit skipped (deployed named VUndef))
  ∧ deployFunction (emit skipped (deployed named VUndef))
    = (Resolved tt, emit skipped (emit skipped (deployed named VUndef)))
  ∧ existsb isCodeUpload (eventsOf deployFunction (deployed named VUndef)) = false
  ∧ existsb isCodeUpload (eventsOf deployFunction (deployed named (VBool true))) = true.
Proof.
  destruct (C6_upload_iff_forced_or_changed (deployed named VUndef)
              (VObj (<["handler" := VStr "handler.hello"]> ∅)) artifact 10
              (VStr "sha256(PK-hello-1)") eq_refl eq_refl eq_refl eq_refl)
    as [Hupload [Hskip _]].
  destruct (C6_upload_iff_forced_or_changed (deployed named (VBool true))
              (VObj (<["handler" := VStr "handler.hello"]> ∅)) artifact 10
              (VStr "sha256(PK-hello-1)") eq_refl eq_refl eq_refl eq_refl)
    as [Hforced _].
  destruct (Hskip eq_refl) as [Hfirst Hsecond].
  split; [exact Hfirst|]. split; [exact Hsecond|]. split.
  - exact Hupload.
  - exact Hforced.
Defined.

(** C7, refuted as stated.  A string without ':' that names the role
    resource of the service: the account id is asked for, and the result is
    the ARN built from it, not the string. *)
Lemma C7_counterexample :
  lacks ":" "DeployRole" = true
  ∧ normalizeArnRole (VStr "DeployRole") deploys
    = (Resolved (VStr "arn:aws:iam::123456789012:role/deployer"),
       {| this := this deploys; world := 1%nat; trace := [GetAccountId] |})
  ∧ VStr "arn:aws:iam::123456789012:role/deployer" ≠ VStr "DeployRole".
Proof. split; [reflexivity|]. split; [reflexivity|]. discriminate. Qed.

(** An ARN; the role of the service; its bucket, which is no role; a name
    every object inherits; a name that leads nowhere. *)
Lemma C7_witness :
  (normalizeArnRole (VStr "arn:aws:iam::123456789012:role/deployer") deploys
   = (Resolved (VStr "arn:aws:iam::123456789012:role/deployer"), deploys)
   ∧ eventsOf (normalizeArnRole (VStr "arn:aws:iam::123456789012:role/deployer")) deploys
     = [])
  ∧ normalizeArnRole (VStr "DeployRole") deploys
    = (Resolved (VStr "arn:aws:iam::123456789012:role/deployer"),
       {| this := this deploys; world := 1%nat; trace := [GetAccountId] |})
  ∧ normalizeArnRole (VStr "Uploads") deploys
    = (Thrown (PlainError "Provided resource is not IAM Role."), deploys)
  ∧ normalizeArnRole (VStr "constructor") deploys
    = (Thrown (PlainError "Provided resource is not IAM Role."), deploys)
  ∧ normalizeArnRole (VStr "Unknown") deploys = (Thrown TypeError, deploys).
Proof.
  destruct (C7_arn_with_delimiter_unchanged deploys
              "arn:aws:iam::123456789012:role/deployer") as [Hliteral _].
  assert (Hno : ∀ role, lacks ":" role = true → ":"%char ∉ list_ascii_of_string role).
  { intros role Hl Hin. apply lacks_false in Hin. congruence. }
  destruct (C7_arn_with_delimiter_unchanged deploys "DeployRole")
    as [_ Hrole].
  destruct (Hrole (Hno "DeployRole" eq_refl)) as [Hbuilt _].
  destruct (C7_arn_with_delimiter_unchanged deploys "Uploads") as [_ Hbucket].
  destruct (Hbucket (Hno "Uploads" eq_refl)) as [_ [_ [Hother _]]].
  destruct (C7_arn_with_delimiter_unchanged deploys "constructor") as [_ Hinherited].
  destruct (Hinherited (Hno "constructor" eq_refl)) as [_ [_ [Hmember _]]].
  destruct (C7_arn_with_delimiter_unchanged deploys "Unknown") as [_ Hunknown].
  destruct (Hunknown (Hno "Unknown" eq_refl)) as [_ [_ [_ Hnothing]]].
  split; [apply Hliteral; apply lacks_false; reflexivity|]. split; [|split; [|split]].
  - assert (Hdecl : declaresRole (this deploys) "DeployRole"
                      (VObj (<["RoleName" := VStr "deployer"]> ∅))).
    { exists serviceResources,
        (VObj (<["Type" := VStr "AWS::IAM::Role"]>
                 (<["Properties" := VObj (<["RoleName" := VStr "deployer"]> ∅)]> ∅))).
      repeat split; discriminate. }
    assert (Hacc : provider_getAccountId (world deploys)
                   = (inl (VStr "123456789012"), 1%nat)) by reflexivity.
    pose proof (Hbuilt _ _ _ Hdecl Hacc) as Hrun. cbv zeta in Hrun.
    rewrite Hrun. reflexivity.
  - apply (Hother serviceResources eq_refl). right.
    exists (VObj (<["Type" := VStr "AWS::S3::Bucket"]> ∅)), (VStr "AWS::S3::Bucket").
    repeat split.
  - apply (Hmember serviceResources eq_refl). left. reflexivity.
  - apply Hnothing. right. exists serviceResources. split; [reflexivity|].
    left. reflexivity.
Defined.

(** C9, refuted as stated.  The process starts in "/"; after the load its
    working directory is the directory of the document. *)
Lemma C9_counterexample :
  @parse loader "/srv/app/serverless.yml" "/"
  = (Resolved (VObj (<["service" := VStr "svc"]> ∅)), "/srv/app")
  ∧ "/srv/app" ≠ "/".
Proof. split; [reflexivity | discriminate]. Qed.

Lemma C9_witness :
  (@parse loader "/srv/app/serverless.yml" "/").2 = "/srv/app".
Proof.
  destruct (@C9_parse_changes_directory loader "/srv/app/serverless.yml" "/" "/srv/app"
              eq_refl) as [Hstate _].
  exact Hstate.
Defined.

(** The listing of the three pages: nothing but listing requests, and a
    maximum above the 0 it was started with. *)
Lemma X1_witness :
  ∃ σ', searchLatest 3 0 VUndef deploys = Some (Resolved 1600000000000, σ')
        ∧ this σ' = this deploys
        ∧ grows isListing deploys σ'
        ∧ 0 ≤ 1600000000000.
Proof.
  pose proof (searchLatest_serves _ _ _ _ _ deploys_serves 3%nat 0 [] (le_n 3))
    as Hrun.
  eexists. split; [exact Hrun|].
  destruct (searchLatest_only_lists 3 0 VUndef deploys _ _ Hrun)
    as [Hthis [Hgrows [_ Hmax]]].
  split; [exact Hthis|]. split; [exact Hgrows|]. by apply Hmax.
Defined.

Lemma flaky_breaks :
  @breaks flaky (this flakyStart) (world flakyStart) VUndef [page1]
    (Failure (VStr "SlowDown")) 2%nat.
Proof.
  eapply breaks_later; [reflexivity | reflexivity |].
  apply breaks_here. reflexivity.
Qed.

(** The second request of the listing is rejected: so is the locator, in
    both variants, and the page read before is of no use. *)
Lemma X2_witness :
  fst <$> @getLastDeploymentDirectory flaky 2 flakyStart
  = Some (Rejected (Failure (VStr "SlowDown")))
  ∧ fst <$> @setLastDeploymentDirectory flaky 2 flakyStart
    = Some (Rejected (Failure (VStr "SlowDown"))).
Proof.
  assert (Hfuel : (length [page1] < 2)%nat) by (simpl; lia).
  destruct (@locator_passes_on_rejection flaky flakyStart [page1] _ _ 2%nat
              flaky_breaks Hfuel) as [Hget Hset].
  rewrite Hget, Hset. split; reflexivity.
Defined.

Lemma far_serves :
  @serves far (this farStart) (world farStart) VUndef [farPage] 1%nat.
Proof. eapply serves_last; reflexivity. Qed.

(** A deployment of the time 9e15, beyond the dates. *)
Lemma X3_witness :
  @latestOf far [farPage] = 9000000000000000
  ∧ fst <$> @getLastDeploymentDirectory far 1 farStart = Some (Rejected RangeError)
  ∧ fst <$> @setLastDeploymentDirectory far 1 farStart = Some (Rejected RangeError).
Proof.
  assert (Hlatest : @latestOf far [farPage] = 9000000000000000)
    by (vm_compute; reflexivity).
  assert (Hbig : Date.maxTime < @latestOf far [farPage])
    by (rewrite Hlatest; reflexivity).
  destruct (@locator_rejects_time_beyond_dates far farStart [farPage] 1%nat 1%nat
              far_serves (le_n 1) Hbig) as [Hget Hset].
  split; [exact Hlatest|]. rewrite Hget, Hset. split; reflexivity.
Defined.

(** The store refuses the object. *)
Lemma X5_witness :
  fst (@downloadTemplate denying (VStr "serverless/svc/dev/1-x") deniedStart)
  = Rejected (Failure (VStr "AccessDenied"))
  ∧ templateParams (this deniedStart) (VStr "serverless/svc/dev/1-x") !! "Key"
    = Some (VStr "serverless/svc/dev/1-x/compiled-cloudformation-template.json").
Proof.
  destruct (@fetch_passes_on_rejection denying deniedStart
              (VStr "serverless/svc/dev/1-x") (Failure (VStr "AccessDenied")) 1%nat
              eq_refl) as [Hrun [_ Hkey]].
  rewrite Hrun. split; [reflexivity | exact Hkey].
Defined.

(** The hook on the three pages: the template of the newest deployment. *)
Lemma X6_witness :
  templateParams
    (this (modify (set_directory
                     (VStr "serverless/svc/dev/1600000000000-2020-09-13T12:26:40.000Z"))
             deploys))
    (VStr "serverless/svc/dev/1600000000000-2020-09-13T12:26:40.000Z") !! "Key"
  = Some (VStr "serverless/svc/dev/1600000000000-2020-09-13T12:26:40.000Z/compiled-cloudformation-template.json")
  ∧ fst <$> downloadTemplateHook 3 deploys = Some (Resolved VNull).
Proof.
  destruct (hook_fetches_template_of_latest deploys [page1; page2; page3] 3%nat 3%nat
              deploys_serves (le_n 3)) as [_ Hlatest].
  assert (Hnz : latestOf [page1; page2; page3] ≠ 0) by (vm_compute; discriminate).
  assert (Hd : deploymentDirectory (this deploys) (latestOf [page1; page2; page3])
               = Some "serverless/svc/dev/1600000000000-2020-09-13T12:26:40.000Z")
    by reflexivity.
  destruct (Hlatest Hnz _ Hd) as [Hrun [_ Hkey]].
  split; [exact Hkey|]. rewrite Hrun. reflexivity.
Defined.

(** A reference to the ARN of the role. *)
Lemma X7_witness :
  normalizeArnRole
    (VObj (<["Fn::GetAtt" := VArr [VStr "DeployRole"; VStr "Arn"]]> ∅)) deploys
  = (Resolved (VStr "arn:aws:iam::123456789012:role/looked-up"),
     {| this := this deploys; world := 1%nat;
        trace := [Request "IAM" "getRole" (<["RoleName" := VStr "DeployRole"]> ∅)
                    (VStr "dev") (VStr "us-east-1")] |}).
Proof.
  assert (Hatt : (<["Fn::GetAtt" := VArr [VStr "DeployRole"; VStr "Arn"]]> (∅ : obj))
                   !! "Fn::GetAtt" = Some (VArr [VStr "DeployRole"; VStr "Arn"]))
    by apply lookup_insert_eq.
  assert (Hreq : provider_request (world deploys) "IAM" "getRole"
                   (<["RoleName" := VStr "DeployRole"]> ∅)
                   (stage (options (this deploys))) (region (options (this deploys)))
                 = (inl (RespRole (VStr "arn:aws:iam::123456789012:role/looked-up")),
                    1%nat))
    by reflexivity.
  pose proof (resolver_looks_up_attribute_reference deploys _ _ _ _ _ Hatt Hreq)
    as Hrun.
  cbv zeta in Hrun. rewrite Hrun. reflexivity.
Defined.

(** The role of the service is resolved first; the update carries its ARN,
    and nothing else but the name. *)
Lemma X8_witness :
  filter (λ ev, isConfigurationUpdate ev = true)
    (eventsOf updateFunctionConfiguration roled)
  = [Request "Lambda" "updateFunctionConfiguration"
       (<["Role" := VStr "arn:aws:iam::123456789012:role/deployer"]>
          (<["FunctionName" := VStr "svc-dev-hello"]> ∅))
       (VStr "dev") (VStr "us-east-1")].
Proof.
  assert (Hb : buildParams (functionObj (options (this roled)))
                 (serviceObject (this roled)) (providerObj (this roled))
               = inr (<["FunctionName" := VStr "svc-dev-hello"]> ∅))
    by (vm_compute; reflexivity).
  assert (Hr : roleOf (functionObj (options (this roled))) (providerObj (this roled))
               = Some (VStr "DeployRole"))
    by (vm_compute; reflexivity).
  destruct (update_waits_for_role roled _ _ Hb Hr) as [Hresolved _].
  apply (Hresolved _ (@Build_Sigma host (this roled) 1%nat [GetAccountId])).
  reflexivity.
Defined.

(** A role that is a number. *)
Lemma X9_witness :
  updateFunctionConfiguration numbered = (Thrown TypeError, numbered)
  ∧ eventsOf updateFunctionConfiguration numbered = [].
Proof.
  assert (Hb : buildParams (functionObj (options (this numbered)))
                 (serviceObject (this numbered)) (providerObj (this numbered))
               = inr (<["FunctionName" := VStr "svc-dev-hello"]> ∅))
    by (vm_compute; reflexivity).
  assert (Hr : roleOf (functionObj (options (this numbered)))
                 (providerObj (this numbered)) = Some (VNum 5))
    by (vm_compute; reflexivity).
  destruct (update_never_looks_up_reference numbered _ _ Hb Hr) as [_ Hthrows].
  destruct Hthrows as [_ [Hrun Hev]]; [discriminate|].
  split; [exact Hrun | exact Hev].
Defined.

(** The patch of the function with a memory size. *)
Lemma X10_witness :
  sizedPatch !! "FunctionName" = Some (VStr "svc-dev-hello")
  ∧ "MemorySize" ∈ patchNames.
Proof.
  assert (Hb : buildParams sized None ∅ = inr sizedPatch) by (vm_compute; reflexivity).
  destruct (patch_holds_known_names sized None ∅ sizedPatch Hb) as [Hname Hnames].
  split; [exact Hname|]. apply Hnames. exists (VNum 512).
  unfold sizedPatch. rewrite lookup_insert_ne by done. apply lookup_insert_eq.
Defined.

Lemma X11_witness : isObject (VNum 512) = false.
Proof.
  assert (Hb : buildParams sized None ∅ = inr sizedPatch) by (vm_compute; reflexivity).
  destruct (patch_forwards_no_placeholder sized None ∅ sizedPatch Hb) as [Hplain _].
  apply (Hplain "MemorySize").
  - do 2 apply list_elem_of_further. apply list_elem_of_here.
  - unfold sizedPatch. rewrite lookup_insert_ne by done. apply lookup_insert_eq.
Defined.

(** A name that starts with a digit. *)
Lemma X12_witness :
  buildParams (<["environment" := VObj (<["1BAD" := VStr "1"]> ∅)]> named) None ∅
  = inl invalidEnvironmentKey
  ∧ ∃ k, is_Some
           (assign2 (field (∅ : obj) "environment")
              (field (<["environment" := VObj (<["1BAD" := VStr "1"]> ∅)]> named)
                 "environment") !! k)
         ∧ isIdentifier k = false.
Proof.
  assert (Hb : buildParams (<["environment" := VObj (<["1BAD" := VStr "1"]> ∅)]> named)
                 None ∅ = inl invalidEnvironmentKey)
    by (vm_compute; reflexivity).
  destruct (patch_fails_only_on_environment_key _ _ _ _ Hb) as [_ [_ [_ Hkey]]].
  split; [exact Hb | exact Hkey].
Defined.

(** The memory size is sent, and acknowledged. *)
Lemma X13_witness :
  updateFunctionConfiguration resized
  = (Resolved tt,
     {| this := this resized; world := 1%nat;
        trace := [Request "Lambda" "updateFunctionConfiguration" sizedPatch
                    (VStr "dev") (VStr "us-east-1");
                  Log "Successfully updated function: hello"] |}).
Proof.
  assert (Hb : buildParams (functionObj (options (this resized)))
                 (serviceObject (this resized)) (providerObj (this resized))
               = inr sizedPatch)
    by (vm_compute; reflexivity).
  assert (Hr : roleOf (functionObj (options (this resized)))
                 (providerObj (this resized)) = None)
    by (vm_compute; reflexivity).
  assert (Hne : isEmpty (omit sizedPatch "FunctionName") = false)
    by (vm_compute; reflexivity).
  assert (Hreq : provider_request (world resized) "Lambda" "updateFunctionConfiguration"
                   sizedPatch (stage (options (this resized)))
                   (region (options (this resized)))
                 = (inl RespUndefined, 1%nat))
    by reflexivity.
  pose proof (update_sends_patch_once resized sizedPatch _ _ Hb Hr Hne Hreq) as Hrun.
  cbv zeta in Hrun. rewrite Hrun. reflexivity.
Defined.

(** The function has security groups; the provider has subnets, which are
    not looked at. *)
Lemma X14_witness :
  ∃ params,
    buildParams grouped None (<["vpc" := VObj (<["subnetIds" := VArr [VStr "sn-1"]]> ∅)]> ∅)
    = inr params
    ∧ params !! "VpcConfig" = Some (VObj (<["SecurityGroupIds" := VArr [VStr "sg-1"]]> ∅)).
Proof.
  assert (Hb : buildParams grouped None
                 (<["vpc" := VObj (<["subnetIds" := VArr [VStr "sn-1"]]> ∅)]> ∅)
               = inr (<["FunctionName" := VStr "svc-dev-hello"]>
                        (<["VpcConfig" :=
                             VObj (<["SecurityGroupIds" := VArr [VStr "sg-1"]]> ∅)]> ∅)))
    by (vm_compute; reflexivity).
  assert (Hf : truthy (field grouped "vpc") = true) by reflexivity.
  destruct (function_vpc_hides_provider_vpc grouped None _ _ Hf Hb) as [Hvpc _].
  eexists. split; [exact Hb|]. rewrite Hvpc. vm_compute. reflexivity.
Defined.

Lemma X15_witness :
  ∃ params,
    buildParams bare None ∅ = inr params
    ∧ params !! "Environment" = Some (VObj (<["Variables" := VObj ∅]> ∅))
    ∧ isEmpty (omit params "FunctionName") = false.
Proof.
  assert (Hset : truthy (field bare "environment")
                 || truthy (field (∅ : obj) "environment") = true) by reflexivity.
  assert (Hempty : assign2 (field (∅ : obj) "environment") (field bare "environment") = ∅)
    by (vm_compute; reflexivity).
  exact (empty_environment_is_sent bare None ∅ Hset Hempty).
Defined.

(** A variable named [length], a placeholder beside it: the placeholder is
    sent. *)
Lemma X16_witness :
  ∃ params,
    buildParams (<["environment" := VObj lengthy]> named) None ∅ = inr params
    ∧ params !! "Environment" = Some (VObj (<["Variables" := VObj lengthy]> ∅))
    ∧ isObject (field lengthy "TABLE") = true.
Proof.
  assert (Hset : truthy (field (<["environment" := VObj lengthy]> named) "environment")
                 || truthy (field (∅ : obj) "environment") = true) by reflexivity.
  assert (Hvars : assign2 (field (∅ : obj) "environment")
                    (field (<["environment" := VObj lengthy]> named) "environment")
                  = lengthy) by (vm_compute; reflexivity).
  assert (Hlen : isLength (field lengthy "length") = Some 1%nat)
    by (vm_compute; reflexivity).
  assert (Hkeys : ∀ k, is_Some (lengthy !! k) → isIdentifier k = true).
  { apply keys_checked. vm_compute. reflexivity. }
  destruct (environment_with_length_is_sent (<["environment" := VObj lengthy]> named)
              None ∅ 1%nat Hset) as (params & Hb & Henv).
  - rewrite Hvars. exact Hlen.
  - rewrite Hvars. exact Hkeys.
  - exists params. rewrite Hvars in Henv. by repeat split.
Defined.

(** A key of the first page. *)
Lemma X19_witness :
  entryTime (entry "serverless/svc/dev/1500000000000-2017-07-14T02:40:00.000Z/svc.zip")
  = Some 1500000000000.
Proof.
  assert (Hdash : ∀ c t, "-2017-07-14T02:40:00.000Z" = String c t → c = "-"%char)
    by (by intros c t [= <- _]).
  assert (Hne : "1500000000000" ≠ "") by discriminate.
  destruct (key_is_read_by_leading_run "serverless/svc/dev" "1500000000000"
              "-2017-07-14T02:40:00.000Z" "svc.zip" eq_refl Hne eq_refl Hdash
              eq_refl eq_refl) as [Htime _].
  exact Htime.
Defined.

(** The key of another shape on the second page. *)
Lemma X20_witness :
  slashes "serverless/readme" = 1%nat
  ∧ entryTime (entry "serverless/readme") = None.
Proof.
  assert (Hfew : (slashes "serverless/readme" < 2)%nat) by (vm_compute; lia).
  destruct (key_outside_directory_is_skipped "serverless/readme" Hfew) as [_ [Htime _]].
  split; [reflexivity | exact Htime].
Defined.

Lemma X21_witness :
  ∃ pre seg post,
    Some "latest" = Some seg
    ∧ seg ≠ ""
    ∧ every Regex.notSlashDash seg = true
    ∧ "serverless/svc/dev/latest-build/svc.zip" = pre +:+ "/" +:+ seg +:+ post
    ∧ (0 < slashes post)%nat.
Proof.
  assert (Hexec : Regex.exec Regex.deploymentKey "serverless/svc/dev/latest-build/svc.zip"
                  = Some (Some "latest")) by reflexivity.
  exact (match_captures_run_between_slashes _ _ Hexec).
Defined.

(** The directory of the newest deployment of the three pages, and the
    template under it. *)
Lemma X22_witness :
  entryTime
    (entry "serverless/svc/dev/1600000000000-2020-09-13T12:26:40.000Z/compiled-cloudformation-template.json")
  = Some 1600000000000.
Proof.
  assert (Hpos : 0 < 1600000000000) by reflexivity.
  assert (Hd : deploymentDirectory (this deploys) 1600000000000
               = Some "serverless/svc/dev/1600000000000-2020-09-13T12:26:40.000Z")
    by reflexivity.
  destruct (recorded_directory_reads_back (this deploys) 1600000000000 _
              "compiled-cloudformation-template.json" Hpos Hd eq_refl eq_refl eq_refl)
    as [_ [Htime _]].
  exact Htime.
Defined.

(** The document of the scenario, and one directly under the root. *)
Lemma X23_witness :
  @parentDir loader "/srv/app/serverless.yml" = "/srv/app"
  ∧ @parentDir loader "/serverless.yml" = "".
Proof.
  assert (Hfile : every (λ c, negb (Ascii.eqb c (@path_sep loader))) "serverless.yml"
                  = true) by reflexivity.
  destruct (@parentDir_drops_last_component loader "/srv/app" "serverless.yml" Hfile)
    as [_ [Hsame _]].
  destruct (@parentDir_drops_last_component loader "" "serverless.yml" Hfile)
    as [_ [_ [_ Hroot]]].
  split; [exact (Hsame eq_refl) | exact Hroot].
Defined.

Lemma X24_witness :
  @parse strict "serverless.yml" "/srv/app"
  = (Thrown (Failure (VStr "ENOENT")), "/srv/app")
  ∧ @parse strict "/serverless.yml" "/srv/app"
    = (Thrown (Failure (VStr "ENOENT")), "/srv/app").
Proof.
  assert (Hfile : every (λ c, negb (Ascii.eqb c (@path_sep strict))) "serverless.yml"
                  = true) by reflexivity.
  assert (Hcd : @process_chdir strict "" "/srv/app" = inl (Failure (VStr "ENOENT")))
    by reflexivity.
  exact (@parse_needs_a_directory strict "serverless.yml" "/srv/app" _ Hfile Hcd).
Defined.
